(** * The text-to-library parser of the Coptic reader

    A shallow embedding of [ContentService.parseTextToLibrary] and of
    [ContentService.slugify] (services/contentService.ts), in the three
    revisions of that file the repository holds, together with the document
    model of types.ts; of the cache functions of the same class; of
    [findBook], [handleSaveEditor], the selection and the updaters of the
    settings of App.tsx; and of the navigation of components/Reader.tsx.

    - JavaScript strings are sequences of UTF-16 code units: [jsstring] is
      [list N].
    - The parser builds its result by mutating objects it still holds
      references to ([currentCat], [currentBook], [currentSection],
      [currentPart]).  Objects therefore live in a store and are named by
      references; the value the caller sees is read back from the store when
      the parser returns ([reify_library]).
    - A statement that can throw in JavaScript (a property access on [null]
      or [undefined]) is written in the [Result] monad. *)

From Stdlib Require Import NArith ZArith Lia List Ascii String DecimalString
  DecimalNat.
From stdpp Require Import base option list.

Import ListNotations.

(** ** Strings *)

Module JsString.

Local Open Scope N_scope.

Definition jsstring := list N.

(** An ASCII literal as a sequence of code units. *)
Definition js (s : string) : jsstring :=
  map N_of_ascii (list_ascii_of_string s).

Fixpoint eqb (a b : jsstring) : bool :=
  match a, b with
  | [], [] => true
  | x :: a', y :: b' => (x =? y) && eqb a' b'
  | _, _ => false
  end.

(** A string in a condition: the empty string is falsy. *)
Definition truthy (s : jsstring) : bool :=
  match s with [] => false | _ :: _ => true end.

(** [a || b] on strings. *)
Definition or_else (a b : jsstring) : jsstring :=
  if truthy a then a else b.

(** WhiteSpace and LineTerminator of ECMAScript: what [trim] strips and what
    [\s] matches. *)
Definition isWhite (c : N) : bool :=
  ((9 <=? c) && (c <=? 13)) || (c =? 32) || (c =? 160) || (c =? 5760)
  || ((8192 <=? c) && (c <=? 8202)) || (c =? 8232) || (c =? 8233)
  || (c =? 8239) || (c =? 8287) || (c =? 12288) || (c =? 65279).

Fixpoint trimStart (s : jsstring) : jsstring :=
  match s with
  | [] => []
  | c :: r => if isWhite c then trimStart r else s
  end.

Definition trimEnd (s : jsstring) : jsstring := rev (trimStart (rev s)).

Definition trim (s : jsstring) : jsstring := trimEnd (trimStart s).

Fixpoint startsWith (s p : jsstring) {struct p} : bool :=
  match p, s with
  | [], _ => true
  | x :: p', y :: s' => (x =? y) && startsWith s' p'
  | _ :: _, [] => false
  end.

(** [s.replace(pat, rep)] with a string pattern: the first occurrence only. *)
Fixpoint replace (pat rep s : jsstring) : jsstring :=
  if startsWith s pat then rep ++ drop (length pat) s
  else match s with
       | [] => []
       | c :: r => c :: replace pat rep r
       end.

(** [s.split('\n')]. *)
Fixpoint split_nl (s : jsstring) : list jsstring :=
  match s with
  | [] => [[]]
  | c :: r =>
      if c =? 10 then [] :: split_nl r
      else match split_nl r with
           | l :: ls => (c :: l) :: ls
           | [] => [[c]]
           end
  end.

(** The lines of a text put back together, one line feed between two. *)
Fixpoint join_nl (ls : list jsstring) : jsstring :=
  match ls with
  | [] => []
  | [l] => l
  | l :: ls' => l ++ 10 :: join_nl ls'
  end.

(** [toUpperCase] as far as a comparison with one of the five ASCII language
    tags can see it: the letters a-z are mapped to A-Z.  Unicode maps no
    other character to a string made of the letters of those tags. *)
Definition upper1 (c : N) : N :=
  if (97 <=? c) && (c <=? 122) then c - 32 else c.

Definition toUpperCase (s : jsstring) : jsstring := map upper1 s.

(** [toLowerCase] as far as [slugify] can see it: A-Z are mapped to a-z, and
    the two characters outside ASCII whose lower case contains an ASCII
    letter are mapped as Unicode says (U+0130 to i followed by U+0307, the
    Kelvin sign U+212A to k).  Any other character outside ASCII stays
    outside ASCII and keeps its white-space class, and [slugify] deletes or
    hyphenates it in its next two steps whatever its case. *)
Definition lower1 (c : N) : jsstring :=
  if (65 <=? c) && (c <=? 90) then [c + 32]
  else if c =? 304 then [105; 775]
  else if c =? 8490 then [107]
  else [c].

Definition toLowerCase (s : jsstring) : jsstring := flat_map lower1 s.

(** [\w] without the unicode flag. *)
Definition isWord (c : N) : bool :=
  ((48 <=? c) && (c <=? 57)) || ((65 <=? c) && (c <=? 90))
  || (c =? 95) || ((97 <=? c) && (c <=? 122)).

Definition hyphen : N := 45.

(** [.replace(/[^\w\s-]/g, '')] *)
Definition strip_other (s : jsstring) : jsstring :=
  List.filter (fun c => isWord c || isWhite c || (c =? hyphen)) s.

Definition isSep (c : N) : bool := isWhite c || (c =? 95) || (c =? hyphen).

(** [.replace(/[\s_-]+/g, '-')]: [inrun] tells that the previous character
    was part of the run being replaced. *)
Fixpoint collapse (inrun : bool) (s : jsstring) : jsstring :=
  match s with
  | [] => []
  | c :: r =>
      if isSep c then (if inrun then collapse true r else hyphen :: collapse true r)
      else c :: collapse false r
  end.

Fixpoint dropHyphens (s : jsstring) : jsstring :=
  match s with
  | [] => []
  | c :: r => if c =? hyphen then dropHyphens r else s
  end.

(** [.replace(/^-+|-+$/g, '')] *)
Definition strip_hyphens (s : jsstring) : jsstring :=
  rev (dropHyphens (rev (dropHyphens s))).

(** A number in a template literal. *)
Definition decimal (n : nat) : jsstring :=
  js (NilZero.string_of_uint (Nat.to_uint n)).

End JsString.

Import JsString.

(** [ContentService.slugify] (src/unnamed/part_002, lines 501-503):
    [text.toLowerCase().trim().replace(/[^\w\s-]/g, '')
       .replace(/[\s_-]+/g, '-').replace(/^-+|-+$/g, '')] *)
Definition slugify (text : jsstring) : jsstring :=
  strip_hyphens (collapse false (strip_other (trim (toLowerCase text)))).

(** ** The document model (types.ts) *)

Inductive Language :=
  | ENGLISH | COPTIC | ARABIC | TRANSLITERATED_ENGLISH | TRANSLITERATED_ARABIC.

Inductive PartType := prayer | hymn | reading | instruction.

Inductive ItemType := category | book.

Definition Language_eqb (a b : Language) : bool :=
  match a, b with
  | ENGLISH, ENGLISH | COPTIC, COPTIC | ARABIC, ARABIC
  | TRANSLITERATED_ENGLISH, TRANSLITERATED_ENGLISH
  | TRANSLITERATED_ARABIC, TRANSLITERATED_ARABIC => true
  | _, _ => false
  end.

(** The [content] object of a part: its keys in insertion order. *)
Definition Content := list (Language * list jsstring).

Fixpoint content_get (l : Language) (c : Content) : option (list jsstring) :=
  match c with
  | [] => None
  | (k, v) :: c' => if Language_eqb k l then Some v else content_get l c'
  end.

(** [content[l] = v]: an existing key keeps its place, a new one comes last. *)
Fixpoint content_set (l : Language) (v : list jsstring) (c : Content) : Content :=
  match c with
  | [] => [(l, v)]
  | (k, w) :: c' =>
      if Language_eqb k l then (k, v) :: c' else (k, w) :: content_set l v c'
  end.

Record LiturgicalPart := mkPart {
  part_id : jsstring;
  part_type : PartType;
  part_content : Content
}.

Record LiturgySection := mkSection {
  sec_id : jsstring;
  sec_title : jsstring;
  sec_parts : list LiturgicalPart
}.

#[warnings="-register-all"]
Inductive LibraryItem := mkItem {
  item_id : jsstring;
  item_title : jsstring;
  item_type : ItemType;
  item_children : option (list LibraryItem);
  item_sections : option (list LiturgySection)
}.

(** ** Objects and references *)

Abbreviation ref := nat (only parsing).

(** A [LiturgySection] object: its parts are references. *)
Record SectionObj := mkSectionObj {
  so_id : jsstring;
  so_title : jsstring;
  so_parts : list ref
}.

(** A [LibraryItem] object made with [type: 'book']. *)
Record BookObj := mkBookObj {
  bo_id : jsstring;
  bo_title : jsstring;
  bo_sections : option (list ref)
}.

(** A [LibraryItem] object made with [type: 'category']. *)
Record CatObj := mkCatObj {
  co_id : jsstring;
  co_title : jsstring;
  co_children : option (list ref)
}.

(** The local variables of one call of the parser, and the objects it has
    made so far.  Each object literal of the source allocates in the store
    of its kind; a reference is the index in that store.  [partCount]
    exists in one revision only, [draws] counts the calls of [Math.random]
    of another. *)
Record State := mkState {
  cats : list CatObj;
  books : list BookObj;
  secs : list SectionObj;
  parts : list LiturgicalPart;
  library : list ref;
  currentCat : option ref;
  currentBook : option ref;
  currentSection : option ref;
  currentPart : option ref;
  currentLang : option Language;
  partCount : nat;
  draws : nat
}.

Definition set_cats v st :=
  mkState v (books st) (secs st) (parts st) (library st) (currentCat st)
    (currentBook st) (currentSection st) (currentPart st) (currentLang st)
    (partCount st) (draws st).
Definition set_books v st :=
  mkState (cats st) v (secs st) (parts st) (library st) (currentCat st)
    (currentBook st) (currentSection st) (currentPart st) (currentLang st)
    (partCount st) (draws st).
Definition set_secs v st :=
  mkState (cats st) (books st) v (parts st) (library st) (currentCat st)
    (currentBook st) (currentSection st) (currentPart st) (currentLang st)
    (partCount st) (draws st).
Definition set_parts v st :=
  mkState (cats st) (books st) (secs st) v (library st) (currentCat st)
    (currentBook st) (currentSection st) (currentPart st) (currentLang st)
    (partCount st) (draws st).
Definition set_library v st :=
  mkState (cats st) (books st) (secs st) (parts st) v (currentCat st)
    (currentBook st) (currentSection st) (currentPart st) (currentLang st)
    (partCount st) (draws st).
Definition set_currentCat v st :=
  mkState (cats st) (books st) (secs st) (parts st) (library st) v
    (currentBook st) (currentSection st) (currentPart st) (currentLang st)
    (partCount st) (draws st).
Definition set_currentBook v st :=
  mkState (cats st) (books st) (secs st) (parts st) (library st) (currentCat st)
    v (currentSection st) (currentPart st) (currentLang st)
    (partCount st) (draws st).
Definition set_currentSection v st :=
  mkState (cats st) (books st) (secs st) (parts st) (library st) (currentCat st)
    (currentBook st) v (currentPart st) (currentLang st)
    (partCount st) (draws st).
Definition set_currentPart v st :=
  mkState (cats st) (books st) (secs st) (parts st) (library st) (currentCat st)
    (currentBook st) (currentSection st) v (currentLang st)
    (partCount st) (draws st).
Definition set_currentLang v st :=
  mkState (cats st) (books st) (secs st) (parts st) (library st) (currentCat st)
    (currentBook st) (currentSection st) (currentPart st) v
    (partCount st) (draws st).
Definition set_partCount v st :=
  mkState (cats st) (books st) (secs st) (parts st) (library st) (currentCat st)
    (currentBook st) (currentSection st) (currentPart st) (currentLang st)
    v (draws st).
Definition set_draws v st :=
  mkState (cats st) (books st) (secs st) (parts st) (library st) (currentCat st)
    (currentBook st) (currentSection st) (currentPart st) (currentLang st)
    (partCount st) v.

(** The state at the start of a call: nothing allocated, every cursor null. *)
Definition init : State :=
  mkState [] [] [] [] [] None None None None None 0 0.

(** ** Exceptions *)

Inductive JsError :=
  | TypeError   (* a property of null or undefined was read or called *)
  | BadRef.     (* a reference to an object that was never allocated *)

Inductive Result (A : Type) :=
  | Ok (a : A)
  | Throw (e : JsError).
Arguments Ok {A} a.
Arguments Throw {A} e.

Definition bind {A B} (m : Result A) (k : A -> Result B) : Result B :=
  match m with
  | Ok a => k a
  | Throw e => Throw e
  end.

Notation "'do' x <- m ; k" := (bind m (fun x => k))
  (at level 10, x name, m at level 100, k at level 200).

Definition deref {A} (store : list A) (r : ref) : Result A :=
  match store !! r with
  | Some a => Ok a
  | None => Throw BadRef
  end.

(** [xs.push(x)] where [xs] may be undefined. *)
Definition push {A} (xs : option (list A)) (x : A) : Result (list A) :=
  match xs with
  | Some l => Ok (l ++ [x])
  | None => Throw TypeError
  end.

(** [if (!xs) xs = []] *)
Definition ensure_array {A} (xs : option (list A)) : option (list A) :=
  match xs with
  | Some l => Some l
  | None => Some []
  end.

(** The object [so] after [so.parts.push(p)], and its likes. *)
Definition add_part (p : ref) (so : SectionObj) : SectionObj :=
  mkSectionObj (so_id so) (so_title so) (so_parts so ++ [p]).

Definition set_sections (l : list ref) (bo : BookObj) : BookObj :=
  mkBookObj (bo_id bo) (bo_title bo) (Some l).

Definition set_children (l : list ref) (co : CatObj) : CatObj :=
  mkCatObj (co_id co) (co_title co) (Some l).

Definition set_content (c : Content) (po : LiturgicalPart) : LiturgicalPart :=
  mkPart (part_id po) (part_type po) c.

Definition isNull {A} (o : option A) : bool :=
  match o with
  | None => true
  | Some _ => false
  end.

(** [o?.f || d] for a string field [f]. *)
Definition opt_or (o : option jsstring) (d : jsstring) : jsstring :=
  match o with
  | Some s => or_else s d
  | None => d
  end.

(** [forEach] over the lines, stopping at the first exception. *)
Fixpoint forEach (f : State -> jsstring -> Result State)
    (lines : list jsstring) (st : State) : Result State :=
  match lines with
  | [] => Ok st
  | l :: ls => do st' <- f st l; forEach f ls st'
  end.

(** ** What the caller sees: the library read back from the store *)

Definition reify_section (st : State) (r : ref) : option LiturgySection :=
  so ← secs st !! r;
  ps ← mapM (fun p => parts st !! p) (so_parts so);
  Some (mkSection (so_id so) (so_title so) ps).

Definition reify_book (st : State) (r : ref) : option LibraryItem :=
  bo ← books st !! r;
  ss ← match bo_sections bo with
       | None => Some None
       | Some l => Some <$> mapM (reify_section st) l
       end;
  Some (mkItem (bo_id bo) (bo_title bo) book None ss).

Definition reify_cat (st : State) (r : ref) : option LibraryItem :=
  co ← cats st !! r;
  ch ← match co_children co with
       | None => Some None
       | Some l => Some <$> mapM (reify_book st) l
       end;
  Some (mkItem (co_id co) (co_title co) category ch None).

Definition reify_library (st : State) : Result (list LibraryItem) :=
  match mapM (reify_cat st) (library st) with
  | Some lib => Ok lib
  | None => Throw BadRef
  end.

(** ** Statements the three revisions share *)

(** [currentBook?.title] *)
Definition currentBook_title (st : State) : Result (option jsstring) :=
  match currentBook st with
  | None => Ok None
  | Some b => do bo <- deref (books st) b; Ok (Some (bo_title bo))
  end.

(** [currentCat?.title] *)
Definition currentCat_title (st : State) : Result (option jsstring) :=
  match currentCat st with
  | None => Ok None
  | Some c => do co <- deref (cats st) c; Ok (Some (co_title co))
  end.

(** [currentSection?.id] *)
Definition currentSection_id (st : State) : Result (option jsstring) :=
  match currentSection st with
  | None => Ok None
  | Some s => do so <- deref (secs st) s; Ok (Some (so_id so))
  end.

(** [currentSection = { id, title, parts: [] }]: the new object gets the
    next free reference, [length (secs st)]. *)
Definition new_section (id title : jsstring) (st : State) : State :=
  set_currentSection (Some (length (secs st)))
    (set_secs (secs st ++ [mkSectionObj id title []]) st).

(** [if (currentBook) { if (!currentBook.sections) currentBook.sections = [];
    currentBook.sections.push(currentSection); }], with [s] the section
    just made. *)
Definition attach_section (s : ref) (st : State) : Result State :=
  match currentBook st with
  | None => Ok st
  | Some b =>
      do bo <- deref (books st) b;
      do l <- push (ensure_array (bo_sections bo)) s;
      Ok (set_books (<[b := set_sections l bo]> (books st)) st)
  end.

(** [currentBook = { id, title, type: 'book', sections: [] }] *)
Definition new_book (id title : jsstring) (st : State) : State :=
  set_currentBook (Some (length (books st)))
    (set_books (books st ++ [mkBookObj id title (Some [])]) st).

(** [if (currentCat) { if (!currentCat.children) currentCat.children = [];
    currentCat.children.push(currentBook); }], with [b] the book just made. *)
Definition attach_book (b : ref) (st : State) : Result State :=
  match currentCat st with
  | None => Ok st
  | Some c =>
      do co <- deref (cats st) c;
      do l <- push (ensure_array (co_children co)) b;
      Ok (set_cats (<[c := set_children l co]> (cats st)) st)
  end.

(** [currentCat = { id, title, type: 'category', children: [] };
    library.push(currentCat);] *)
Definition new_category (id title : jsstring) (st : State) : State :=
  set_library (library st ++ [length (cats st)])
    (set_currentCat (Some (length (cats st)))
       (set_cats (cats st ++ [mkCatObj id title (Some [])]) st)).

(** The five comparisons of [trimmed.toUpperCase()] with a language tag, in
    the order of the source. *)
Definition languageTag (trimmed : jsstring) : option Language :=
  let u := toUpperCase trimmed in
  if eqb u (js "[EN]") then Some ENGLISH
  else if eqb u (js "[COP]") then Some COPTIC
  else if eqb u (js "[AR]") then Some ARABIC
  else if eqb u (js "[TRAN-EN]") then Some TRANSLITERATED_ENGLISH
  else if eqb u (js "[TRAN-AR]") then Some TRANSLITERATED_ARABIC
  else None.

(** The body of the last branch, entered with [currentLang] = [l] and
    [currentPart] = [p]:
    [if (!currentPart.content[currentLang]) currentPart.content[currentLang] = [];
     if (trimmed) currentPart.content[currentLang]!.push(trimmed);] *)
Definition appendLine (l : Language) (p : ref) (trimmed : jsstring)
    (st : State) : Result State :=
  do po <- deref (parts st) p;
  let c1 := match content_get l (part_content po) with
            | Some _ => part_content po       (* an array, even empty, is truthy *)
            | None => content_set l [] (part_content po)
            end in
  do c2 <- (if truthy trimmed
            then do ps <- push (content_get l c1) trimmed; Ok (content_set l ps c1)
            else Ok c1);
  Ok (set_parts (<[p := set_content c2 po]> (parts st)) st).

(** The branches below the headings and the delimiter: a language tag sets
    [currentLang]; any other line is content when a language and a part are
    current, and is ignored otherwise. *)
Definition tagOrContent (trimmed : jsstring) (st : State) : Result State :=
  match languageTag trimmed with
  | Some l => Ok (set_currentLang (Some l) st)
  | None =>
      match currentLang st, currentPart st with
      | Some l, Some p => appendLine l p trimmed st
      | _, _ => Ok st
      end
  end.

(** ** The revision with slug identifiers and a part counter

    src/unnamed/part_002, lines 494-643: [createNewPart] at 566-576, the
    callback of [forEach] at 578-639. *)

Module Counted.

(** [createNewPart]: the part is made whether or not a section is current,
    and pushed only when one is. *)
Definition createNewPart (st : State) : Result State :=
  let st := set_partCount (S (partCount st)) st in
  do sid <- currentSection_id st;
  let po := mkPart (js "part-" ++ opt_or sid (js "root") ++ js "-"
                      ++ decimal (partCount st)) prayer [] in
  let p := length (parts st) in
  let st := set_currentPart (Some p) (set_parts (parts st ++ [po]) st) in
  match currentSection st with
  | Some s =>
      do so <- deref (secs st) s;
      Ok (set_secs (<[s := add_part p so]> (secs st)) st)
  | None => Ok st
  end.

(** The callback of [lines.forEach]. *)
Definition processLine (st : State) (line : jsstring) : Result State :=
  let trimmed := trim line in
  if negb (truthy trimmed) && isNull (currentLang st) then Ok st
  else if startsWith trimmed (js "###") then
    let title := trim (replace (js "###") [] trimmed) in
    do bt <- currentBook_title st;
    let s := length (secs st) in
    let st := new_section (js "sec-" ++ slugify (opt_or bt []) ++ js "-" ++ slugify title)
                title st in
    do st <- attach_section s st;
    let st := set_partCount 0 st in
    do st <- createNewPart st;
    Ok (set_currentLang None st)
  else if startsWith trimmed (js "##") then
    let title := trim (replace (js "##") [] trimmed) in
    do ct <- currentCat_title st;
    let b := length (books st) in
    let st := new_book (js "book-" ++ slugify (opt_or ct []) ++ js "-" ++ slugify title)
                title st in
    do st <- attach_book b st;
    Ok (set_currentPart None (set_currentSection None st))
  else if startsWith trimmed (js "#") then
    let title := trim (replace (js "#") [] trimmed) in
    let st := new_category (js "cat-" ++ slugify title) title st in
    Ok (set_currentPart None (set_currentSection None (set_currentBook None st)))
  else if eqb trimmed (js "---") then
    do st <- createNewPart st;
    Ok (set_currentLang None st)
  else tagOrContent trimmed st.

Definition parseTextToLibrary (text : jsstring) : Result (list LibraryItem) :=
  let trimmedText := trim text in
  if negb (truthy trimmedText) then Ok []
  else
    let lines := split_nl text in
    do st <- forEach processLine lines init;
    reify_library st.

End Counted.

(** ** The revision with slug identifiers and a guarded [startNewPart]

    src/unnamed/part_002, lines 355-493: [startNewPart] at 423-431, the
    callback of [forEach] at 433-489.  No early return on a blank text, no
    test for a blank line, and "cat" and "root" where a title is missing. *)

Module Guarded.

(** [startNewPart]: nothing happens without a current section. *)
Definition startNewPart (st : State) : Result State :=
  match currentSection st with
  | None => Ok st
  | Some s =>
      do so <- deref (secs st) s;
      let po := mkPart (js "part-" ++ so_id so ++ js "-"
                          ++ decimal (length (so_parts so) + 1)) prayer [] in
      let p := length (parts st) in
      let st := set_currentPart (Some p) (set_parts (parts st ++ [po]) st) in
      Ok (set_secs (<[s := add_part p so]> (secs st)) st)
  end.

Definition processLine (st : State) (line : jsstring) : Result State :=
  let trimmed := trim line in
  if startsWith trimmed (js "###") then
    let title := trim (replace (js "###") [] trimmed) in
    do bt <- currentBook_title st;
    let s := length (secs st) in
    let st := new_section (js "sec-" ++ slugify (opt_or bt (js "cat")) ++ js "-"
                             ++ slugify title) title st in
    do st <- attach_section s st;
    do st <- startNewPart st;
    Ok (set_currentLang None st)
  else if startsWith trimmed (js "##") then
    let title := trim (replace (js "##") [] trimmed) in
    do ct <- currentCat_title st;
    let b := length (books st) in
    let st := new_book (js "book-" ++ slugify (opt_or ct (js "root")) ++ js "-"
                          ++ slugify title) title st in
    do st <- attach_book b st;
    Ok (set_currentPart None (set_currentSection None st))
  else if startsWith trimmed (js "#") then
    let title := trim (replace (js "#") [] trimmed) in
    let st := new_category (js "cat-" ++ slugify title) title st in
    Ok (set_currentPart None (set_currentSection None (set_currentBook None st)))
  else if eqb trimmed (js "---") then
    do st <- startNewPart st;
    Ok (set_currentLang None st)
  else tagOrContent trimmed st.

Definition parseTextToLibrary (text : jsstring) : Result (list LibraryItem) :=
  let lines := split_nl text in
  do st <- forEach processLine lines init;
  reify_library st.

End Guarded.

(** ** The revision with random identifiers

    src/unnamed/part_003, lines 61-131: [createNewPart] at 74-83, the
    callback of [forEach] at 85-128. *)

Module Random.

Section WithRandom.

(** [random n] is the value of [Math.random().toString(36).substr(2, 9)] at
    the call number [n] of one run: the parser has no other source of
    identifiers in this revision. *)
Variable random : nat -> jsstring.

Definition draw (st : State) : jsstring * State :=
  (random (draws st), set_draws (S (draws st)) st).

Definition createNewPart (st : State) : Result State :=
  let (id, st) := draw st in
  let po := mkPart id prayer [] in
  let p := length (parts st) in
  let st := set_currentPart (Some p) (set_parts (parts st ++ [po]) st) in
  match currentSection st with
  | Some s =>
      do so <- deref (secs st) s;
      Ok (set_secs (<[s := add_part p so]> (secs st)) st)
  | None => Ok st
  end.

Definition processLine (st : State) (line : jsstring) : Result State :=
  let trimmed := trim line in
  if negb (truthy trimmed) && isNull (currentLang st) then Ok st
  else if startsWith trimmed (js "###") then
    let (id, st) := draw st in
    let s := length (secs st) in
    let st := new_section id (trim (replace (js "###") [] trimmed)) st in
    do st <- attach_section s st;
    do st <- createNewPart st;
    Ok (set_currentLang None st)
  else if startsWith trimmed (js "##") then
    let (id, st) := draw st in
    let b := length (books st) in
    let st := new_book id (trim (replace (js "##") [] trimmed)) st in
    do st <- attach_book b st;
    Ok (set_currentPart None (set_currentSection None st))
  else if startsWith trimmed (js "#") then
    let (id, st) := draw st in
    let st := new_category id (trim (replace (js "#") [] trimmed)) st in
    Ok (set_currentPart None (set_currentSection None (set_currentBook None st)))
  else if eqb trimmed (js "---") then
    do st <- createNewPart st;
    Ok (set_currentLang None st)
  else tagOrContent trimmed st.

Definition parseTextToLibrary (text : jsstring) : Result (list LibraryItem) :=
  let trimmedText := trim text in
  if negb (truthy trimmedText) then Ok []
  else
    let lines := split_nl text in
    do st <- forEach processLine lines init;
    reify_library st.

End WithRandom.

End Random.

(** * The application (App.tsx: src/unnamed/part_002, lines 1-355) *)

Definition ItemType_eqb (a b : ItemType) : bool :=
  match a, b with
  | category, category | book, book => true
  | _, _ => false
  end.

(** The test of [findBook]: [item.id === id && item.type === 'book']. *)
Definition isBookWithId (id : jsstring) (item : LibraryItem) : bool :=
  eqb (item_id item) id && ItemType_eqb (item_type item) book.

(** One turn of the loop of [findBook] (lines 102-111): [Some] is a
    [return], [None] goes on to the next item.  The inner [fix] is the call
    [findBook(item.children, id)], that is the loop itself over the
    children. *)
Fixpoint findBook_visit (id : jsstring) (item : LibraryItem) : option LibraryItem :=
  match item with
  | mkItem iid _ ty ch _ =>
      if eqb iid id && ItemType_eqb ty book then Some item
      else match ch with
           | Some children =>
               (fix loop (items : list LibraryItem) : option LibraryItem :=
                  match items with
                  | [] => None
                  | x :: rest =>
                      match findBook_visit id x with
                      | Some found => Some found
                      | None => loop rest
                      end
                  end) children
           | None => None
           end
  end.

Fixpoint findBook (items : list LibraryItem) (id : jsstring) : option LibraryItem :=
  match items with
  | [] => None
  | item :: rest =>
      match findBook_visit id item with
      | Some found => Some found
      | None => findBook rest id
      end
  end.

(** [AppSettings] (types.ts, lines 35-40). *)
Record AppSettings := mkSettings {
  fontSize : Z;
  languages : list Language;
  presentationMode : bool;
  isFullscreen : bool
}.

(** The initial value of [settings] (lines 20-31). *)
Definition initialSettings : AppSettings :=
  mkSettings 24
    [ENGLISH; COPTIC; ARABIC; TRANSLITERATED_ENGLISH; TRANSLITERATED_ARABIC]
    true false.

(** [languages.includes(lang)] *)
Definition includes (lang : Language) (ls : list Language) : bool :=
  existsb (fun l => Language_eqb l lang) ls.

(** The updater of [toggleLanguage] (lines 78-89). *)
Definition toggleLanguage (lang : Language) (prev : AppSettings) : AppSettings :=
  let isSelected := includes lang (languages prev) in
  if isSelected && (length (languages prev) =? 1)%nat then prev
  else mkSettings (fontSize prev)
         (if isSelected
          then List.filter (fun l => negb (Language_eqb l lang)) (languages prev)
          else languages prev ++ [lang])
         (presentationMode prev) (isFullscreen prev).

(** The updaters of the two font buttons (lines 250 and 260). *)
Definition decreaseFont (s : AppSettings) : AppSettings :=
  mkSettings (Z.max 12 (fontSize s - 2)) (languages s)
    (presentationMode s) (isFullscreen s).

Definition increaseFont (s : AppSettings) : AppSettings :=
  mkSettings (Z.min 72 (fontSize s + 2)) (languages s)
    (presentationMode s) (isFullscreen s).

(** Every call of [setSettings] in the application. *)
Inductive SettingsAction :=
  | ToggleLanguage (lang : Language)
  | DecreaseFont
  | IncreaseFont.

Definition act (s : AppSettings) (a : SettingsAction) : AppSettings :=
  match a with
  | ToggleLanguage lang => toggleLanguage lang s
  | DecreaseFont => decreaseFont s
  | IncreaseFont => increaseFont s
  end.

(** * The reader (components/Reader.tsx, lines 1-207) *)

(** An element of [allParts]: the fields of a part, then the title and the
    identifier of its section ([{ ...part, sectionTitle, sectionId }]). *)
Record FlatPart := mkFlat {
  fp_part : LiturgicalPart;
  fp_sectionTitle : jsstring;
  fp_sectionId : jsstring
}.

(** [sections.flatMap(section => section.parts.map(part => ...))] *)
Definition flatten (sections : list LiturgySection) : list FlatPart :=
  flat_map (fun section =>
              map (fun part => mkFlat part (sec_title section) (sec_id section))
                (sec_parts section))
    sections.

(** [allParts] (lines 20-25). *)
Definition allParts (book : option LibraryItem) : list FlatPart :=
  match book with
  | None => []
  | Some b =>
      match item_sections b with
      | None => []
      | Some sections => flatten sections
      end
  end.

(** [l.findIndex(f)], -1 when no element passes. *)
Fixpoint findIndex_from {A} (f : A -> bool) (l : list A) (i : Z) : Z :=
  match l with
  | [] => (-1)%Z
  | x :: r => if f x then i else findIndex_from f r (i + 1)%Z
  end.

Definition findIndex {A} (f : A -> bool) (l : list A) : Z := findIndex_from f l 0.

(** [safeIndex] (line 29). *)
Definition safeIndex (currentPartIndex : Z) (all : list FlatPart) : Z :=
  if (currentPartIndex <? Z.of_nat (length all))%Z then currentPartIndex else 0%Z.

(** The state of the component that navigation reads and writes. *)
Record ReaderState := mkReader {
  currentPartIndex : Z;
  lastBookIdRef : option jsstring
}.

Definition same_id (a : option jsstring) (b : jsstring) : bool :=
  match a with
  | Some s => eqb s b
  | None => false
  end.

(** The layout effect of lines 71-90.  The boolean tells whether
    [onTargetReached] was called. *)
Definition navigate (book : option LibraryItem) (targetSectionId : option jsstring)
    (rs : ReaderState) : ReaderState * bool :=
  match book with
  | None => (rs, false)
  | Some b =>
      let all := allParts book in
      if (length all =? 0)%nat then (rs, false)
      else
        let bookChanged := negb (same_id (lastBookIdRef rs) (item_id b)) in
        let otherwise :=
          if bookChanged then (mkReader 0 (Some (item_id b)), false)
          else (rs, false) in
        match targetSectionId with
        | Some t =>
            if truthy t then
              let targetIndex := findIndex (fun p => eqb (fp_sectionId p) t) all in
              if negb (targetIndex =? -1)%Z
              then (mkReader targetIndex (Some (item_id b)), true)
              else otherwise
            else otherwise
        | None => otherwise
        end
  end.

(** The two halves of [handlePresentationClick] (lines 121-126). *)
Inductive Click := ClickBack | ClickForward.

Definition click (all : list FlatPart) (prev : Z) (c : Click) : Z :=
  match c with
  | ClickBack => Z.max 0 (prev - 1)
  | ClickForward => Z.min (Z.of_nat (length all) - 1) (prev + 1)
  end.

(** [l[i]] for an integer [i]: [undefined] out of range. *)
Definition at_index {A} (l : list A) (i : Z) : option A :=
  if (i <? 0)%Z then None else l !! Z.to_nat i.

(** [safeCurrentPart] (line 30). *)
Definition safeCurrentPart (currentPartIndex : Z) (all : list FlatPart)
    : option FlatPart :=
  at_index all (safeIndex currentPartIndex all).

(** The two tiers of languages (lines 33-34). *)
Definition primaryLangs : list Language := [ENGLISH; COPTIC; ARABIC].

Definition secondaryLangs : list Language :=
  [TRANSLITERATED_ENGLISH; TRANSLITERATED_ARABIC].

(** [content && content.length > 0 && content.some(p => p.trim() !== '')] *)
Definition hasText (content : option (list jsstring)) : bool :=
  match content with
  | Some ps => (0 <? length ps)%nat && existsb (fun p => negb (eqb (trim p) [])) ps
  | None => false
  end.

(** [getActiveLangsForTier] (lines 36-43). *)
Definition getActiveLangsForTier (settings : AppSettings) (current : option FlatPart)
    (tier : list Language) : list Language :=
  let globalOrdered := List.filter (fun l => includes l (languages settings)) tier in
  match current with
  | None => []
  | Some part =>
      List.filter
        (fun lang => hasText (content_get lang (part_content (fp_part part))))
        globalOrdered
  end.

(** [sectionStats] (lines 48-53): the pair of [index] and [total]. *)
Definition sectionStats (all : list FlatPart) (current : option FlatPart) : Z * Z :=
  match current with
  | None => (0, 0)%Z
  | Some part =>
      if (length all =? 0)%nat then (0, 0)%Z
      else
        let sectionParts :=
          List.filter (fun p => eqb (fp_sectionId p) (fp_sectionId part)) all in
        let indexInSection :=
          findIndex (fun p => eqb (part_id (fp_part p)) (part_id (fp_part part)))
            sectionParts in
        (indexInSection + 1, Z.of_nat (length sectionParts))%Z
  end.

(** ** The selection (App.tsx: src/unnamed/part_002, lines 13-14, 113, 128-134
    and 158-159) *)

(** [selectedBookId] and [targetSectionId], with their initial values
    (lines 13-14). *)
Record Selection := mkSelection {
  selectedBookId : jsstring;
  targetSectionId : option jsstring
}.

Definition initialSelection : Selection := mkSelection [] None.

(** The two callbacks handed to the side bar (lines 158-159), as far as the
    selection goes.  The side bar calls the second with the identifier of the
    item whose section was clicked and the identifier of that section
    (components/Sidebar.tsx: src/unnamed/part_001, line 389). *)
Definition onSelectBook (id : jsstring) (_ : Selection) : Selection :=
  mkSelection id None.

Definition onSelectSection (bid sid : jsstring) (_ : Selection) : Selection :=
  mkSelection bid (Some sid).

(** [selectedBook] (line 113). *)
Definition selectedBook (library : list LibraryItem) (sel : Selection)
    : option LibraryItem :=
  findBook library (selectedBookId sel).

(** The layout effect of the reader with the properties the application
    hands it (lines 128-134): [book={selectedBook}] and
    [targetSectionId={targetSectionId}]. *)
Definition showSelection (library : list LibraryItem) (sel : Selection)
    (rs : ReaderState) : ReaderState * bool :=
  navigate (selectedBook library sel) (targetSectionId sel) rs.

(** * The cache ([ContentService], the functions above the parser) *)

(** [localStorage]: what [getItem] returns for each key, [None] for
    [null]. *)
Definition Storage := jsstring -> option jsstring.

Definition getItem (k : jsstring) (s : Storage) : option jsstring := s k.

Definition setItem (k v : jsstring) (s : Storage) : Storage :=
  fun k' => if eqb k' k then Some v else s k'.

Definition storageKey : jsstring := js "coptic_reader_library_v2".
Definition rawTextKey : jsstring := js "coptic_reader_raw_text".
Definition googleDocIdKey : jsstring := js "coptic_reader_google_doc_id".

(** The outcome of a function that writes: the storage it leaves, and
    whether it returned or was stopped by the exception of a write the
    browser refused. *)
Inductive Written :=
  | Returned (s : Storage)
  | QuotaExceeded (s : Storage).

Definition storage_of (w : Written) : Storage :=
  match w with
  | Returned s | QuotaExceeded s => s
  end.

Section Cache.

(** [JSON.stringify] on a library. *)
Variable stringify : list LibraryItem -> jsstring.

(** Whether the browser accepts to write a value under a key. *)
Variable fits : Storage -> jsstring -> jsstring -> bool.

(** [localStorage.setItem(k, v); rest] *)
Definition write (k v : jsstring) (s : Storage) (rest : Storage -> Written)
    : Written :=
  if fits s k v then rest (setItem k v s) else QuotaExceeded s.

(** [getRawText] and [getGoogleDocId]: [getItem(key) || ''] *)
Definition getRawText (s : Storage) : jsstring := opt_or (getItem rawTextKey s) [].

Definition getGoogleDocId (s : Storage) : jsstring :=
  opt_or (getItem googleDocIdKey s) [].

(** [saveLibrary(data, rawText?, googleDocId?)]: an argument left out is
    [None]. *)
Definition saveLibrary (data : list LibraryItem) (rawText googleDocId : option jsstring)
    (s : Storage) : Written :=
  write storageKey (stringify data) s (fun s =>
    let third s :=
      match googleDocId with
      | Some d => write googleDocIdKey d s Returned
      | None => Returned s
      end in
    match rawText with
    | Some t => write rawTextKey t s third
    | None => third s
    end).

(** The state of [App] that [handleSaveEditor] reads and writes. *)
Record EditorState := mkEditor {
  shownLibrary : list LibraryItem;
  isEditorOpen : bool;
  editorContent : jsstring;
  googleDocId : jsstring
}.

(** [handleSaveEditor] (src/unnamed/part_002, lines 91-100), with the parser
    of lines 552-642.  The boolean tells whether [alert] was called. *)
Definition handleSaveEditor (app : EditorState) (s : Storage)
    : EditorState * Storage * bool :=
  match Counted.parseTextToLibrary (editorContent app) with
  | Throw _ => (app, s, true)
  | Ok newLibrary =>
      match saveLibrary newLibrary (Some (editorContent app))
              (Some (googleDocId app)) s with
      | QuotaExceeded s' => (app, s', true)
      | Returned s' =>
          (mkEditor newLibrary false (editorContent app) (googleDocId app), s', false)
      end
  end.

End Cache.

(** * Definitions used in the statements and proofs *)

(** A blank string: white space only. *)
Definition blank (s : jsstring) : bool := forallb JsString.isWhite s.

(** ** Well-formed states

    Every reference held by a cursor or stored in an object names an object
    that has been allocated.  JavaScript guarantees as much; here it is an
    invariant of the parser. *)

Definition cat_ok (nb : nat) (co : CatObj) : Prop :=
  Forall (fun r => r < nb) (default [] (co_children co)).

Definition book_ok (ns : nat) (bo : BookObj) : Prop :=
  Forall (fun r => r < ns) (default [] (bo_sections bo)).

Definition sec_ok (np : nat) (so : SectionObj) : Prop :=
  Forall (fun r => r < np) (so_parts so).

Definition cursor_ok (n : nat) (o : option ref) : Prop :=
  forall r, o = Some r -> r < n.

Record valid (st : State) : Prop := mkValid {
  valid_library : Forall (fun r => r < length (cats st)) (library st);
  valid_cats : Forall (cat_ok (length (books st))) (cats st);
  valid_books : Forall (book_ok (length (secs st))) (books st);
  valid_secs : Forall (sec_ok (length (parts st))) (secs st);
  valid_currentCat : cursor_ok (length (cats st)) (currentCat st);
  valid_currentBook : cursor_ok (length (books st)) (currentBook st);
  valid_currentSection : cursor_ok (length (secs st)) (currentSection st);
  valid_currentPart : cursor_ok (length (parts st)) (currentPart st)
}.

(** ** The statements without their exceptions

    In a well-formed state no statement of the parser throws: each one is
    then a plain function of the state, written here with [alter] where the
    source reads an object, changes it and keeps it in place. *)

Definition add_section (s : ref) (bo : BookObj) : BookObj :=
  set_sections (default [] (bo_sections bo) ++ [s]) bo.

Definition add_child (b : ref) (co : CatObj) : CatObj :=
  set_children (default [] (co_children co) ++ [b]) co.

(** [content[l]] made an array if it was not one, then [trimmed] pushed when
    it is not empty. *)
Definition content_append (l : Language) (trimmed : jsstring) (c : Content) : Content :=
  let c1 := match content_get l c with
            | Some _ => c
            | None => content_set l [] c
            end in
  if truthy trimmed
  then content_set l (default [] (content_get l c1) ++ [trimmed]) c1
  else c1.

Definition add_line (l : Language) (trimmed : jsstring) (po : LiturgicalPart) :=
  set_content (content_append l trimmed (part_content po)) po.

Definition attach_section_pure (s : ref) (st : State) : State :=
  match currentBook st with
  | None => st
  | Some b => set_books (alter (add_section s) b (books st)) st
  end.

Definition attach_book_pure (b : ref) (st : State) : State :=
  match currentCat st with
  | None => st
  | Some c => set_cats (alter (add_child b) c (cats st)) st
  end.

Definition tagOrContent_pure (trimmed : jsstring) (st : State) : State :=
  match languageTag trimmed with
  | Some l => set_currentLang (Some l) st
  | None =>
      match currentLang st, currentPart st with
      | Some l, Some p => set_parts (alter (add_line l trimmed) p (parts st)) st
      | _, _ => st
      end
  end.

(** Pushing the part just allocated onto the current section, as each
    revision does after [currentPart = {...}]. *)
Definition push_part (po : LiturgicalPart) (st : State) : State :=
  let p := length (parts st) in
  let st1 := set_currentPart (Some p) (set_parts (parts st ++ [po]) st) in
  match currentSection st with
  | Some s => set_secs (alter (add_part p) s (secs st)) st1
  | None => st1
  end.

Module CountedPure.

Definition createNewPart_pure (st : State) : State :=
  let st := set_partCount (S (partCount st)) st in
  let sid := currentSection st ≫= fun s => so_id <$> secs st !! s in
  push_part (mkPart (js "part-" ++ opt_or sid (js "root") ++ js "-"
                       ++ decimal (partCount st)) prayer []) st.

(** [processLine] without its exceptions. *)
Definition step (st : State) (line : jsstring) : State :=
  let trimmed := trim line in
  if negb (truthy trimmed) && isNull (currentLang st) then st
  else if startsWith trimmed (js "###") then
    let title := trim (replace (js "###") [] trimmed) in
    let bt := currentBook st ≫= fun b => bo_title <$> books st !! b in
    let s := length (secs st) in
    let st := new_section (js "sec-" ++ slugify (opt_or bt []) ++ js "-" ++ slugify title)
                title st in
    set_currentLang None
      (createNewPart_pure (set_partCount 0 (attach_section_pure s st)))
  else if startsWith trimmed (js "##") then
    let title := trim (replace (js "##") [] trimmed) in
    let ct := currentCat st ≫= fun c => co_title <$> cats st !! c in
    let b := length (books st) in
    let st := new_book (js "book-" ++ slugify (opt_or ct []) ++ js "-" ++ slugify title)
                title st in
    set_currentPart None (set_currentSection None (attach_book_pure b st))
  else if startsWith trimmed (js "#") then
    let title := trim (replace (js "#") [] trimmed) in
    let st := new_category (js "cat-" ++ slugify title) title st in
    set_currentPart None (set_currentSection None (set_currentBook None st))
  else if eqb trimmed (js "---") then
    set_currentLang None (createNewPart_pure st)
  else tagOrContent_pure trimmed st.

(** [forEach processLine] without its exceptions. *)
Definition run (lines : list jsstring) (st : State) : State :=
  fold_left step lines st.

End CountedPure.

(** ** Lines and paragraphs *)

(** A line that is neither a heading, nor the delimiter, nor a language tag:
    the lines the last two branches of the parser receive. *)
Definition isContent (trimmed : jsstring) : bool :=
  negb (startsWith trimmed (js "#")) && negb (eqb trimmed (js "---"))
  && isNull (languageTag trimmed).

(** The paragraphs of a part in one language, none when the key is absent. *)
Definition paragraphs (l : Language) (po : LiturgicalPart) : list jsstring :=
  default [] (content_get l (part_content po)).

(** ** Every section of a library *)

Fixpoint sections_of_item (it : LibraryItem) : list LiturgySection :=
  match it with
  | mkItem _ _ _ ch ss =>
      default [] ss
      ++ match ch with
         | Some l => flat_map sections_of_item l
         | None => []
         end
  end.

Definition sections_of_library (lib : list LibraryItem) : list LiturgySection :=
  flat_map sections_of_item lib.

(** Every section object has a part. *)
Definition populated (st : State) : Prop :=
  Forall (fun so => so_parts so <> []) (secs st).

(** ** Objects no parent holds *)

(** No book lists the section [s]. *)
Definition section_unattached (s : ref) (st : State) : Prop :=
  Forall (fun bo => s ∉ default [] (bo_sections bo)) (books st).

(** No category lists the book [b]. *)
Definition book_unattached (b : ref) (st : State) : Prop :=
  Forall (fun co => b ∉ default [] (co_children co)) (cats st).

(** ** Section identifiers *)

(** The identifier the parser gives a section titled [title] made under a
    book titled [btitle]. *)
Definition section_id_of (btitle title : jsstring) : jsstring :=
  js "sec-" ++ slugify btitle ++ js "-" ++ slugify title.

(** The books of a library, category after category. *)
Definition books_of_library (lib : list LibraryItem) : list LibraryItem :=
  flat_map (fun c => default [] (item_children c)) lib.

(** Every section a book lists carries the identifier made from the title of
    that book and its own. *)
Definition section_ids_ok (st : State) : Prop :=
  forall b bo s so,
    books st !! b = Some bo -> s ∈ default [] (bo_sections bo) ->
    secs st !! s = Some so ->
    so_id so = section_id_of (bo_title bo) (so_title so).

(** ** The current part and its section *)

(** The current part is listed nowhere but at the end of the parts of the
    current section. *)
Definition owned (st : State) : Prop :=
  forall p s so i,
    currentPart st = Some p -> secs st !! s = Some so ->
    so_parts so !! i = Some p ->
    currentSection st = Some s /\ S i = length (so_parts so).

(** With a section current, its last part is the current part. *)
Definition attached (st : State) : Prop :=
  forall s, currentSection st = Some s ->
    exists so l p, secs st !! s = Some so /\ so_parts so = l ++ [p]
                   /\ currentPart st = Some p.

Record tidy (st : State) : Prop := mkTidy {
  tidy_valid : valid st;
  tidy_owned : owned st;
  tidy_attached : attached st
}.

(** Two states that read back alike and will go on doing so: the same
    library, categories, books and cursors on them; section for section the
    same value; and, while a section is current, the same language and part
    count.  The part objects themselves, and the references to them, may
    differ. *)
Record sim (st1 st2 : State) : Prop := mkSim {
  sim_library : library st1 = library st2;
  sim_cats : cats st1 = cats st2;
  sim_books : books st1 = books st2;
  sim_currentCat : currentCat st1 = currentCat st2;
  sim_currentBook : currentBook st1 = currentBook st2;
  sim_currentSection : currentSection st1 = currentSection st2;
  sim_secs_length : length (secs st1) = length (secs st2);
  sim_sections : forall s, reify_section st1 s = reify_section st2 s;
  sim_inside :
    is_Some (currentSection st1) ->
    currentLang st1 = currentLang st2 /\ partCount st1 = partCount st2
}.

(** [f] applied to the last element of a list. *)
Definition alter_last {A} (f : A -> A) (l : list A) : list A :=
  alter f (pred (length l)) l.

Definition sec_push (po : LiturgicalPart) (sec : LiturgySection) : LiturgySection :=
  mkSection (sec_id sec) (sec_title sec) (sec_parts sec ++ [po]).

Definition sec_alter_last (f : LiturgicalPart -> LiturgicalPart)
    (sec : LiturgySection) : LiturgySection :=
  mkSection (sec_id sec) (sec_title sec) (alter_last f (sec_parts sec)).

Module GuardedPure.

Definition startNewPart_pure (st : State) : State :=
  match currentSection st ≫= fun s => secs st !! s with
  | None => st
  | Some so =>
      push_part (mkPart (js "part-" ++ so_id so ++ js "-"
                           ++ decimal (length (so_parts so) + 1)) prayer []) st
  end.

(** [Guarded.processLine] without its exceptions. *)
Definition step (st : State) (line : jsstring) : State :=
  let trimmed := trim line in
  if startsWith trimmed (js "###") then
    let title := trim (replace (js "###") [] trimmed) in
    let bt := currentBook st ≫= fun b => bo_title <$> books st !! b in
    let s := length (secs st) in
    let st := new_section (js "sec-" ++ slugify (opt_or bt (js "cat")) ++ js "-"
                             ++ slugify title) title st in
    set_currentLang None (startNewPart_pure (attach_section_pure s st))
  else if startsWith trimmed (js "##") then
    let title := trim (replace (js "##") [] trimmed) in
    let ct := currentCat st ≫= fun c => co_title <$> cats st !! c in
    let b := length (books st) in
    let st := new_book (js "book-" ++ slugify (opt_or ct (js "root")) ++ js "-"
                          ++ slugify title) title st in
    set_currentPart None (set_currentSection None (attach_book_pure b st))
  else if startsWith trimmed (js "#") then
    let title := trim (replace (js "#") [] trimmed) in
    let st := new_category (js "cat-" ++ slugify title) title st in
    set_currentPart None (set_currentSection None (set_currentBook None st))
  else if eqb trimmed (js "---") then
    set_currentLang None (startNewPart_pure st)
  else tagOrContent_pure trimmed st.

Definition run (lines : list jsstring) (st : State) : State :=
  fold_left step lines st.

End GuardedPure.

(** Two states that differ in the current language at most, with no part
    current: no line can tell them apart before a heading or a delimiter
    resets the language. *)
Definition same_but_lang (st1 st2 : State) : Prop :=
  st1 = st2
  \/ (currentPart st1 = None /\ st2 = set_currentLang (currentLang st2) st1).

(** ** Two calls of the revision with random identifiers *)

(** The states of two calls on the same lines, one drawing from [r1] and
    the other from [r2]: the same number of draws so far, the same categories
    in the library, and category for category the same draw as identifier. *)
Record same_draws (r1 r2 : nat -> jsstring) (st1 st2 : State) : Prop := mkSameDraws {
  sd_draws : draws st1 = draws st2;
  sd_library : library st1 = library st2;
  sd_length : length (cats st1) = length (cats st2);
  sd_ids : forall c co1 co2,
      cats st1 !! c = Some co1 -> cats st2 !! c = Some co2 ->
      exists k, co_id co1 = r1 k /\ co_id co2 = r2 k
}.

(** ** Slugs *)

(** A character of a slug: a digit, a small letter of ASCII or the hyphen. *)
Definition isSlugChar (c : N) : bool :=
  ((48 <=? c) && (c <=? 57) || (97 <=? c) && (c <=? 122) || (c =? hyphen))%N.

Fixpoint no_hyphen_pair (s : jsstring) : bool :=
  match s with
  | [] => true
  | a :: r =>
      negb ((a =? hyphen)%N && startsWith r [hyphen]) && no_hyphen_pair r
  end.

(** A slug: words of digits and small letters of ASCII with one hyphen
    between two, or nothing at all. *)
Definition is_slug (s : jsstring) : bool :=
  forallb isSlugChar s && negb (startsWith s [hyphen])
  && negb (startsWith (rev s) [hyphen]) && no_hyphen_pair s.

(** A character whose lower case is a digit or a letter of ASCII, or holds
    one: the only characters of a title a slug keeps a trace of. *)
Definition isLatin (c : N) : bool :=
  ((48 <=? c) && (c <=? 57) || (65 <=? c) && (c <=? 90)
   || (97 <=? c) && (c <=? 122) || (c =? 304) || (c =? 8490))%N.

Definition notUpper (c : N) : Prop := ~ (65 <= c <= 90)%N.

(** No two hyphens in a row, said without recursion. *)
Definition pairless (s : jsstring) : Prop :=
  forall p q, s <> p ++ hyphen :: hyphen :: q.

(** ** The revision with random identifiers without its exceptions *)

Module RandomPure.

Section WithRandom.

Variable random : nat -> jsstring.

Definition createNewPart_pure (st : State) : State :=
  push_part (mkPart (random (draws st)) prayer []) (set_draws (S (draws st)) st).

(** [Random.processLine] without its exceptions. *)
Definition step (st : State) (line : jsstring) : State :=
  let trimmed := trim line in
  if negb (truthy trimmed) && isNull (currentLang st) then st
  else if startsWith trimmed (js "###") then
    let s := length (secs st) in
    let st := new_section (random (draws st)) (trim (replace (js "###") [] trimmed))
                (set_draws (S (draws st)) st) in
    set_currentLang None (createNewPart_pure (attach_section_pure s st))
  else if startsWith trimmed (js "##") then
    let b := length (books st) in
    let st := new_book (random (draws st)) (trim (replace (js "##") [] trimmed))
                (set_draws (S (draws st)) st) in
    set_currentPart None (set_currentSection None (attach_book_pure b st))
  else if startsWith trimmed (js "#") then
    let st := new_category (random (draws st)) (trim (replace (js "#") [] trimmed))
                (set_draws (S (draws st)) st) in
    set_currentPart None (set_currentSection None (set_currentBook None st))
  else if eqb trimmed (js "---") then
    set_currentLang None (createNewPart_pure st)
  else tagOrContent_pure trimmed st.

Definition run (lines : list jsstring) (st : State) : State :=
  fold_left step lines st.

End WithRandom.

End RandomPure.

(** ** Category headings *)

(** A line that opens a category: its trimmed text starts with one [#] and
    no more. *)
Definition isCategoryLine (line : jsstring) : bool :=
  startsWith (trim line) (js "#") && negb (startsWith (trim line) (js "##")).

(** The title the parser reads off a category heading. *)
Definition category_title (line : jsstring) : jsstring :=
  trim (replace (js "#") [] (trim line)).

(** The categories made so far are those of the category headings among the
    lines [ls], in their order, each listed once in the library and each
    with an array of children. *)
Definition cats_follow (ls : list jsstring) (st : State) : Prop :=
  library st = seq 0 (length (cats st))
  /\ (fun co => (co_id co, co_title co)) <$> cats st
     = (fun l => (js "cat-" ++ slugify (category_title l), category_title l))
         <$> List.filter isCategoryLine ls
  /\ Forall (fun co => co_children co <> None) (cats st).

(** ** A library without its identifiers *)

Definition anon_part (po : LiturgicalPart) : LiturgicalPart :=
  mkPart [] (part_type po) (part_content po).

Definition anon_section (sec : LiturgySection) : LiturgySection :=
  mkSection [] (sec_title sec) (anon_part <$> sec_parts sec).

Fixpoint anon_item (it : LibraryItem) : LibraryItem :=
  match it with
  | mkItem _ title ty ch ss =>
      mkItem [] title ty
        (match ch with
         | Some l => Some (map anon_item l)
         | None => None
         end)
        (match ss with
         | Some l => Some (anon_section <$> l)
         | None => None
         end)
  end.

(** The same for the objects of the store. *)
Definition anon_sectionObj (so : SectionObj) : SectionObj :=
  mkSectionObj [] (so_title so) (so_parts so).

Definition anon_bookObj (bo : BookObj) : BookObj :=
  mkBookObj [] (bo_title bo) (bo_sections bo).

Definition anon_catObj (co : CatObj) : CatObj :=
  mkCatObj [] (co_title co) (co_children co).

(** A state without its identifiers and without the two counters that only
    serve to make identifiers. *)
Definition anon (st : State) : State :=
  mkState (anon_catObj <$> cats st) (anon_bookObj <$> books st)
    (anon_sectionObj <$> secs st) (anon_part <$> parts st)
    (library st) (currentCat st) (currentBook st) (currentSection st)
    (currentPart st) (currentLang st) 0 0.

(** The parser with every identifier empty: what the three revisions have
    in common, but for a delimiter outside a section in one of them. *)
Module Shape.

Definition newPart (st : State) : State := push_part (mkPart [] prayer []) st.

Definition step (st : State) (line : jsstring) : State :=
  let trimmed := trim line in
  if negb (truthy trimmed) && isNull (currentLang st) then st
  else if startsWith trimmed (js "###") then
    set_currentLang None
      (newPart
         (attach_section_pure (length (secs st))
            (new_section [] (trim (replace (js "###") [] trimmed)) st)))
  else if startsWith trimmed (js "##") then
    set_currentPart None
      (set_currentSection None
         (attach_book_pure (length (books st))
            (new_book [] (trim (replace (js "##") [] trimmed)) st)))
  else if startsWith trimmed (js "#") then
    set_currentPart None
      (set_currentSection None
         (set_currentBook None
            (new_category [] (trim (replace (js "#") [] trimmed)) st)))
  else if eqb trimmed (js "---") then set_currentLang None (newPart st)
  else tagOrContent_pure trimmed st.

End Shape.

(** ** Paragraphs *)

(** A paragraph as the parser stores one: not empty, and with no white space
    at either end. *)
Definition para_ok (p : jsstring) : Prop := p <> [] /\ trim p = p.

(** A [content] object whose keys are all different and whose paragraphs
    are all well formed. *)
Definition content_ok (c : Content) : Prop :=
  NoDup c.*1 /\ Forall (fun kv => Forall para_ok kv.2) c.

(** ** Book and part identifiers *)

(** The identifier the parser gives a book titled [title] made under a
    category titled [ctitle]. *)
Definition book_id_of (ctitle title : jsstring) : jsstring :=
  js "book-" ++ slugify ctitle ++ js "-" ++ slugify title.

(** The identifier of the part number [n] of the section [sid]. *)
Definition part_id_of (sid : jsstring) (n : nat) : jsstring :=
  js "part-" ++ sid ++ js "-" ++ decimal n.

(** Every book a category lists carries the identifier made from the title
    of that category and its own. *)
Definition book_ids_ok (st : State) : Prop :=
  forall c co b bo,
    cats st !! c = Some co -> b ∈ default [] (co_children co) ->
    books st !! b = Some bo ->
    bo_id bo = book_id_of (co_title co) (bo_title bo).

(** Every part a section lists is numbered by its place in the section, from
    one; no section has an empty identifier; and the counter of parts is
    the number of parts of the current section. *)
Record part_ids_ok (st : State) : Prop := mkPartIds {
  part_ids_listed :
    forall s so i p po,
      secs st !! s = Some so -> so_parts so !! i = Some p ->
      parts st !! p = Some po -> part_id po = part_id_of (so_id so) (S i);
  part_ids_sections : Forall (fun so => so_id so <> []) (secs st);
  part_ids_count :
    forall s so,
      currentSection st = Some s -> secs st !! s = Some so ->
      partCount st = length (so_parts so)
}.

(** ** The lines of a part, language by language *)

Definition isCurrent (l : Language) (cur : option Language) : bool :=
  match cur with
  | Some c => Language_eqb c l
  | None => false
  end.

(** A line that is a language tag or content: neither a heading nor the
    delimiter. *)
Definition isBody (trimmed : jsstring) : bool :=
  negb (startsWith trimmed (js "#")) && negb (eqb trimmed (js "---")).

(** The paragraphs that the lines [ls] add to the language [l], when [cur]
    is the current language before the first of them: a tag changes the
    current language, any other line that is not blank is a paragraph of the
    current language, if there is one. *)
Fixpoint collect (l : Language) (cur : option Language) (ls : list jsstring)
    : list jsstring :=
  match ls with
  | [] => []
  | line :: rest =>
      match languageTag (trim line) with
      | Some l' => collect l (Some l') rest
      | None =>
          (if isCurrent l cur && truthy (trim line) then [trim line] else [])
          ++ collect l cur rest
      end
  end.

(** ** Items and their children *)

(** An item and everything below it, parents before children and children
    in their order. *)
Fixpoint items_of (item : LibraryItem) : list LibraryItem :=
  match item with
  | mkItem _ _ _ ch _ =>
      item :: match ch with
              | Some children => flat_map items_of children
              | None => []
              end
  end.

(** Induction on an item, with the property known of its children. *)
Section ItemInduction.

Variable P : LibraryItem -> Prop.

Hypothesis item_step :
  forall id title ty ch ss,
    Forall P (default [] ch) -> P (mkItem id title ty ch ss).

Fixpoint LibraryItem_nested_ind (item : LibraryItem) : P item :=
  match item with
  | mkItem id title ty ch ss =>
      item_step id title ty ch ss
        (match ch return Forall P (default [] ch) with
         | Some children =>
             (fix go (l : list LibraryItem) : Forall P l :=
                match l with
                | [] => @List.Forall_nil _ P
                | x :: r => @List.Forall_cons _ P x r (LibraryItem_nested_ind x) (go r)
                end) children
         | None => @List.Forall_nil _ P
         end)
  end.

End ItemInduction.

(** What the settings satisfy at every moment. *)
Definition settings_ok (s : AppSettings) : Prop :=
  (12 <= fontSize s <= 72)%Z /\ Z.even (fontSize s) = true
  /\ languages s <> [] /\ NoDup (languages s).

(** A book of two sections, used as an example for the counter of parts. *)
Definition example_part (id text : string) : LiturgicalPart :=
  mkPart (js id) prayer [(ENGLISH, [js text])].

Definition example_first : LiturgySection :=
  mkSection (js "sec-b-s") (js "S")
    [example_part "part-sec-b-s-1" "A"; example_part "part-sec-b-s-2" "B"].

Definition example_second : LiturgySection :=
  mkSection (js "sec-b-t") (js "T") [example_part "part-sec-b-t-1" "C"].

Definition example_book : LibraryItem :=
  mkItem (js "book-c-b") (js "B") book None (Some [example_first; example_second]).

(** ** Where the parser stands, and what it keeps *)

(** The category under the cursor is the last of the library, and the book
    under the cursor is the last book that category lists. *)
Definition cursors_last (st : State) : Prop :=
  currentCat st = last (library st)
  /\ forall c co, currentCat st = Some c -> cats st !! c = Some co ->
       currentBook st = last (default [] (co_children co)).

(** The library lists the category [c] at [i], which lists the book [b] at
    [j], which lists the section [s] at [k]; that section has the identifier
    [sid], the title [title] and the part [p] as its first, and [p] is the
    object [po]. *)
Definition kept (i j k : nat) (c b s p : ref) (sid title : jsstring)
    (po : LiturgicalPart) (st : State) : Prop :=
  library st !! i = Some c
  /\ (exists co, cats st !! c = Some co /\ default [] (co_children co) !! j = Some b)
  /\ (exists bo, books st !! b = Some bo /\ default [] (bo_sections bo) !! k = Some s)
  /\ (exists so, secs st !! s = Some so /\ so_id so = sid /\ so_title so = title
                 /\ head (so_parts so) = Some p)
  /\ parts st !! p = Some po.

(** * Properties *)

#[global] Arguments js : simpl never.
#[global] Arguments slugify : simpl never.
#[global] Arguments trim : simpl never.
#[global] Arguments decimal : simpl never.

(** Projections of updated states, and nothing else, are computed. *)
Ltac simpl_state :=
  cbn [cats books secs parts library currentCat currentBook currentSection
       currentPart currentLang partCount draws
       set_cats set_books set_secs set_parts set_library set_currentCat
       set_currentBook set_currentSection set_currentPart set_currentLang
       set_partCount set_draws new_section new_book new_category] in *.

Example slugify_ex1 : slugify (js "  The First_Hour! ") = js "the-first-hour".
Proof. vm_compute. reflexivity. Qed.

Example slugify_ex2 : slugify (js "--Opening   Prayer--") = js "opening-prayer".
Proof. vm_compute. reflexivity. Qed.

Example slugify_ex3 : slugify [8490%N; 304%N; 1576%N] = js "ki".
Proof. vm_compute. reflexivity. Qed.

Example split_ex1 : split_nl (js "") = [[]].
Proof. reflexivity. Qed.

Example split_ex2 : split_nl (js "a

b") = [js "a"; js ""; js "b"].
Proof. reflexivity. Qed.

Example trim_ex1 : trim ([160; 9] ++ js " x y " ++ [13; 65279])%N = js "x y".
Proof. reflexivity. Qed.

Example replace_ex1 : replace (js "###") [] (js "### a ### b") = js " a ### b".
Proof. reflexivity. Qed.


(** ** Strings *)

Section StringFacts.

Local Open Scope N_scope.

Lemma eqb_eq (a b : jsstring) : eqb a b = true <-> a = b.
Proof.
  revert b; induction a as [|x a IH]; intros [|y b]; simpl; try (split; congruence).
  rewrite andb_true_iff, N.eqb_eq, IH. split; [intros [-> ->]|inversion 1]; auto.
Qed.

Lemma eqb_refl (a : jsstring) : eqb a a = true.
Proof. by apply eqb_eq. Qed.

Lemma trimStart_blank s : blank s = true -> trimStart s = [].
Proof.
  induction s as [|c s IH]; simpl; [done|].
  rewrite andb_true_iff. intros [-> H]. auto.
Qed.

Lemma trimStart_nil s : trimStart s = [] -> blank s = true.
Proof.
  induction s as [|c s IH]; simpl; [done|].
  destruct (isWhite c); simpl; [auto|discriminate].
Qed.

Lemma blank_rev s : blank (rev s) = blank s.
Proof.
  unfold blank. induction s as [|c s IH]; simpl; [done|].
  rewrite forallb_app, IH. simpl. rewrite andb_true_r. apply andb_comm.
Qed.

Lemma trimStart_head s c r : trimStart s = c :: r -> isWhite c = false.
Proof.
  induction s as [|d s IH]; simpl; [done|].
  destruct (isWhite d) eqn:E; [auto|]. intros [= -> _]. done.
Qed.

Lemma trim_nil_iff s : trim s = [] <-> blank s = true.
Proof.
  unfold trim, trimEnd. split.
  - intros H. apply (f_equal (@rev N)) in H. rewrite rev_involutive in H. simpl in H.
    apply trimStart_nil in H. rewrite blank_rev in H.
    destruct (trimStart s) as [|c r] eqn:E; [by apply trimStart_nil|].
    apply trimStart_head in E. simpl in H. rewrite E in H. done.
  - intros H. by rewrite (trimStart_blank _ H).
Qed.

Lemma truthy_trim s : truthy (trim s) = negb (blank s).
Proof.
  destruct (blank s) eqn:E.
  - apply trim_nil_iff in E. by rewrite E.
  - destruct (trim s) eqn:T; [|done].
    apply trim_nil_iff in T. congruence.
Qed.

Lemma split_nl_line l : 10 ∉ l -> split_nl l = [l].
Proof.
  induction l as [|c l IH]; simpl; [done|].
  intros H. apply not_elem_of_cons in H as [Hc Hl].
  destruct (N.eqb_spec c 10); [congruence|]. by rewrite IH.
Qed.

Lemma split_nl_app l s : 10 ∉ l -> split_nl (l ++ 10 :: s) = l :: split_nl s.
Proof.
  induction l as [|c l IH]; simpl; [done|].
  intros H. apply not_elem_of_cons in H as [Hc Hl].
  destruct (N.eqb_spec c 10); [congruence|]. by rewrite IH.
Qed.

Lemma split_join ls :
  ls <> [] -> Forall (fun l => 10 ∉ l) ls -> split_nl (join_nl ls) = ls.
Proof.
  induction ls as [|l ls IH]; [done|]. intros _ H.
  inversion H as [|? ? Hl Hls]; subst.
  destruct ls as [|l' ls]; simpl.
  - by apply split_nl_line.
  - rewrite split_nl_app by done. f_equal. by apply IH.
Qed.

Lemma split_nl_not_nil s : split_nl s <> [].
Proof.
  destruct s as [|c s]; simpl; [done|].
  destruct (c =? 10); [done|]. by destruct (split_nl s).
Qed.

Lemma split_nl_no_lf s : Forall (fun l => 10 ∉ l) (split_nl s).
Proof.
  induction s as [|c s IH]; simpl.
  - repeat constructor. apply not_elem_of_nil.
  - pose proof (split_nl_not_nil s) as Hne.
    destruct (N.eqb_spec c 10) as [->|Hc].
    + constructor; [apply not_elem_of_nil|done].
    + destruct (split_nl s) as [|l ls]; [done|].
      inversion IH; subst.
      constructor; [|done]. apply not_elem_of_cons. split; [congruence|done].
Qed.

(** A text is its lines with a line feed between two. *)
Lemma join_split s : join_nl (split_nl s) = s.
Proof.
  induction s as [|c s IH]; simpl; [done|].
  pose proof (split_nl_not_nil s) as Hne.
  destruct (N.eqb_spec c 10) as [->|Hc].
  - destruct (split_nl s) as [|l ls]; [done|]. by rewrite <- IH.
  - destruct (split_nl s) as [|l ls]; [done|]. rewrite <- IH.
    by destruct ls.
Qed.

(** With the pattern at the start of the string, [replace] removes that
    occurrence and no other. *)
Lemma replace_prefix p s : startsWith s p = true -> replace p [] s = drop (length p) s.
Proof. intros H. destruct s; simpl; by rewrite H. Qed.

End StringFacts.

Lemma valid_init : valid init.
Proof. constructor; simpl; try constructor; intros r; discriminate. Qed.

Lemma Forall_lt_mono (n m : nat) (l : list ref) :
  n <= m -> Forall (fun r => r < n) l -> Forall (fun r => r < m) l.
Proof. intros H HF. eapply Forall_impl; [exact HF|]. simpl; intros; lia. Qed.

Lemma cats_ok_mono n m (l : list CatObj) :
  n <= m -> Forall (cat_ok n) l -> Forall (cat_ok m) l.
Proof. intros H HF. eapply Forall_impl; [exact HF|]. intros co. by apply Forall_lt_mono. Qed.

Lemma books_ok_mono n m (l : list BookObj) :
  n <= m -> Forall (book_ok n) l -> Forall (book_ok m) l.
Proof. intros H HF. eapply Forall_impl; [exact HF|]. intros bo. by apply Forall_lt_mono. Qed.

Lemma secs_ok_mono n m (l : list SectionObj) :
  n <= m -> Forall (sec_ok n) l -> Forall (sec_ok m) l.
Proof. intros H HF. eapply Forall_impl; [exact HF|]. intros so. by apply Forall_lt_mono. Qed.

Lemma cursor_ok_None n : cursor_ok n None.
Proof. intros r; discriminate. Qed.

Lemma cursor_ok_Some n r : r < n -> cursor_ok n (Some r).
Proof. intros H r' [= <-]. done. Qed.

#[local] Hint Resolve cursor_ok_None cursor_ok_Some : core.

Lemma insert_alter {A} (f : A -> A) (l : list A) i x :
  l !! i = Some x -> <[i := f x]> l = alter f i l.
Proof.
  revert i; induction l as [|y l IH]; intros [|i]; simpl; try done.
  - by intros [= ->].
  - intros H. f_equal. by apply IH.
Qed.

Lemma deref_lookup {A} (store : list A) r x : store !! r = Some x -> deref store r = Ok x.
Proof. unfold deref. by intros ->. Qed.

Lemma push_ensure {A} (xs : option (list A)) x :
  push (ensure_array xs) x = Ok (default [] xs ++ [x]).
Proof. by destruct xs. Qed.

Lemma content_get_set l v c : content_get l (content_set l v c) = Some v.
Proof.
  induction c as [|[k w] c IH]; simpl.
  - by destruct l.
  - destruct (Language_eqb k l) eqn:E; simpl; by rewrite E.
Qed.

Lemma attach_section_run s st :
  cursor_ok (length (books st)) (currentBook st) ->
  attach_section s st = Ok (attach_section_pure s st).
Proof.
  unfold attach_section, attach_section_pure. intros H.
  destruct (currentBook st) as [b|]; [|done].
  destruct (lookup_lt_is_Some_2 (books st) b) as [bo Hbo]; [by apply H|].
  rewrite (deref_lookup _ _ _ Hbo). simpl. rewrite push_ensure. simpl.
  by rewrite <- (insert_alter (add_section s) _ _ _ Hbo).
Qed.

Lemma attach_book_run b st :
  cursor_ok (length (cats st)) (currentCat st) ->
  attach_book b st = Ok (attach_book_pure b st).
Proof.
  unfold attach_book, attach_book_pure. intros H.
  destruct (currentCat st) as [c|]; [|done].
  destruct (lookup_lt_is_Some_2 (cats st) c) as [co Hco]; [by apply H|].
  rewrite (deref_lookup _ _ _ Hco). simpl. rewrite push_ensure. simpl.
  by rewrite <- (insert_alter (add_child b) _ _ _ Hco).
Qed.

Lemma appendLine_run l p trimmed st :
  p < length (parts st) ->
  appendLine l p trimmed st
  = Ok (set_parts (alter (add_line l trimmed) p (parts st)) st).
Proof.
  unfold appendLine. intros H.
  destruct (lookup_lt_is_Some_2 (parts st) p H) as [po Hpo].
  rewrite (deref_lookup _ _ _ Hpo). simpl.
  rewrite <- (insert_alter (add_line l trimmed) _ _ _ Hpo).
  unfold add_line, content_append.
  destruct (truthy trimmed); [|done].
  destruct (content_get l (part_content po)) eqn:E; simpl.
  - by rewrite E.
  - by rewrite content_get_set.
Qed.

Lemma tagOrContent_run trimmed st :
  cursor_ok (length (parts st)) (currentPart st) ->
  tagOrContent trimmed st = Ok (tagOrContent_pure trimmed st).
Proof.
  unfold tagOrContent, tagOrContent_pure. intros H.
  destruct (languageTag trimmed); [done|].
  destruct (currentLang st); [|done].
  destruct (currentPart st) as [p|]; [|done].
  apply appendLine_run. by apply H.
Qed.

Lemma currentBook_title_run st :
  cursor_ok (length (books st)) (currentBook st) ->
  currentBook_title st
  = Ok (currentBook st ≫= fun b => bo_title <$> books st !! b).
Proof.
  unfold currentBook_title. intros H.
  destruct (currentBook st) as [b|]; [|done].
  destruct (lookup_lt_is_Some_2 (books st) b) as [bo Hbo]; [by apply H|].
  rewrite (deref_lookup _ _ _ Hbo). simpl. by rewrite Hbo.
Qed.

Lemma currentCat_title_run st :
  cursor_ok (length (cats st)) (currentCat st) ->
  currentCat_title st
  = Ok (currentCat st ≫= fun c => co_title <$> cats st !! c).
Proof.
  unfold currentCat_title. intros H.
  destruct (currentCat st) as [c|]; [|done].
  destruct (lookup_lt_is_Some_2 (cats st) c) as [co Hco]; [by apply H|].
  rewrite (deref_lookup _ _ _ Hco). simpl. by rewrite Hco.
Qed.

Lemma currentSection_id_run st :
  cursor_ok (length (secs st)) (currentSection st) ->
  currentSection_id st
  = Ok (currentSection st ≫= fun s => so_id <$> secs st !! s).
Proof.
  unfold currentSection_id. intros H.
  destruct (currentSection st) as [s|]; [|done].
  destruct (lookup_lt_is_Some_2 (secs st) s) as [so Hso]; [by apply H|].
  rewrite (deref_lookup _ _ _ Hso). simpl. by rewrite Hso.
Qed.

(** Allocation and the cursor assignments keep a state well formed. *)

Lemma valid_new_section id title st : valid st -> valid (new_section id title st).
Proof.
  intros [HL HC HB HS Hc Hb Hs Hp]. constructor; simpl; auto.
  - eapply books_ok_mono; [|exact HB]. rewrite length_app. lia.
  - apply Forall_app. split; [done|]. repeat constructor.
  - apply cursor_ok_Some. rewrite length_app. simpl. lia.
Qed.

Lemma valid_new_book id title st : valid st -> valid (new_book id title st).
Proof.
  intros [HL HC HB HS Hc Hb Hs Hp]. constructor; simpl; auto.
  - eapply cats_ok_mono; [|exact HC]. rewrite length_app. lia.
  - apply Forall_app. split; [done|]. repeat constructor.
  - apply cursor_ok_Some. rewrite length_app. simpl. lia.
Qed.

Lemma valid_new_category id title st : valid st -> valid (new_category id title st).
Proof.
  intros [HL HC HB HS Hc Hb Hs Hp]. constructor; simpl; auto.
  - apply Forall_app. split.
    + eapply Forall_lt_mono; [|exact HL]. rewrite length_app. lia.
    + repeat constructor. rewrite length_app. simpl. lia.
  - apply Forall_app. split; [done|]. repeat constructor.
  - apply cursor_ok_Some. rewrite length_app. simpl. lia.
Qed.

Lemma valid_attach_section s st :
  valid st -> s < length (secs st) -> valid (attach_section_pure s st).
Proof.
  intros H Hlt. unfold attach_section_pure.
  destruct (currentBook st) as [b|] eqn:E; [|done].
  destruct H as [HL HC HB HS Hc Hb Hs Hp].
  constructor; simpl; rewrite ?length_alter; auto.
  apply Forall_alter; [done|]. intros bo _ Hbo.
  unfold book_ok, add_section in *. simpl. apply Forall_app. split; [done|].
  by repeat constructor.
Qed.

Lemma valid_attach_book b st :
  valid st -> b < length (books st) -> valid (attach_book_pure b st).
Proof.
  intros H Hlt. unfold attach_book_pure.
  destruct (currentCat st) as [c|] eqn:E; [|done].
  destruct H as [HL HC HB HS Hc Hb Hs Hp].
  constructor; simpl; rewrite ?length_alter; auto.
  apply Forall_alter; [done|]. intros co _ Hco.
  unfold cat_ok, add_child in *. simpl. apply Forall_app. split; [done|].
  by repeat constructor.
Qed.

Lemma valid_set_currentLang l st : valid st -> valid (set_currentLang l st).
Proof. by intros []. Qed.

Lemma valid_tagOrContent trimmed st : valid st -> valid (tagOrContent_pure trimmed st).
Proof.
  intros H. unfold tagOrContent_pure.
  destruct (languageTag trimmed); [by apply valid_set_currentLang|].
  destruct (currentLang st); [|done].
  destruct (currentPart st) as [p|] eqn:E; [|done].
  destruct H as [HL HC HB HS Hc Hb Hs Hp].
  constructor; simpl; rewrite ?length_alter; auto.
Qed.

Lemma valid_set_partCount n st : valid st -> valid (set_partCount n st).
Proof. by intros []. Qed.

Lemma valid_leave_section st :
  valid st -> valid (set_currentPart None (set_currentSection None st)).
Proof. intros []. constructor; simpl; auto. Qed.

Lemma valid_leave_book st :
  valid st ->
  valid (set_currentPart None (set_currentSection None (set_currentBook None st))).
Proof. intros []. constructor; simpl; auto. Qed.

Lemma valid_push_part po st : valid st -> valid (push_part po st).
Proof.
  intros [HL HC HB HS Hc Hb Hs Hp]. unfold push_part.
  assert (Hlen : length (parts st) < length (parts st ++ [po]))
    by (rewrite length_app; simpl; lia).
  assert (HS' : Forall (sec_ok (length (parts st ++ [po]))) (secs st))
    by (eapply secs_ok_mono; [|exact HS]; lia).
  destruct (currentSection st) as [s|] eqn:E.
  - constructor; simpl; rewrite ?length_alter, ?E; auto.
    apply Forall_alter; [done|]. intros so _ Hso.
    unfold sec_ok, add_part in *. simpl. apply Forall_app. split; [done|].
    by repeat constructor.
  - constructor; simpl; rewrite ?E; auto.
Qed.

Module CountedFacts.

Import Counted CountedPure.

Lemma createNewPart_run st :
  cursor_ok (length (secs st)) (currentSection st) ->
  createNewPart st = Ok (createNewPart_pure st).
Proof.
  intros H. unfold createNewPart, createNewPart_pure, push_part.
  rewrite currentSection_id_run by done. simpl.
  destruct (currentSection st) as [s|]; [|done].
  destruct (lookup_lt_is_Some_2 (secs st) s) as [so Hso]; [by apply H|].
  rewrite (deref_lookup _ _ _ Hso). simpl.
  by rewrite <- (insert_alter (add_part (length (parts st))) _ _ _ Hso).
Qed.

Lemma valid_createNewPart st : valid st -> valid (createNewPart_pure st).
Proof. intros H. apply valid_push_part. by apply valid_set_partCount. Qed.

Lemma createNewPart_pure_fields st :
  cats (createNewPart_pure st) = cats st
  /\ books (createNewPart_pure st) = books st
  /\ library (createNewPart_pure st) = library st
  /\ currentCat (createNewPart_pure st) = currentCat st
  /\ currentBook (createNewPart_pure st) = currentBook st
  /\ currentSection (createNewPart_pure st) = currentSection st
  /\ currentPart (createNewPart_pure st) = Some (length (parts st))
  /\ currentLang (createNewPart_pure st) = currentLang st
  /\ partCount (createNewPart_pure st) = S (partCount st)
  /\ (exists po, parts (createNewPart_pure st) = parts st ++ [po]
                 /\ part_content po = [] /\ part_type po = prayer)
  /\ secs (createNewPart_pure st)
     = match currentSection st with
       | Some s => alter (add_part (length (parts st))) s (secs st)
       | None => secs st
       end.
Proof.
  unfold createNewPart_pure, push_part. simpl_state.
  destruct (currentSection st) eqn:E; simpl_state; rewrite ?E;
    repeat split; by eexists.
Qed.

Lemma step_valid st line : valid st -> valid (step st line).
Proof.
  intros H. unfold step.
  repeat match goal with |- context [if ?c then _ else _] => destruct c end;
    auto using valid_tagOrContent.
  - apply valid_set_currentLang, valid_createNewPart, valid_set_partCount,
      valid_attach_section; [by apply valid_new_section|].
    simpl. rewrite length_app. simpl. lia.
  - apply valid_leave_section, valid_attach_book; [by apply valid_new_book|].
    simpl. rewrite length_app. simpl. lia.
  - by apply valid_leave_book, valid_new_category.
  - by apply valid_set_currentLang, valid_createNewPart.
Qed.

Lemma processLine_step st line : valid st -> processLine st line = Ok (step st line).
Proof.
  intros H. unfold processLine, step.
  repeat match goal with |- context [if ?c then _ else _] => destruct c end;
    try done.
  - rewrite currentBook_title_run by apply H. simpl.
    rewrite attach_section_run by apply (valid_new_section _ _ _ H). simpl.
    rewrite createNewPart_run; [done|].
    apply (valid_set_partCount 0), valid_attach_section; [by apply valid_new_section|].
    simpl. rewrite length_app. simpl. lia.
  - rewrite currentCat_title_run by apply H. simpl.
    by rewrite attach_book_run by apply (valid_new_book _ _ _ H).
  - by rewrite createNewPart_run by apply H.
  - apply tagOrContent_run, H.
Qed.

Lemma run_valid lines st : valid st -> valid (run lines st).
Proof.
  revert st; induction lines as [|l ls IH]; intros st H; simpl; [done|].
  by apply IH, step_valid.
Qed.

Lemma forEach_run lines st :
  valid st -> forEach processLine lines st = Ok (run lines st).
Proof.
  revert st; induction lines as [|l ls IH]; intros st H; simpl; [done|].
  rewrite processLine_step by done. simpl. by apply IH, step_valid.
Qed.

End CountedFacts.

(** ** Reading a well-formed store back never fails *)

Lemma reify_section_is_Some st s :
  Forall (sec_ok (length (parts st))) (secs st) ->
  s < length (secs st) -> is_Some (reify_section st s).
Proof.
  intros HS Hs. unfold reify_section.
  destruct (lookup_lt_is_Some_2 _ _ Hs) as [so Hso]. rewrite Hso. simpl.
  assert (Hps : is_Some (mapM (fun p => parts st !! p) (so_parts so))).
  { apply mapM_is_Some. rewrite Forall_lookup in HS. specialize (HS _ _ Hso).
    eapply Forall_impl; [exact HS|]. intros p Hp. by apply lookup_lt_is_Some_2. }
  destruct Hps as [ps ->]. by eexists.
Qed.

Lemma reify_book_is_Some st b :
  valid st -> b < length (books st) -> is_Some (reify_book st b).
Proof.
  intros H Hb. unfold reify_book.
  destruct (lookup_lt_is_Some_2 _ _ Hb) as [bo Hbo]. rewrite Hbo. simpl.
  destruct (bo_sections bo) as [l|] eqn:E; simpl; [|by eexists].
  assert (Hss : is_Some (mapM (reify_section st) l)).
  { apply mapM_is_Some. pose proof (valid_books _ H) as HB.
    rewrite Forall_lookup in HB. specialize (HB _ _ Hbo).
    unfold book_ok in HB. rewrite E in HB. simpl in HB.
    eapply Forall_impl; [exact HB|]. intros s Hs.
    by apply reify_section_is_Some; [apply H|]. }
  destruct Hss as [ss ->]. by eexists.
Qed.

Lemma reify_cat_is_Some st c :
  valid st -> c < length (cats st) -> is_Some (reify_cat st c).
Proof.
  intros H Hc. unfold reify_cat.
  destruct (lookup_lt_is_Some_2 _ _ Hc) as [co Hco]. rewrite Hco. simpl.
  destruct (co_children co) as [l|] eqn:E; simpl; [|by eexists].
  assert (Hbs : is_Some (mapM (reify_book st) l)).
  { apply mapM_is_Some. pose proof (valid_cats _ H) as HC.
    rewrite Forall_lookup in HC. specialize (HC _ _ Hco).
    unfold cat_ok in HC. rewrite E in HC. simpl in HC.
    eapply Forall_impl; [exact HC|]. intros b Hb.
    by apply reify_book_is_Some. }
  destruct Hbs as [bs ->]. by eexists.
Qed.

Lemma reify_library_ok st : valid st -> exists lib, reify_library st = Ok lib.
Proof.
  intros H. unfold reify_library.
  assert (Hl : is_Some (mapM (reify_cat st) (library st))).
  { apply mapM_is_Some. eapply Forall_impl; [exact (valid_library _ H)|].
    intros c Hc. by apply reify_cat_is_Some. }
  destruct Hl as [lib ->]. by eexists.
Qed.

(** ** The parser returns for every text *)

(** C2.  [parseTextToLibrary] is total: whatever the text, every line is
    processed without an exception and a library is returned. *)
Theorem parseTextToLibrary_total (text : jsstring) :
  exists lib, Counted.parseTextToLibrary text = Ok lib.
Proof.
  unfold Counted.parseTextToLibrary.
  destruct (negb (truthy (trim text))); [by eexists|].
  rewrite CountedFacts.forEach_run by apply valid_init. simpl.
  apply reify_library_ok, CountedFacts.run_valid, valid_init.
Qed.

(** ** The minimal tree *)

(** C4.  The text of one category, one book, one section and two lines of
    English yields exactly that tree: one Category "Cat", in it one Book
    "Book", in it one Section "Sec", in it one Part whose English paragraphs
    are "Hello" and "World". *)
Theorem parse_minimal_tree :
  Counted.parseTextToLibrary (js "# Cat
## Book
### Sec
[EN]
Hello
World")
  = Ok [mkItem (js "cat-cat") (js "Cat") category
          (Some [mkItem (js "book-cat-book") (js "Book") book None
                   (Some [mkSection (js "sec-book-sec") (js "Sec")
                            [mkPart (js "part-sec-book-sec-1") prayer
                               [(ENGLISH, [js "Hello"; js "World"])]]])])
          None].
Proof. vm_compute. reflexivity. Qed.

(** ** One line at a time *)


Lemma startsWith_truthy s p : p <> [] -> startsWith s p = true -> truthy s = true.
Proof. destruct p; [done|]. destruct s; simpl; done. Qed.

Lemma startsWith_longer s p q : startsWith s p = false -> startsWith s (p ++ q) = false.
Proof.
  revert s; induction p as [|x p IH]; intros s; simpl; [done|].
  destruct s as [|y s]; [done|].
  destruct (N.eqb x y); simpl; [apply IH|done].
Qed.

Lemma isContent_inv t :
  isContent t = true ->
  startsWith t (js "###") = false /\ startsWith t (js "##") = false
  /\ startsWith t (js "#") = false /\ eqb t (js "---") = false
  /\ languageTag t = None.
Proof.
  unfold isContent. rewrite !andb_true_iff, !negb_true_iff.
  intros [[H1 H2] H3].
  repeat split; try done.
  - apply (startsWith_longer t (js "#") (js "##") H1).
  - apply (startsWith_longer t (js "#") (js "#") H1).
  - by destruct (languageTag t).
Qed.

Module CountedLines.

Import Counted CountedPure CountedFacts.

(** A line whose trimmed text starts with three number signs. *)
Lemma step_section st line :
  startsWith (trim line) (js "###") = true ->
  step st line
  = let title := trim (drop 3 (trim line)) in
    let bt := currentBook st ≫= fun b => bo_title <$> books st !! b in
    set_currentLang None
      (createNewPart_pure
         (set_partCount 0
            (attach_section_pure (length (secs st))
               (new_section
                  (js "sec-" ++ slugify (opt_or bt []) ++ js "-" ++ slugify title)
                  title st)))).
Proof.
  intros H. unfold step.
  assert (Ht : truthy (trim line) = true) by (by apply (startsWith_truthy _ (js "###"))).
  rewrite Ht, H. simpl. by rewrite replace_prefix by done.
Qed.

(** The delimiter. *)
Lemma step_delimiter st line :
  trim line = js "---" -> step st line = set_currentLang None (createNewPart_pure st).
Proof. intros H. unfold step. rewrite H. reflexivity. Qed.

(** A content line with a language and a part current. *)
Lemma step_content st line l p :
  isContent (trim line) = true ->
  currentLang st = Some l -> currentPart st = Some p ->
  step st line = set_parts (alter (add_line l (trim line)) p (parts st)) st.
Proof.
  intros H Hl Hp. apply isContent_inv in H as (H3 & H2 & H1 & Hd & Ht).
  unfold step, tagOrContent_pure.
  rewrite Hl. simpl isNull. by rewrite andb_false_r, H3, H2, H1, Hd, Ht, Hp.
Qed.

(** What a Section heading does to a well-formed state. *)
Lemma section_heading_effect st line :
  valid st -> startsWith (trim line) (js "###") = true ->
  exists st' id pid,
    processLine st line = Ok st'
    /\ currentSection st' = Some (length (secs st))
    /\ currentPart st' = Some (length (parts st))
    /\ currentLang st' = None
    /\ secs st' !! length (secs st)
       = Some (mkSectionObj id (trim (drop 3 (trim line))) [length (parts st)])
    /\ parts st' !! length (parts st) = Some (mkPart pid prayer [])
    /\ length (secs st') = S (length (secs st))
    /\ length (books st') = length (books st)
    /\ length (cats st') = length (cats st)
    /\ library st' = library st.
Proof.
  intros Hv H. rewrite processLine_step by done. rewrite step_section by done.
  cbv zeta.
  unfold createNewPart_pure, push_part, attach_section_pure. simpl_state.
  destruct (currentBook st) as [b|]; simpl_state;
    do 3 eexists; (split; [reflexivity|]); simpl_state;
    rewrite ?length_alter, ?length_app, ?list_lookup_alter_eq, ?list_lookup_middle by done;
    repeat split; try reflexivity; cbn [length]; lia.
Qed.

End CountedLines.

(** ** Headings are recognised by prefix *)

(** C10.  A line whose trimmed text starts with three number signs is a
    Section heading, however many number signs follow and whatever white
    space precedes them: a section is made (no book, no category), and its
    title is what follows the first three number signs, trimmed.  So the line
    "#### Deep" makes a Section titled "# Deep", in the revision with slug
    identifiers and in the one with random identifiers alike. *)
Theorem section_heading_by_prefix (st : State) (line : jsstring)
    (Hv : valid st) (H : startsWith (trim line) (js "###") = true) :
  (exists st' id,
     Counted.processLine st line = Ok st'
     /\ currentSection st' = Some (length (secs st))
     /\ secs st' !! length (secs st)
        = Some (mkSectionObj id (trim (drop 3 (trim line))) [length (parts st)])
     /\ length (books st') = length (books st)
     /\ length (cats st') = length (cats st))
  /\ Counted.parseTextToLibrary (js "# C
## B
  #### Deep")
     = Ok [mkItem (js "cat-c") (js "C") category
             (Some [mkItem (js "book-c-b") (js "B") book None
                      (Some [mkSection (js "sec-b-deep") (js "# Deep")
                               [mkPart (js "part-sec-b-deep-1") prayer []]])])
             None]
  /\ forall random,
       Random.parseTextToLibrary random (js "# C
## B
#### Deep")
       = Ok [mkItem (random 0) (js "C") category
               (Some [mkItem (random 1) (js "B") book None
                        (Some [mkSection (random 2) (js "# Deep")
                                 [mkPart (random 3) prayer []]])])
               None].
Proof.
  split; [|split].
  - destruct (CountedLines.section_heading_effect st line Hv H)
      as (st' & id & pid & Hrun & Hs & _ & _ & Hso & _ & _ & Hb & Hc & _).
    exists st', id. auto.
  - vm_compute. reflexivity.
  - intros random. vm_compute. reflexivity.
Qed.

Lemma section_heading_by_prefix_witness :
  exists st' id,
    Counted.processLine init (js "#### Deep") = Ok st'
    /\ currentSection st' = Some 0
    /\ secs st' !! 0 = Some (mkSectionObj id (js "# Deep") [0]).
Proof.
  destruct (section_heading_by_prefix init (js "#### Deep") valid_init eq_refl)
    as [(st' & id & Hrun & Hs & Hso & _) _].
  exists st', id. repeat split; [exact Hrun|exact Hs|exact Hso].
Defined.

(** ** A blank line under a language tag *)

(** C9.  A blank line read while a language and a part are current makes the
    paragraph array of that language when the part has none, and appends
    nothing to it; so a text ending in a language tag and a blank line gives
    a part whose content has the language as a key, with no paragraph. *)
Theorem blank_line_creates_empty_array (st : State) (line : jsstring)
    (l : Language) (p : ref) (po : LiturgicalPart)
    (Hv : valid st) (Hl : currentLang st = Some l) (Hp : currentPart st = Some p)
    (Hpo : parts st !! p = Some po)
    (Habsent : content_get l (part_content po) = None)
    (Hblank : blank line = true) :
  (exists st',
     Counted.processLine st line = Ok st'
     /\ Guarded.processLine st line = Ok st'
     /\ exists po', parts st' !! p = Some po'
        /\ part_content po' = content_set l [] (part_content po)
        /\ content_get l (part_content po') = Some [])
  /\ Counted.parseTextToLibrary (js "# C
## B
### S
[EN]
")
     = Ok [mkItem (js "cat-c") (js "C") category
             (Some [mkItem (js "book-c-b") (js "B") book None
                      (Some [mkSection (js "sec-b-s") (js "S")
                               [mkPart (js "part-sec-b-s-1") prayer
                                  [(ENGLISH, [])]]])])
             None]
  /\ Guarded.parseTextToLibrary (js "# C
## B
### S
[EN]
")
     = Ok [mkItem (js "cat-c") (js "C") category
             (Some [mkItem (js "book-c-b") (js "B") book None
                      (Some [mkSection (js "sec-b-s") (js "S")
                               [mkPart (js "part-sec-b-s-1") prayer
                                  [(ENGLISH, [])]]])])
             None].
Proof.
  split; [|split; vm_compute; reflexivity].
  apply trim_nil_iff in Hblank.
  assert (Hrun : tagOrContent [] st
                 = Ok (set_parts (alter (add_line l []) p (parts st)) st)).
  { unfold tagOrContent. change (languageTag []) with (@None Language).
    rewrite Hl, Hp. apply appendLine_run. by apply lookup_lt_Some in Hpo. }
  eexists. split; [|split].
  - unfold Counted.processLine. rewrite Hblank, Hl. exact Hrun.
  - unfold Guarded.processLine. rewrite Hblank. exact Hrun.
  - simpl_state. rewrite list_lookup_alter_eq, Hpo.
    eexists. split; [reflexivity|].
    cbn [add_line set_content part_content]. unfold content_append.
    rewrite Habsent. cbn [truthy].
    split; [reflexivity|apply content_get_set].
Qed.

Lemma blank_line_creates_empty_array_witness :
  exists st',
    Counted.processLine
      (mkState [] [] [] [mkPart (js "p") prayer []] [] None None None (Some 0)
         (Some ENGLISH) 0 0) (js "  ")
    = Ok st'
    /\ exists po', parts st' !! 0 = Some po'
       /\ content_get ENGLISH (part_content po') = Some [].
Proof.
  destruct (blank_line_creates_empty_array
              (mkState [] [] [] [mkPart (js "p") prayer []] [] None None None
                 (Some 0) (Some ENGLISH) 0 0)
              (js "  ") ENGLISH 0 (mkPart (js "p") prayer []))
    as [(st' & Hrun & _ & po' & Hpo & _ & Hget) _].
  - apply mkValid; simpl; auto using Forall_nil, cursor_ok_None, cursor_ok_Some.
  - reflexivity.
  - reflexivity.
  - reflexivity.
  - reflexivity.
  - reflexivity.
  - exists st'. split; [exact Hrun|]. exists po'. split; [exact Hpo|exact Hget].
Defined.

(** ** Paragraphs of a language block *)

Lemma paragraphs_add_line l t po :
  paragraphs l (add_line l t po)
  = paragraphs l po ++ (if truthy t then [t] else []).
Proof.
  unfold paragraphs, add_line, content_append. cbn [set_content part_content].
  destruct (content_get l (part_content po)) as [v|] eqn:E; destruct (truthy t).
  - by rewrite content_get_set, E.
  - rewrite E. simpl. by rewrite app_nil_r.
  - by rewrite !content_get_set.
  - by rewrite content_get_set.
Qed.

Lemma paragraphs_add_lines l ls po :
  paragraphs l (fold_left (fun po line => add_line l (trim line) po) ls po)
  = paragraphs l po ++ List.filter truthy (map trim ls).
Proof.
  revert po; induction ls as [|line ls IH]; intros po; simpl.
  - by rewrite app_nil_r.
  - rewrite IH, paragraphs_add_line. destruct (truthy (trim line)); simpl.
    + by rewrite <- app_assoc.
    + by rewrite app_nil_r.
Qed.

Lemma run_content ls : forall st l p,
  currentLang st = Some l -> currentPart st = Some p ->
  Forall (fun line => isContent (trim line) = true) ls ->
  CountedPure.run ls st
  = set_parts
      (alter (fun po => fold_left (fun po line => add_line l (trim line) po) ls po)
         p (parts st)) st.
Proof.
  induction ls as [|line ls IH]; intros st l p Hl Hp Hls; simpl.
  - rewrite list_alter_id by done. by destruct st.
  - inversion Hls as [|? ? Hline Hrest]; subst.
    rewrite (CountedLines.step_content st line l p) by done.
    rewrite (IH _ l p) by done. simpl_state.
    by rewrite list_alter_alter_eq.
Qed.

(** C6.  While a language and a part are current, a run of content lines
    (lines that are no heading, delimiter or tag) appends to the paragraphs
    of that language exactly the trimmed lines that are not empty, in order:
    a blank line adds no paragraph, and no empty string.  A block
    "Line1", blank, "Line2" gives the paragraphs "Line1", "Line2". *)
Theorem content_lines_appended (st : State) (l : Language) (p : ref)
    (po : LiturgicalPart) (ls : list jsstring)
    (Hv : valid st) (Hl : currentLang st = Some l) (Hp : currentPart st = Some p)
    (Hpo : parts st !! p = Some po)
    (Hls : Forall (fun line => isContent (trim line) = true) ls) :
  (exists st' po',
     forEach Counted.processLine ls st = Ok st'
     /\ parts st' !! p = Some po'
     /\ paragraphs l po' = paragraphs l po ++ List.filter truthy (map trim ls)
     /\ Forall (fun s => s <> []) (List.filter truthy (map trim ls)))
  /\ Counted.parseTextToLibrary (js "# C
## B
### S
[EN]
Line1

Line2")
     = Ok [mkItem (js "cat-c") (js "C") category
             (Some [mkItem (js "book-c-b") (js "B") book None
                      (Some [mkSection (js "sec-b-s") (js "S")
                               [mkPart (js "part-sec-b-s-1") prayer
                                  [(ENGLISH, [js "Line1"; js "Line2"])]]])])
             None].
Proof.
  split; [|vm_compute; reflexivity].
  rewrite CountedFacts.forEach_run by done.
  rewrite (run_content ls st l p) by done.
  do 2 eexists. split; [reflexivity|]. simpl_state.
  rewrite list_lookup_alter_eq, Hpo. split; [reflexivity|].
  split; [apply paragraphs_add_lines|].
  apply Forall_forall. intros s Hs. apply list_elem_of_In, filter_In in Hs as [_ Hs].
  by destruct s.
Qed.

Lemma content_lines_appended_witness :
  exists st' po',
    forEach Counted.processLine [js "Line1"; js ""; js " Line2 "]
      (mkState [] [] [] [mkPart (js "p") prayer [(ENGLISH, [js "Line0"])]] []
         None None None (Some 0) (Some ENGLISH) 0 0)
    = Ok st'
    /\ parts st' !! 0 = Some po'
    /\ paragraphs ENGLISH po' = [js "Line0"; js "Line1"; js "Line2"].
Proof.
  destruct (content_lines_appended
              (mkState [] [] [] [mkPart (js "p") prayer [(ENGLISH, [js "Line0"])]] []
                 None None None (Some 0) (Some ENGLISH) 0 0)
              ENGLISH 0 (mkPart (js "p") prayer [(ENGLISH, [js "Line0"])])
              [js "Line1"; js ""; js " Line2 "])
    as [(st' & po' & Hrun & Hpo & Hpar & _) _].
  - apply mkValid; simpl; auto using Forall_nil, cursor_ok_None, cursor_ok_Some.
  - reflexivity.
  - reflexivity.
  - reflexivity.
  - repeat constructor.
  - exists st', po'. split; [exact Hrun|]. split; [exact Hpo|]. exact Hpar.
Defined.

(** ** Fields a statement leaves alone *)

Lemma attach_section_pure_fields s st :
  cats (attach_section_pure s st) = cats st
  /\ secs (attach_section_pure s st) = secs st
  /\ parts (attach_section_pure s st) = parts st
  /\ library (attach_section_pure s st) = library st
  /\ currentCat (attach_section_pure s st) = currentCat st
  /\ currentBook (attach_section_pure s st) = currentBook st
  /\ currentSection (attach_section_pure s st) = currentSection st
  /\ currentPart (attach_section_pure s st) = currentPart st
  /\ currentLang (attach_section_pure s st) = currentLang st
  /\ partCount (attach_section_pure s st) = partCount st.
Proof. unfold attach_section_pure. destruct (currentBook st) eqn:E; repeat split; simpl_state; by rewrite ?E. Qed.

Lemma attach_book_pure_fields b st :
  books (attach_book_pure b st) = books st
  /\ secs (attach_book_pure b st) = secs st
  /\ parts (attach_book_pure b st) = parts st
  /\ library (attach_book_pure b st) = library st
  /\ currentCat (attach_book_pure b st) = currentCat st
  /\ currentBook (attach_book_pure b st) = currentBook st
  /\ currentSection (attach_book_pure b st) = currentSection st
  /\ currentPart (attach_book_pure b st) = currentPart st
  /\ currentLang (attach_book_pure b st) = currentLang st
  /\ partCount (attach_book_pure b st) = partCount st.
Proof. unfold attach_book_pure. destruct (currentCat st) eqn:E; repeat split; simpl_state; by rewrite ?E. Qed.

Lemma push_part_fields po st :
  cats (push_part po st) = cats st
  /\ books (push_part po st) = books st
  /\ parts (push_part po st) = parts st ++ [po]
  /\ library (push_part po st) = library st
  /\ currentCat (push_part po st) = currentCat st
  /\ currentBook (push_part po st) = currentBook st
  /\ currentSection (push_part po st) = currentSection st
  /\ currentPart (push_part po st) = Some (length (parts st))
  /\ currentLang (push_part po st) = currentLang st
  /\ partCount (push_part po st) = partCount st.
Proof. unfold push_part. destruct (currentSection st) eqn:E; repeat split; simpl_state; by rewrite ?E. Qed.

Lemma push_part_secs po st :
  secs (push_part po st)
  = match currentSection st with
    | Some s => alter (add_part (length (parts st))) s (secs st)
    | None => secs st
    end.
Proof. unfold push_part. destruct (currentSection st) eqn:E; simpl_state; by rewrite ?E. Qed.

Lemma tagOrContent_pure_fields t st :
  cats (tagOrContent_pure t st) = cats st
  /\ books (tagOrContent_pure t st) = books st
  /\ secs (tagOrContent_pure t st) = secs st
  /\ library (tagOrContent_pure t st) = library st
  /\ currentCat (tagOrContent_pure t st) = currentCat st
  /\ currentBook (tagOrContent_pure t st) = currentBook st
  /\ currentSection (tagOrContent_pure t st) = currentSection st
  /\ currentPart (tagOrContent_pure t st) = currentPart st
  /\ partCount (tagOrContent_pure t st) = partCount st
  /\ length (parts (tagOrContent_pure t st)) = length (parts st).
Proof.
  unfold tagOrContent_pure.
  destruct (languageTag t); [repeat split; reflexivity|].
  destruct (currentLang st); [|repeat split; reflexivity].
  destruct (currentPart st) eqn:E; [|repeat split; simpl_state; by rewrite ?E].
  simpl_state. rewrite length_alter. repeat split; simpl_state; by rewrite ?E.
Qed.

(** ** Every section has a part *)

Module CountedPopulated.

Import Counted CountedPure CountedFacts.

Lemma createNewPart_populated st : populated st -> populated (createNewPart_pure st).
Proof.
  unfold populated, createNewPart_pure. rewrite push_part_secs. simpl_state.
  intros H. destruct (currentSection st) as [s|]; [|done].
  apply Forall_alter; [done|]. intros so _ _. unfold add_part. simpl.
  by destruct (so_parts so).
Qed.

Lemma step_populated st line : populated st -> populated (step st line).
Proof.
  intros H. unfold step.
  repeat match goal with |- context [if ?c then _ else _] => destruct c end;
    try done.
  - unfold populated, createNewPart_pure. simpl_state. rewrite push_part_secs.
    simpl_state.
    destruct (attach_section_pure_fields (length (secs st))
                (new_section
                   (js "sec-"
                    ++ slugify (opt_or (currentBook st ≫= fun b => bo_title <$> books st !! b) [])
                    ++ js "-" ++ slugify (trim (replace (js "###") [] (trim line))))
                   (trim (replace (js "###") [] (trim line))) st))
      as (_ & -> & -> & _ & _ & _ & -> & _).
    simpl_state.
    replace (length (secs st)) with (length (secs st) + 0) at 1 by lia.
    rewrite alter_app_r. apply Forall_app. split; [done|].
    by repeat constructor.
  - unfold populated. simpl_state.
    by destruct (attach_book_pure_fields (length (books st))
                   (new_book
                      (js "book-"
                       ++ slugify (opt_or (currentCat st ≫= fun c => co_title <$> cats st !! c) [])
                       ++ js "-" ++ slugify (trim (replace (js "##") [] (trim line))))
                      (trim (replace (js "##") [] (trim line))) st))
      as (_ & -> & _).
  - by apply createNewPart_populated.
  - unfold populated.
    by destruct (tagOrContent_pure_fields (trim line) st) as (_ & _ & -> & _).
Qed.

Lemma run_populated lines st : populated st -> populated (run lines st).
Proof.
  revert st; induction lines as [|l ls IH]; intros st H; simpl; [done|].
  by apply IH, step_populated.
Qed.

End CountedPopulated.

Section TagFacts.

Local Open Scope N_scope.

Lemma upper1_bracket c : upper1 c = 91 -> c = 91.
Proof.
  unfold upper1. destruct ((97 <=? c) && (c <=? 122)) eqn:E; [|done].
  apply andb_true_iff in E as [H1 H2].
  apply N.leb_le in H1, H2. lia.
Qed.

Lemma toUpperCase_head t u : toUpperCase t = 91 :: u -> exists t', t = 91 :: t'.
Proof.
  destruct t as [|c t']; simpl; [done|].
  intros [= H _]. apply upper1_bracket in H as ->. by eexists.
Qed.

(** A language tag starts with a bracket: it is no heading and not the
    delimiter. *)
Lemma languageTag_head t l : languageTag t = Some l -> exists t', t = 91 :: t'.
Proof.
  unfold languageTag.
  repeat match goal with
         | |- context [eqb ?a ?b] =>
             let E := fresh "E" in
             destruct (eqb a b) eqn:E;
             [apply eqb_eq in E; intros _; exact (toUpperCase_head _ _ E)|]
         end.
  done.
Qed.

End TagFacts.

Lemma step_tag st line l :
  languageTag (trim line) = Some l ->
  CountedPure.step st line = set_currentLang (Some l) st.
Proof.
  intros H. destruct (languageTag_head _ _ H) as [t' Ht].
  unfold CountedPure.step, tagOrContent_pure. rewrite H, Ht. reflexivity.
Qed.

Lemma reify_section_populated st s sec :
  populated st -> reify_section st s = Some sec -> sec_parts sec <> [].
Proof.
  unfold reify_section, populated. intros Hpop H.
  destruct (secs st !! s) as [so|] eqn:Hso; [|done]. simpl in H.
  destruct (mapM _ (so_parts so)) as [ps|] eqn:Hps; [|done]. simpl in H.
  injection H as <-. simpl. apply length_mapM in Hps.
  rewrite Forall_lookup in Hpop. specialize (Hpop _ _ Hso).
  destruct ps; [|done]. by destruct (so_parts so).
Qed.

Lemma mapM_Forall {A B} (f : A -> option B) (P : B -> Prop) l k :
  (forall x y, f x = Some y -> P y) -> mapM f l = Some k -> Forall P k.
Proof.
  intros Hf H. apply mapM_Some_1 in H.
  induction H as [|x y l k Hxy _ IH]; constructor; eauto.
Qed.

Lemma reify_book_populated st b it :
  populated st -> reify_book st b = Some it ->
  Forall (fun sec => sec_parts sec <> []) (sections_of_item it).
Proof.
  unfold reify_book. intros Hpop H.
  destruct (books st !! b) as [bo|]; [|done]. simpl in H.
  destruct (bo_sections bo) as [l|]; simpl in H.
  - destruct (mapM (reify_section st) l) as [ss|] eqn:Hss; [|done].
    injection H as <-. simpl. rewrite app_nil_r.
    eapply mapM_Forall; [|exact Hss]. intros s sec. by apply reify_section_populated.
  - injection H as <-. constructor.
Qed.

Lemma Forall_flat_map {A B} (f : A -> list B) (P : B -> Prop) l :
  Forall (fun x => Forall P (f x)) l -> Forall P (flat_map f l).
Proof. induction 1; simpl; [constructor|]. by apply Forall_app. Qed.

Lemma reify_cat_populated st c it :
  populated st -> reify_cat st c = Some it ->
  Forall (fun sec => sec_parts sec <> []) (sections_of_item it).
Proof.
  unfold reify_cat. intros Hpop H.
  destruct (cats st !! c) as [co|]; [|done]. simpl in H.
  destruct (co_children co) as [l|]; simpl in H.
  - destruct (mapM (reify_book st) l) as [bs|] eqn:Hbs; [|done].
    injection H as <-. simpl. apply Forall_flat_map.
    eapply mapM_Forall; [|exact Hbs]. intros b it. by apply reify_book_populated.
  - injection H as <-. constructor.
Qed.

Lemma reify_library_populated st lib :
  populated st -> reify_library st = Ok lib ->
  Forall (fun sec => sec_parts sec <> []) (sections_of_library lib).
Proof.
  unfold reify_library. intros Hpop H.
  destruct (mapM (reify_cat st) (library st)) as [lib'|] eqn:Hlib; [|done].
  injection H as <-. apply Forall_flat_map.
  eapply mapM_Forall; [|exact Hlib]. intros c it. by apply reify_cat_populated.
Qed.

(** ** Orphans *)

(** Allocation does not change what a well-formed store reads back to. *)
Lemma reify_section_extend st st' s :
  Forall (sec_ok (length (parts st))) (secs st) ->
  (exists x, secs st' = secs st ++ x) -> (exists y, parts st' = parts st ++ y) ->
  s < length (secs st) -> reify_section st' s = reify_section st s.
Proof.
  intros HS [x Hx] [y Hy] Hs. unfold reify_section.
  rewrite Hx, lookup_app_l by done.
  destruct (secs st !! s) as [so|] eqn:Hso; [|done]. simpl.
  rewrite Forall_lookup in HS. specialize (HS _ _ Hso).
  rewrite (Forall_mapM_ext _ (fun p => parts st !! p) (so_parts so)); [done|].
  eapply Forall_impl; [exact HS|]. intros p Hp. simpl. by rewrite Hy, lookup_app_l.
Qed.

Lemma reify_book_extend st st' b :
  valid st ->
  (exists z, books st' = books st ++ z) ->
  (exists x, secs st' = secs st ++ x) -> (exists y, parts st' = parts st ++ y) ->
  b < length (books st) -> reify_book st' b = reify_book st b.
Proof.
  intros Hv [z Hz] Hx Hy Hb. unfold reify_book. rewrite Hz, lookup_app_l by done.
  destruct (books st !! b) as [bo|] eqn:Hbo; [|done]. simpl.
  destruct (bo_sections bo) as [l|] eqn:E; [|done].
  pose proof (valid_books _ Hv) as HB.
  rewrite Forall_lookup in HB. specialize (HB _ _ Hbo).
  unfold book_ok in HB. rewrite E in HB. simpl in HB.
  rewrite (Forall_mapM_ext _ (reify_section st) l); [done|].
  eapply Forall_impl; [exact HB|]. intros s Hs. simpl.
  apply reify_section_extend; [apply Hv|done..].
Qed.

Lemma reify_library_extend st st' :
  valid st -> library st' = library st -> cats st' = cats st ->
  (exists z, books st' = books st ++ z) ->
  (exists x, secs st' = secs st ++ x) -> (exists y, parts st' = parts st ++ y) ->
  reify_library st' = reify_library st.
Proof.
  intros Hv Hl Hc Hz Hx Hy. unfold reify_library. rewrite Hl.
  rewrite (mapM_ext (reify_cat st') (reify_cat st)); [done|].
  intros c. unfold reify_cat. rewrite Hc.
  destruct (cats st !! c) as [co|] eqn:Hco; [|done]. simpl.
  destruct (co_children co) as [l|] eqn:E; [|done].
  pose proof (valid_cats _ Hv) as HC.
  rewrite Forall_lookup in HC. specialize (HC _ _ Hco).
  unfold cat_ok in HC. rewrite E in HC. simpl in HC.
  rewrite (Forall_mapM_ext _ (reify_book st) l); [done|].
  eapply Forall_impl; [exact HC|]. intros b Hb. simpl.
  by apply reify_book_extend.
Qed.

Module CountedOrphans.

Import Counted CountedPure CountedFacts.

Lemma step_secs_length st line : length (secs st) <= length (secs (step st line)).
Proof.
  unfold step.
  repeat match goal with |- context [if ?c then _ else _] => destruct c end;
    try done; simpl_state.
  - match goal with |- context [createNewPart_pure ?x] =>
      destruct (createNewPart_pure_fields x) as (_&_&_&_&_&_&_&_&_&_& ->)
    end. simpl_state.
    match goal with |- context [attach_section_pure ?s ?x] =>
      destruct (attach_section_pure_fields s x) as (_ & -> & _ & _ & _ & _ & -> & _)
    end.
    simpl_state. rewrite length_alter, length_app. lia.
  - match goal with |- context [attach_book_pure ?b ?x] =>
      destruct (attach_book_pure_fields b x) as (_ & -> & _)
    end. done.
  - destruct (createNewPart_pure_fields st) as (_&_&_&_&_&_&_&_&_&_& ->).
    destruct (currentSection st); by rewrite ?length_alter.
  - by destruct (tagOrContent_pure_fields (trim line) st) as (_ & _ & -> & _).
Qed.

Lemma step_books_length st line : length (books st) <= length (books (step st line)).
Proof.
  unfold step.
  repeat match goal with |- context [if ?c then _ else _] => destruct c end;
    try done; simpl_state.
  - match goal with |- context [createNewPart_pure ?x] =>
      destruct (createNewPart_pure_fields x) as (_ & -> & _)
    end. simpl_state.
    unfold attach_section_pure. simpl_state.
    destruct (currentBook st); simpl_state; rewrite ?length_alter, ?length_app; lia.
  - match goal with |- context [attach_book_pure ?b ?x] =>
      destruct (attach_book_pure_fields b x) as (-> & _)
    end. simpl_state. rewrite length_app. lia.
  - by destruct (createNewPart_pure_fields st) as (_ & -> & _).
  - by destruct (tagOrContent_pure_fields (trim line) st) as (_ & -> & _).
Qed.

(** A section no book lists is never listed later: only the section a
    heading has just made is ever pushed. *)
Lemma step_section_unattached s st line :
  s < length (secs st) -> section_unattached s st ->
  section_unattached s (step st line).
Proof.
  intros Hs H. unfold section_unattached, step in *.
  repeat match goal with |- context [if ?c then _ else _] => destruct c end;
    try done; simpl_state.
  - match goal with |- context [createNewPart_pure ?x] =>
      destruct (createNewPart_pure_fields x) as (_ & -> & _)
    end. simpl_state.
    unfold attach_section_pure. simpl_state.
    destruct (currentBook st); simpl_state; [|done].
    apply Forall_alter; [done|]. intros bo _ Hbo. unfold add_section. simpl.
    rewrite elem_of_app, list_elem_of_singleton. intros [?|?]; [done|lia].
  - match goal with |- context [attach_book_pure ?b ?x] =>
      destruct (attach_book_pure_fields b x) as (-> & _)
    end. simpl_state. apply Forall_app. split; [done|].
    repeat constructor. simpl. apply not_elem_of_nil.
  - by destruct (createNewPart_pure_fields st) as (_ & -> & _).
  - by destruct (tagOrContent_pure_fields (trim line) st) as (_ & -> & _).
Qed.

Lemma run_section_unattached s lines st :
  s < length (secs st) -> section_unattached s st ->
  section_unattached s (run lines st).
Proof.
  revert st; induction lines as [|l ls IH]; intros st Hs H; simpl; [done|].
  apply IH; [|by apply step_section_unattached].
  pose proof (step_secs_length st l). lia.
Qed.

(** The same for a book no category lists. *)
Lemma step_book_unattached b st line :
  b < length (books st) -> book_unattached b st ->
  book_unattached b (step st line).
Proof.
  intros Hb H. unfold book_unattached, step in *.
  repeat match goal with |- context [if ?c then _ else _] => destruct c end;
    try done; simpl_state.
  - match goal with |- context [createNewPart_pure ?x] =>
      destruct (createNewPart_pure_fields x) as (-> & _)
    end. simpl_state.
    match goal with |- context [attach_section_pure ?s ?x] =>
      destruct (attach_section_pure_fields s x) as (-> & _)
    end. done.
  - unfold attach_book_pure. simpl_state.
    destruct (currentCat st); simpl_state; [|done].
    apply Forall_alter; [done|]. intros co _ Hco. unfold add_child. simpl.
    rewrite elem_of_app, list_elem_of_singleton. intros [?|?]; [done|lia].
  - apply Forall_app. split; [done|].
    repeat constructor. simpl. apply not_elem_of_nil.
  - by destruct (createNewPart_pure_fields st) as (-> & _).
  - by destruct (tagOrContent_pure_fields (trim line) st) as (-> & _).
Qed.

Lemma run_book_unattached b lines st :
  b < length (books st) -> book_unattached b st ->
  book_unattached b (run lines st).
Proof.
  revert st; induction lines as [|l ls IH]; intros st Hb H; simpl; [done|].
  apply IH; [|by apply step_book_unattached].
  pose proof (step_books_length st l). lia.
Qed.

(** In a well-formed state the next section and the next book are listed
    nowhere yet. *)
Lemma fresh_section_unattached st : valid st -> section_unattached (length (secs st)) st.
Proof.
  intros Hv. eapply Forall_impl; [exact (valid_books _ Hv)|].
  intros bo Hbo Hin. unfold book_ok in Hbo. rewrite Forall_forall in Hbo.
  specialize (Hbo _ Hin). lia.
Qed.

Lemma fresh_book_unattached st : valid st -> book_unattached (length (books st)) st.
Proof.
  intros Hv. eapply Forall_impl; [exact (valid_cats _ Hv)|].
  intros co Hco Hin. unfold cat_ok in Hco. rewrite Forall_forall in Hco.
  specialize (Hco _ Hin). lia.
Qed.

End CountedOrphans.

Module CountedOrphanSteps.

Import Counted CountedPure CountedFacts CountedLines CountedOrphans.

(** The stores after a Section heading. *)
Lemma section_heading_stores st line :
  startsWith (trim line) (js "###") = true ->
  library (step st line) = library st
  /\ cats (step st line) = cats st
  /\ books (step st line)
     = match currentBook st with
       | Some b => alter (add_section (length (secs st))) b (books st)
       | None => books st
       end
  /\ secs (step st line)
     = secs st
       ++ [mkSectionObj
             (js "sec-"
              ++ slugify (opt_or (currentBook st ≫= fun b => bo_title <$> books st !! b) [])
              ++ js "-" ++ slugify (trim (drop 3 (trim line))))
             (trim (drop 3 (trim line))) [length (parts st)]]
  /\ (exists po, parts (step st line) = parts st ++ [po]).
Proof.
  intros H. rewrite step_section by done. cbv zeta. simpl_state.
  match goal with |- context [createNewPart_pure ?x] =>
    destruct (createNewPart_pure_fields x)
      as (-> & -> & -> & _ & _ & _ & _ & _ & _ & (po & -> & _) & ->)
  end. simpl_state.
  match goal with |- context [attach_section_pure ?s ?x] =>
    destruct (attach_section_pure_fields s x)
      as (-> & -> & -> & -> & _ & _ & -> & _)
  end. simpl_state.
  repeat split.
  - unfold attach_section_pure. simpl_state. by destruct (currentBook st).
  - replace (length (secs st)) with (length (secs st) + 0) at 1 by lia.
    rewrite alter_app_r. reflexivity.
  - by eexists.
Qed.

(** A line whose trimmed text starts with two number signs and not three. *)
Lemma step_book st line :
  startsWith (trim line) (js "##") = true ->
  startsWith (trim line) (js "###") = false ->
  step st line
  = let title := trim (drop 2 (trim line)) in
    let ct := currentCat st ≫= fun c => co_title <$> cats st !! c in
    set_currentPart None
      (set_currentSection None
         (attach_book_pure (length (books st))
            (new_book
               (js "book-" ++ slugify (opt_or ct []) ++ js "-" ++ slugify title)
               title st))).
Proof.
  intros H H3. unfold step.
  assert (Ht : truthy (trim line) = true) by (by apply (startsWith_truthy _ (js "##"))).
  rewrite Ht, H3, H. simpl. by rewrite replace_prefix by done.
Qed.

Lemma book_heading_stores st line :
  startsWith (trim line) (js "##") = true ->
  startsWith (trim line) (js "###") = false ->
  library (step st line) = library st
  /\ cats (step st line)
     = match currentCat st with
       | Some c => alter (add_child (length (books st))) c (cats st)
       | None => cats st
       end
  /\ (exists id title, books (step st line) = books st ++ [mkBookObj id title (Some [])])
  /\ secs (step st line) = secs st
  /\ parts (step st line) = parts st.
Proof.
  intros H H3. rewrite step_book by done. cbv zeta. simpl_state.
  match goal with |- context [attach_book_pure ?s ?x] =>
    destruct (attach_book_pure_fields s x) as (-> & -> & -> & -> & _)
  end. simpl_state.
  repeat split; [|by do 2 eexists].
  unfold attach_book_pure. simpl_state. by destruct (currentCat st).
Qed.

End CountedOrphanSteps.

(** C3.  A Section heading read while no book is current, and a Book heading
    read while no category is current, make an object that no parent
    receives: the library reads back as before, and whatever lines follow,
    no book ever lists that section and no category ever lists that book.
    A content line read while no part is current changes nothing.  So the
    text of a language tag and a line, with no heading, yields the empty
    library, and no part is made. *)
Theorem orphans_are_discarded (st : State) (line : jsstring) (Hv : valid st) :
  (currentBook st = None -> startsWith (trim line) (js "###") = true ->
   exists st',
     Counted.processLine st line = Ok st'
     /\ cats st' = cats st /\ books st' = books st
     /\ reify_library st' = reify_library st
     /\ forall post, exists st'',
          forEach Counted.processLine post st' = Ok st''
          /\ section_unattached (length (secs st)) st'')
  /\ (currentCat st = None -> startsWith (trim line) (js "##") = true ->
      startsWith (trim line) (js "###") = false ->
      exists st',
        Counted.processLine st line = Ok st'
        /\ cats st' = cats st
        /\ reify_library st' = reify_library st
        /\ forall post, exists st'',
             forEach Counted.processLine post st' = Ok st''
             /\ book_unattached (length (books st)) st'')
  /\ (currentPart st = None -> isContent (trim line) = true ->
      Counted.processLine st line = Ok st)
  /\ Counted.parseTextToLibrary (js "[EN]
Hello") = Ok []
  /\ forEach Counted.processLine (split_nl (js "[EN]
Hello")) init = Ok (set_currentLang (Some ENGLISH) init)
  /\ Counted.parseTextToLibrary (js "### Sec
[EN]
Hello") = Ok []
  /\ forall random,
       Random.parseTextToLibrary random (js "[EN]
Hello") = Ok []
       /\ Random.parseTextToLibrary random (js "### Sec
[EN]
Hello") = Ok [].
Proof.
  split; [|split; [|split; [|repeat split; vm_compute; reflexivity]]].
  - intros Hb H.
    destruct (CountedOrphanSteps.section_heading_stores st line H)
      as (Hlib & Hcats & Hbooks & Hsecs & Hparts).
    rewrite Hb in Hbooks.
    exists (CountedPure.step st line).
    split; [by apply CountedFacts.processLine_step|].
    split; [done|]. split; [done|].
    split.
    { apply reify_library_extend; [done|done|done| | |].
      - exists []. by rewrite app_nil_r.
      - rewrite Hsecs. by eexists.
      - destruct Hparts as [po ->]. by eexists. }
    intros post. exists (CountedPure.run post (CountedPure.step st line)).
    split; [by apply CountedFacts.forEach_run, CountedFacts.step_valid|].
    apply CountedOrphans.run_section_unattached.
    + rewrite Hsecs, length_app. simpl. lia.
    + unfold section_unattached. rewrite Hbooks.
      by apply CountedOrphans.fresh_section_unattached.
  - intros Hc H H3.
    destruct (CountedOrphanSteps.book_heading_stores st line H H3)
      as (Hlib & Hcats & Hbooks & Hsecs & Hparts).
    rewrite Hc in Hcats.
    exists (CountedPure.step st line).
    split; [by apply CountedFacts.processLine_step|].
    split; [done|].
    split.
    { apply reify_library_extend; [done|done|done| | |].
      - destruct Hbooks as (id & title & ->). by eexists.
      - exists []. by rewrite app_nil_r.
      - exists []. by rewrite app_nil_r. }
    intros post. exists (CountedPure.run post (CountedPure.step st line)).
    split; [by apply CountedFacts.forEach_run, CountedFacts.step_valid|].
    apply CountedOrphans.run_book_unattached.
    + destruct Hbooks as (id & title & ->). rewrite length_app. simpl. lia.
    + unfold book_unattached. rewrite Hcats.
      by apply CountedOrphans.fresh_book_unattached.
  - intros Hp H. apply isContent_inv in H as (H3 & H2 & H1 & Hd & Ht).
    unfold Counted.processLine, tagOrContent.
    rewrite H3, H2, H1, Hd, Ht, Hp.
    destruct (negb (truthy (trim line)) && isNull (currentLang st)); [done|].
    by destruct (currentLang st).
Qed.

Lemma orphans_are_discarded_witness :
  exists st',
    Counted.processLine init (js "### Sec") = Ok st'
    /\ books st' = [] /\ reify_library st' = Ok []
    /\ exists st'',
         forEach Counted.processLine [js "# C"; js "## B"; js "### T"] st' = Ok st''
         /\ section_unattached 0 st''.
Proof.
  destruct (orphans_are_discarded init (js "### Sec") valid_init)
    as [H _].
  destruct (H eq_refl eq_refl) as (st' & Hrun & _ & Hb & Hr & Hpost).
  exists st'. split; [exact Hrun|]. split; [exact Hb|]. split; [exact Hr|].
  exact (Hpost [js "# C"; js "## B"; js "### T"]).
Defined.

(** ** Section identifiers *)

Lemma or_else_nil t : or_else t [] = t.
Proof. by destruct t. Qed.

Lemma section_ids_ok_frame st st' :
  books st' = books st ->
  (forall s so', secs st' !! s = Some so' ->
     exists so, secs st !! s = Some so /\ so_id so = so_id so'
                /\ so_title so = so_title so') ->
  section_ids_ok st -> section_ids_ok st'.
Proof.
  intros Hb Hs H b bo s so' Hbo Hin Hso'. rewrite Hb in Hbo.
  destruct (Hs _ _ Hso') as (so & Hso & <- & <-). by eapply H.
Qed.

Module CountedIds.

Import Counted CountedPure CountedFacts CountedLines CountedOrphanSteps.

Lemma step_section_ids_ok st line :
  valid st -> section_ids_ok st -> section_ids_ok (step st line).
Proof.
  intros Hv H.
  pose proof (valid_books _ Hv) as HB. rewrite Forall_lookup in HB.
  destruct (startsWith (trim line) (js "###")) eqn:H3.
  { destruct (section_heading_stores st line H3) as (_ & _ & Hbooks & Hsecs & _).
    intros b bo' s so' Hbo' Hin Hso'. rewrite Hbooks in Hbo'. rewrite Hsecs in Hso'.
    assert (Hold : forall bo, books st !! b = Some bo ->
                     s ∈ default [] (bo_sections bo) ->
                     so_id so' = section_id_of (bo_title bo) (so_title so')).
    { intros bo Hbo Hs. specialize (HB _ _ Hbo). unfold book_ok in HB.
      rewrite Forall_forall in HB. specialize (HB _ Hs).
      rewrite lookup_app_l in Hso' by done. by eapply H. }
    destruct (currentBook st) as [b0|] eqn:Hcb; [|by eapply Hold].
    destruct (decide (b0 = b)) as [->|Hne];
      [|rewrite list_lookup_alter_ne in Hbo' by done; by eapply Hold].
    rewrite list_lookup_alter_eq in Hbo'.
    destruct (books st !! b) as [bo|] eqn:Hbo; [|done].
    simpl in Hbo'. injection Hbo' as <-.
    cbn [add_section set_sections bo_sections bo_title default] in *.
    apply elem_of_app in Hin as [Hin|Hin]; [by eapply Hold|].
    apply list_elem_of_singleton in Hin as ->.
    rewrite list_lookup_middle in Hso' by done. injection Hso' as <-.
    cbn [so_id so_title mbind option_bind]. rewrite Hbo.
    cbn [fmap option_fmap option_map opt_or].
    by rewrite or_else_nil. }
  destruct (startsWith (trim line) (js "##")) eqn:H2.
  { destruct (book_heading_stores st line H2 H3)
      as (_ & _ & (id & title & Hbooks) & Hsecs & _).
    intros b bo' s so' Hbo' Hin Hso'. rewrite Hbooks in Hbo'. rewrite Hsecs in Hso'.
    apply lookup_app_Some in Hbo' as [Hbo'|[_ Hbo']]; [by eapply H|].
    apply list_lookup_singleton_Some in Hbo' as [_ <-]. simpl in Hin.
    by apply not_elem_of_nil in Hin. }
  unfold step. rewrite H3, H2. cbv iota.
  repeat match goal with |- context [if ?c then _ else _] => destruct c end;
    try done.
  - eapply section_ids_ok_frame; [| |exact H]; simpl_state.
    + by destruct (createNewPart_pure_fields st) as (_ & -> & _).
    + destruct (createNewPart_pure_fields st) as (_&_&_&_&_&_&_&_&_&_& ->).
      intros s so' Hso'. destruct (currentSection st) as [s0|]; [|eauto].
      rewrite list_lookup_alter in Hso'. case_decide; [subst s0|eauto].
      destruct (secs st !! s) as [so|]; simpl in Hso'; [|done].
      injection Hso' as <-. by exists so.
  - eapply section_ids_ok_frame; [| |exact H].
    + by destruct (tagOrContent_pure_fields (trim line) st) as (_ & -> & _).
    + destruct (tagOrContent_pure_fields (trim line) st) as (_ & _ & -> & _).
      eauto.
Qed.

Lemma run_section_ids_ok lines st :
  valid st -> section_ids_ok st -> section_ids_ok (run lines st).
Proof.
  revert st; induction lines as [|l ls IH]; intros st Hv H; simpl; [done|].
  apply IH; [by apply step_valid|by apply step_section_ids_ok].
Qed.

End CountedIds.

Lemma mapM_elem_of {A B} (f : A -> option B) l k y :
  mapM f l = Some k -> y ∈ k -> exists x, x ∈ l /\ f x = Some y.
Proof.
  intros H. apply mapM_Some_1 in H.
  induction H as [|x z l k Hxz _ IH]; intros Hy.
  - by apply not_elem_of_nil in Hy.
  - apply elem_of_cons in Hy as [->|Hy].
    + exists x. split; [apply list_elem_of_here|done].
    + destruct (IH Hy) as (x' & Hx' & Hf). exists x'.
      split; [by apply list_elem_of_further|done].
Qed.

Lemma elem_of_flat_map {A B} (f : A -> list B) l y :
  y ∈ flat_map f l -> exists x, x ∈ l /\ y ∈ f x.
Proof.
  induction l as [|x l IH]; simpl; intros H.
  - by apply not_elem_of_nil in H.
  - apply elem_of_app in H as [H|H].
    + exists x. split; [apply list_elem_of_here|done].
    + destruct (IH H) as (x' & Hx' & Hy). exists x'.
      split; [by apply list_elem_of_further|done].
Qed.

Lemma reify_book_ids st b it sec :
  section_ids_ok st -> reify_book st b = Some it ->
  sec ∈ default [] (item_sections it) ->
  sec_id sec = section_id_of (item_title it) (sec_title sec).
Proof.
  unfold reify_book. intros Hids H Hin.
  destruct (books st !! b) as [bo|] eqn:Hbo; [|done]. simpl in H.
  destruct (bo_sections bo) as [l|] eqn:E; simpl in H.
  - destruct (mapM (reify_section st) l) as [ss|] eqn:Hss; [|done].
    injection H as <-. simpl in *.
    destruct (mapM_elem_of _ _ _ _ Hss Hin) as (s & Hs & Hsec).
    unfold reify_section in Hsec.
    destruct (secs st !! s) as [so|] eqn:Hso; [|done]. simpl in Hsec.
    destruct (mapM _ (so_parts so)); [|done]. injection Hsec as <-. simpl.
    eapply Hids; [exact Hbo| |exact Hso]. by rewrite E.
  - injection H as <-. simpl in Hin. by apply not_elem_of_nil in Hin.
Qed.

Lemma reify_library_books st lib bk :
  reify_library st = Ok lib -> bk ∈ books_of_library lib ->
  exists b, reify_book st b = Some bk.
Proof.
  unfold reify_library, books_of_library. intros H Hin.
  destruct (mapM (reify_cat st) (library st)) as [lib'|] eqn:Hlib; [|done].
  injection H as <-.
  apply elem_of_flat_map in Hin as (cat & Hcat & Hin).
  destruct (mapM_elem_of _ _ _ _ Hlib Hcat) as (c & _ & Hc).
  unfold reify_cat in Hc.
  destruct (cats st !! c) as [co|]; [|done]. simpl in Hc.
  destruct (co_children co) as [l|]; simpl in Hc.
  - destruct (mapM (reify_book st) l) as [bs|] eqn:Hbs; [|done].
    injection Hc as <-. simpl in Hin.
    destruct (mapM_elem_of _ _ _ _ Hbs Hin) as (b & _ & Hb). by exists b.
  - injection Hc as <-. simpl in Hin. by apply not_elem_of_nil in Hin.
Qed.

Lemma parse_section_ids text lib bk sec :
  Counted.parseTextToLibrary text = Ok lib ->
  bk ∈ books_of_library lib -> sec ∈ default [] (item_sections bk) ->
  sec_id sec = section_id_of (item_title bk) (sec_title sec).
Proof.
  unfold Counted.parseTextToLibrary. intros H Hbk Hsec.
  destruct (negb (truthy (trim text))).
  { injection H as <-. by apply not_elem_of_nil in Hbk. }
  rewrite CountedFacts.forEach_run in H by apply valid_init. simpl in H.
  destruct (reify_library_books _ _ _ H Hbk) as (b & Hb).
  eapply reify_book_ids; [|exact Hb|exact Hsec].
  apply CountedIds.run_section_ids_ok; [apply valid_init|].
  intros b' bo s so Hbo. done.
Qed.

(** C5, as the code has it.  In every library the parser returns, the
    identifier of a section is "sec-", the slug of the title of its book, a
    hyphen and the slug of its own title; so two sections with the same
    title under two books have different identifiers whenever the titles of
    the two books have different slugs. *)
Theorem section_ids_namespaced (text : jsstring) (lib : list LibraryItem)
    (b1 b2 : LibraryItem) (s1 s2 : LiturgySection)
    (Hparse : Counted.parseTextToLibrary text = Ok lib)
    (Hb1 : b1 ∈ books_of_library lib) (Hb2 : b2 ∈ books_of_library lib)
    (Hs1 : s1 ∈ default [] (item_sections b1))
    (Hs2 : s2 ∈ default [] (item_sections b2))
    (Htitle : sec_title s1 = sec_title s2) :
  sec_id s1 = section_id_of (item_title b1) (sec_title s1)
  /\ sec_id s2 = section_id_of (item_title b2) (sec_title s2)
  /\ (slugify (item_title b1) <> slugify (item_title b2) -> sec_id s1 <> sec_id s2).
Proof.
  pose proof (parse_section_ids _ _ _ _ Hparse Hb1 Hs1) as H1.
  pose proof (parse_section_ids _ _ _ _ Hparse Hb2 Hs2) as H2.
  split; [done|]. split; [done|].
  intros Hne Heq. rewrite H1, H2, Htitle in Heq. unfold section_id_of in Heq.
  apply app_inv_head in Heq. apply app_inv_tail in Heq. done.
Qed.

(** Two books whose titles differ and have the same slug, each with a
    section "Introduction": the two sections get the same identifier. *)
Lemma section_ids_collide :
  exists lib b1 b2 s1 s2,
    Counted.parseTextToLibrary (js "# C
## Book One
### Introduction
## Book-One!
### Introduction") = Ok lib
    /\ books_of_library lib = [b1; b2]
    /\ item_title b1 <> item_title b2
    /\ item_sections b1 = Some [s1] /\ item_sections b2 = Some [s2]
    /\ sec_title s1 = sec_title s2
    /\ sec_id s1 = sec_id s2.
Proof.
  do 5 eexists. split; [vm_compute; reflexivity|].
  split; [reflexivity|]. split; [discriminate|]. repeat split.
Qed.

Lemma section_ids_namespaced_witness :
  sec_id (mkSection (js "sec-one-introduction") (js "Introduction")
            [mkPart (js "part-sec-one-introduction-1") prayer []])
  <> sec_id (mkSection (js "sec-two-introduction") (js "Introduction")
               [mkPart (js "part-sec-two-introduction-1") prayer []]).
Proof.
  refine (proj2 (proj2 (section_ids_namespaced (js "# C
## One
### Introduction
## Two
### Introduction")
    [mkItem (js "cat-c") (js "C") category
       (Some [mkItem (js "book-c-one") (js "One") book None
                (Some [mkSection (js "sec-one-introduction") (js "Introduction")
                         [mkPart (js "part-sec-one-introduction-1") prayer []]]);
              mkItem (js "book-c-two") (js "Two") book None
                (Some [mkSection (js "sec-two-introduction") (js "Introduction")
                         [mkPart (js "part-sec-two-introduction-1") prayer []]])])
       None]
    (mkItem (js "book-c-one") (js "One") book None
       (Some [mkSection (js "sec-one-introduction") (js "Introduction")
                [mkPart (js "part-sec-one-introduction-1") prayer []]]))
    (mkItem (js "book-c-two") (js "Two") book None
       (Some [mkSection (js "sec-two-introduction") (js "Introduction")
                [mkPart (js "part-sec-two-introduction-1") prayer []]]))
    _ _ _ _ _ _ _ _)) _).
  - vm_compute. reflexivity.
  - apply list_elem_of_here.
  - apply list_elem_of_further, list_elem_of_here.
  - apply list_elem_of_here.
  - apply list_elem_of_here.
  - reflexivity.
  - vm_compute. discriminate.
Defined.

(** ** The six kinds of line

    What one line does to the state, kind by kind, with every field of the
    new state written out. *)

Lemma State_eq st1 st2 :
  cats st1 = cats st2 -> books st1 = books st2 -> secs st1 = secs st2 ->
  parts st1 = parts st2 -> library st1 = library st2 ->
  currentCat st1 = currentCat st2 -> currentBook st1 = currentBook st2 ->
  currentSection st1 = currentSection st2 -> currentPart st1 = currentPart st2 ->
  currentLang st1 = currentLang st2 -> partCount st1 = partCount st2 ->
  draws st1 = draws st2 -> st1 = st2.
Proof. destruct st1, st2. simpl. by intros -> -> -> -> -> -> -> -> -> -> -> ->. Qed.

Module CountedCases.

Import Counted CountedPure CountedFacts CountedLines CountedOrphanSteps.

Lemma line_cases t :
  startsWith t (js "###") = true
  \/ (startsWith t (js "###") = false /\ startsWith t (js "##") = true)
  \/ (startsWith t (js "##") = false /\ startsWith t (js "#") = true)
  \/ t = js "---"
  \/ (exists l, languageTag t = Some l)
  \/ isContent t = true.
Proof.
  destruct (startsWith t (js "###")) eqn:H3; [by left|right].
  destruct (startsWith t (js "##")) eqn:H2; [by left|right].
  destruct (startsWith t (js "#")) eqn:H1; [by left|right].
  destruct (eqb t (js "---")) eqn:Hd; [left; by apply eqb_eq|right].
  destruct (languageTag t) as [l|] eqn:Ht; [left; by exists l|right].
  unfold isContent. by rewrite H1, Hd, Ht.
Qed.

Lemma section_state st line :
  startsWith (trim line) (js "###") = true ->
  let title := trim (drop 3 (trim line)) in
  let id := js "sec-"
            ++ slugify (opt_or (currentBook st ≫= fun b => bo_title <$> books st !! b) [])
            ++ js "-" ++ slugify title in
  step st line
  = mkState (cats st)
      (match currentBook st with
       | Some b => alter (add_section (length (secs st))) b (books st)
       | None => books st
       end)
      (secs st ++ [mkSectionObj id title [length (parts st)]])
      (parts st ++ [mkPart (js "part-" ++ opt_or (Some id) (js "root") ++ js "-"
                              ++ decimal 1) prayer []])
      (library st) (currentCat st) (currentBook st)
      (Some (length (secs st))) (Some (length (parts st))) None 1 (draws st).
Proof.
  intros H title id. rewrite step_section by done. cbv zeta.
  unfold createNewPart_pure, push_part.
  assert (Halter : forall p (so : SectionObj),
            alter (add_part p) (length (secs st)) (secs st ++ [so])
            = secs st ++ [add_part p so]).
  { intros p so.
    replace (length (secs st)) with (length (secs st) + 0) at 1 by lia.
    by rewrite alter_app_r. }
  unfold attach_section_pure. simpl_state.
  destruct (currentBook st) as [b|] eqn:E; apply State_eq; simpl_state;
    rewrite ?E, ?Halter; try reflexivity;
    cbn [mbind option_bind]; rewrite list_lookup_middle by done; reflexivity.
Qed.

Lemma book_state st line :
  startsWith (trim line) (js "###") = false ->
  startsWith (trim line) (js "##") = true ->
  let title := trim (drop 2 (trim line)) in
  let id := js "book-"
            ++ slugify (opt_or (currentCat st ≫= fun c => co_title <$> cats st !! c) [])
            ++ js "-" ++ slugify title in
  step st line
  = mkState
      (match currentCat st with
       | Some c => alter (add_child (length (books st))) c (cats st)
       | None => cats st
       end)
      (books st ++ [mkBookObj id title (Some [])])
      (secs st) (parts st) (library st) (currentCat st)
      (Some (length (books st))) None None (currentLang st) (partCount st) (draws st).
Proof.
  intros H3 H2 title id. rewrite step_book by done. cbv zeta.
  unfold attach_book_pure. simpl_state.
  destruct (currentCat st) as [c|] eqn:E; apply State_eq; simpl_state;
    rewrite ?E; reflexivity.
Qed.

Lemma category_state st line :
  startsWith (trim line) (js "##") = false ->
  startsWith (trim line) (js "#") = true ->
  let title := trim (drop 1 (trim line)) in
  step st line
  = mkState (cats st ++ [mkCatObj (js "cat-" ++ slugify title) title (Some [])])
      (books st) (secs st) (parts st) (library st ++ [length (cats st)])
      (Some (length (cats st))) None None None (currentLang st) (partCount st)
      (draws st).
Proof.
  intros H2 H1 title. unfold step.
  assert (Ht : truthy (trim line) = true) by (by apply (startsWith_truthy _ (js "#"))).
  assert (H3 : startsWith (trim line) (js "###") = false)
    by apply (startsWith_longer _ (js "##") (js "#") H2).
  rewrite Ht, H3, H2, H1. cbn [negb andb]. rewrite replace_prefix by done.
  apply State_eq; reflexivity.
Qed.

Lemma delimiter_state st line :
  trim line = js "---" ->
  step st line
  = mkState (cats st) (books st)
      (match currentSection st with
       | Some s => alter (add_part (length (parts st))) s (secs st)
       | None => secs st
       end)
      (parts st
       ++ [mkPart (js "part-"
                   ++ opt_or (currentSection st ≫= fun s => so_id <$> secs st !! s)
                        (js "root")
                   ++ js "-" ++ decimal (S (partCount st))) prayer []])
      (library st) (currentCat st) (currentBook st) (currentSection st)
      (Some (length (parts st))) None (S (partCount st)) (draws st).
Proof.
  intros H. rewrite step_delimiter by done.
  unfold createNewPart_pure, push_part. simpl_state.
  destruct (currentSection st) as [s|] eqn:E; apply State_eq; simpl_state;
    rewrite ?E; reflexivity.
Qed.

Lemma content_state st line :
  isContent (trim line) = true ->
  step st line
  = match currentLang st, currentPart st with
    | Some l, Some p => set_parts (alter (add_line l (trim line)) p (parts st)) st
    | _, _ => st
    end.
Proof.
  intros H. destruct (currentLang st) as [l|] eqn:Hl.
  - destruct (currentPart st) as [p|] eqn:Hp; [by apply step_content|].
    apply isContent_inv in H as (H3 & H2 & H1 & Hd & Ht).
    unfold step, tagOrContent_pure.
    rewrite Hl. simpl isNull. by rewrite andb_false_r, H3, H2, H1, Hd, Ht, Hp.
  - apply isContent_inv in H as (H3 & H2 & H1 & Hd & Ht).
    unfold step, tagOrContent_pure. rewrite Hl, H3, H2, H1, Hd, Ht.
    by destruct (negb (truthy (trim line)) && isNull None).
Qed.

End CountedCases.

(** ** How a section reads back after a change of the store *)

Lemma mapM_app {A B} (f : A -> option B) l k :
  mapM f (l ++ k) = l' ← mapM f l; k' ← mapM f k; Some (l' ++ k').
Proof.
  induction l as [|x l IH]; simpl.
  - by destruct (mapM f k).
  - destruct (f x); simpl; [|done]. rewrite IH.
    destruct (mapM f l); simpl; [|done]. by destruct (mapM f k).
Qed.

Lemma alter_last_snoc {A} (f : A -> A) l x : alter_last f (l ++ [x]) = l ++ [f x].
Proof.
  unfold alter_last. rewrite length_app. simpl.
  replace (pred (length l + 1)) with (length l + 0) by lia.
  by rewrite alter_app_r.
Qed.

(** A section reads back the same when its object and the parts it lists
    are the same. *)
Lemma reify_section_frame st st' s :
  secs st' !! s = secs st !! s ->
  (forall so p, secs st !! s = Some so -> p ∈ so_parts so ->
                parts st' !! p = parts st !! p) ->
  reify_section st' s = reify_section st s.
Proof.
  intros Hs Hp. unfold reify_section. rewrite Hs.
  destruct (secs st !! s) as [so|]; [|done]. simpl.
  rewrite (Forall_mapM_ext _ (fun p => parts st !! p) (so_parts so)); [done|].
  apply Forall_forall. intros p Hin. by eapply Hp.
Qed.

(** After [parts.push(po)] on the section [s]. *)
Lemma reify_section_push st st' s po :
  Forall (sec_ok (length (parts st))) (secs st) ->
  secs st' !! s = add_part (length (parts st)) <$> secs st !! s ->
  parts st' = parts st ++ [po] ->
  reify_section st' s = sec_push po <$> reify_section st s.
Proof.
  intros HS Hs Hp. unfold reify_section. rewrite Hs.
  destruct (secs st !! s) as [so|] eqn:Hso; [|done]. simpl.
  rewrite Forall_lookup in HS. specialize (HS _ _ Hso).
  rewrite mapM_app.
  rewrite (Forall_mapM_ext _ (fun p => parts st !! p) (so_parts so)).
  2:{ eapply Forall_impl; [exact HS|]. intros p Hlt. simpl.
      by rewrite Hp, lookup_app_l. }
  destruct (mapM _ (so_parts so)) as [ps|]; [|done]. simpl.
  by rewrite Hp, list_lookup_middle.
Qed.

(** After a change of the last part of the section [s], listed there once. *)
Lemma reify_section_alter_last st s so l p f :
  secs st !! s = Some so -> so_parts so = l ++ [p] -> p ∉ l ->
  reify_section (set_parts (alter f p (parts st)) st) s
  = sec_alter_last f <$> reify_section st s.
Proof.
  intros Hso Hl Hp. unfold reify_section. simpl_state. rewrite Hso. simpl.
  rewrite Hl, !mapM_app.
  rewrite (Forall_mapM_ext _ (fun p => parts st !! p) l).
  2:{ apply Forall_forall. intros q Hq. simpl.
      apply list_lookup_alter_ne. intros ->. done. }
  destruct (mapM _ l) as [ps|]; [|done]. simpl.
  rewrite list_lookup_alter_eq.
  destruct (parts st !! p) as [po|]; [|done]. simpl.
  unfold sec_alter_last. simpl. by rewrite alter_last_snoc.
Qed.

(** After a change of a part the section [s] does not list. *)
Lemma reify_section_alter_other st s p f :
  (forall so, secs st !! s = Some so -> p ∉ so_parts so) ->
  reify_section (set_parts (alter f p (parts st)) st) s = reify_section st s.
Proof.
  intros Hp. apply reify_section_frame; [done|].
  intros so q Hso Hq. simpl_state. apply list_lookup_alter_ne.
  intros ->. by eapply Hp.
Qed.

(** After an allocation of parts. *)
Lemma reify_section_more_parts st st' s y :
  Forall (sec_ok (length (parts st))) (secs st) ->
  secs st' !! s = secs st !! s -> parts st' = parts st ++ y ->
  reify_section st' s = reify_section st s.
Proof.
  intros HS Hs Hp. apply reify_section_frame; [done|].
  intros so p Hso Hin. rewrite Forall_lookup in HS. specialize (HS _ _ Hso).
  unfold sec_ok in HS. rewrite Forall_forall in HS. specialize (HS _ Hin).
  by rewrite Hp, lookup_app_l.
Qed.

(** ** The current part belongs to the current section *)

Lemma listed_part_allocated st s so i p :
  valid st -> secs st !! s = Some so -> so_parts so !! i = Some p ->
  p < length (parts st).
Proof.
  intros Hv Hso Hi. pose proof (valid_secs _ Hv) as HS.
  rewrite Forall_lookup in HS. specialize (HS _ _ Hso).
  unfold sec_ok in HS. rewrite Forall_lookup in HS. by apply (HS i).
Qed.

Lemma tidy_init : tidy init.
Proof.
  split; [apply valid_init| |].
  - intros p s so i Hp. discriminate.
  - intros s Hs. discriminate.
Qed.

Module CountedTidy.

Import Counted CountedPure CountedFacts CountedCases.

Lemma step_owned st line : tidy st -> owned (step st line).
Proof.
  intros [Hv Ho Ha].
  destruct (line_cases (trim line)) as [H3|[[H3 H2]|[[H2 H1]|[Hd|[[l Ht]|Hc]]]]].
  - rewrite section_state by done. cbv zeta.
    intros p s so i Hp Hso Hi. simpl_state. injection Hp as <-.
    apply lookup_app_Some in Hso as [Hso|[Hge Hso]].
    + pose proof (listed_part_allocated _ _ _ _ _ Hv Hso Hi). lia.
    + apply list_lookup_singleton_Some in Hso as [Hz <-]. simpl in Hi.
      apply list_lookup_singleton_Some in Hi as [-> _]. simpl.
      split; [f_equal; lia|done].
  - rewrite book_state by done. cbv zeta. intros p s so i Hp. discriminate.
  - rewrite category_state by done. cbv zeta. intros p s so i Hp. discriminate.
  - rewrite delimiter_state by done.
    intros p s so i Hp Hso Hi. simpl_state. injection Hp as <-.
    destruct (currentSection st) as [s0|] eqn:E.
    + rewrite list_lookup_alter in Hso. case_decide as Hs.
      * subst s0. destruct (secs st !! s) as [so0|] eqn:Hso0; [|done].
        simpl in Hso. injection Hso as <-. simpl in *.
        apply lookup_app_Some in Hi as [Hi|[Hge Hi]].
        -- pose proof (listed_part_allocated _ _ _ _ _ Hv Hso0 Hi). lia.
        -- apply list_lookup_singleton_Some in Hi as [Hz _].
           split; [done|]. rewrite length_app. simpl. lia.
      * pose proof (listed_part_allocated _ _ _ _ _ Hv Hso Hi). lia.
    + pose proof (listed_part_allocated _ _ _ _ _ Hv Hso Hi). lia.
  - rewrite (step_tag st line l) by done. exact Ho.
  - rewrite content_state by done.
    destruct (currentLang st); [|done]. destruct (currentPart st) eqn:E; [|done].
    intros p s so i Hp Hso Hi. simpl_state. apply (Ho p s so i); congruence.
Qed.

Lemma step_attached st line : tidy st -> attached (step st line).
Proof.
  intros [Hv Ho Ha].
  destruct (line_cases (trim line)) as [H3|[[H3 H2]|[[H2 H1]|[Hd|[[l Ht]|Hc]]]]].
  - rewrite section_state by done. cbv zeta.
    intros s Hs. simpl_state. injection Hs as <-.
    eexists _, [], _. split; [by apply list_lookup_middle|]. by split.
  - rewrite book_state by done. cbv zeta. intros s Hs. discriminate.
  - rewrite category_state by done. cbv zeta. intros s Hs. discriminate.
  - rewrite delimiter_state by done.
    intros s Hs. simpl_state. destruct (Ha s Hs) as (so & l & p & Hso & Hl & Hp).
    rewrite Hs. exists (add_part (length (parts st)) so), (l ++ [p]), (length (parts st)).
    split; [by rewrite list_lookup_alter_eq, Hso|].
    split; [simpl; by rewrite Hl|done].
  - rewrite (step_tag st line l) by done. exact Ha.
  - rewrite content_state by done.
    destruct (currentLang st); [|done]. destruct (currentPart st) eqn:E; [|done].
    intros s Hs. simpl_state. destruct (Ha s Hs) as (so & l' & p & Hso & Hl & Hp).
    exists so, l', p. repeat split; congruence.
Qed.

Lemma step_tidy st line : tidy st -> tidy (step st line).
Proof.
  intros H. split; [apply step_valid, H|by apply step_owned|by apply step_attached].
Qed.

Lemma run_tidy lines st : tidy st -> tidy (run lines st).
Proof.
  revert st; induction lines as [|l ls IH]; intros st H; simpl; [done|].
  by apply IH, step_tidy.
Qed.

(** The last part of the current section is listed nowhere else. *)
Lemma current_part_once st s so l p :
  tidy st -> currentSection st = Some s -> secs st !! s = Some so ->
  so_parts so = l ++ [p] -> currentPart st = Some p /\ p ∉ l.
Proof.
  intros [Hv Ho Ha] Hs Hso Hl.
  destruct (Ha s Hs) as (so' & l' & p' & Hso' & Hl' & Hp').
  rewrite Hso in Hso'. injection Hso' as <-.
  rewrite Hl in Hl'. apply app_inj_tail in Hl' as [<- <-].
  split; [done|]. intros Hin. apply list_elem_of_lookup in Hin as [i Hi].
  destruct (Ho p s so i Hp' Hso) as [_ Hlen].
  { rewrite Hl. by apply lookup_app_l_Some. }
  apply lookup_lt_Some in Hi. rewrite Hl, length_app in Hlen. simpl in Hlen. lia.
Qed.

(** No other section lists the current part. *)
Lemma current_part_elsewhere st p s' so' :
  tidy st -> currentPart st = Some p -> currentSection st <> Some s' ->
  secs st !! s' = Some so' -> p ∉ so_parts so'.
Proof.
  intros [Hv Ho Ha] Hp Hs Hso' Hin. apply list_elem_of_lookup in Hin as [i Hi].
  by destruct (Ho p s' so' i Hp Hso' Hi) as [? _].
Qed.

End CountedTidy.

(** ** Two runs that read back alike *)

Lemma reify_section_so_id st s sec :
  reify_section st s = Some sec -> so_id <$> secs st !! s = Some (sec_id sec).
Proof.
  unfold reify_section. destruct (secs st !! s) as [so|]; [|done]. simpl.
  destruct (mapM _ (so_parts so)); [|done]. simpl. by intros [= <-].
Qed.

Lemma sim_so_id st1 st2 s :
  valid st1 -> valid st2 -> sim st1 st2 ->
  so_id <$> secs st1 !! s = so_id <$> secs st2 !! s.
Proof.
  intros Hv1 Hv2 S. destruct (decide (s < length (secs st1))) as [Hlt|Hge].
  - destruct (reify_section_is_Some st1 s (valid_secs _ Hv1) Hlt) as [sec Hsec].
    pose proof Hsec as Hsec2. rewrite (sim_sections _ _ S) in Hsec2.
    by rewrite (reify_section_so_id _ _ _ Hsec), (reify_section_so_id _ _ _ Hsec2).
  - rewrite (lookup_ge_None_2 (secs st1)) by lia.
    rewrite (lookup_ge_None_2 (secs st2)); [done|].
    rewrite <- (sim_secs_length _ _ S). lia.
Qed.

Lemma reify_section_fresh st s po id title y :
  secs st !! s = Some (mkSectionObj id title [length y]) ->
  parts st = y ++ [po] ->
  reify_section st s = Some (mkSection id title [po]).
Proof.
  intros Hs Hp. unfold reify_section. rewrite Hs. simpl.
  by rewrite Hp, list_lookup_middle.
Qed.

Module CountedSim.

Import Counted CountedPure CountedFacts CountedCases CountedTidy.

Lemma sim_section st1 st2 line :
  startsWith (trim line) (js "###") = true ->
  tidy st1 -> tidy st2 -> sim st1 st2 -> sim (step st1 line) (step st2 line).
Proof.
  intros H3 [Hv1 _ _] [Hv2 _ _] [Hl Hc Hb Hcc Hcb Hcs Hlen Hsec Hin].
  rewrite !section_state by done. cbv zeta.
  constructor; simpl_state; try done.
  - by rewrite Hcb, Hb, Hlen.
  - by rewrite Hlen.
  - rewrite !length_app. simpl. by rewrite Hlen.
  - intros s. destruct (decide (s < length (secs st1))) as [Hlt|Hge].
    + etrans; [|etrans; [exact (Hsec s)|symmetry]].
      * eapply reify_section_more_parts; [apply Hv1| |reflexivity].
        simpl_state. by apply lookup_app_l.
      * eapply reify_section_more_parts; [apply Hv2| |reflexivity].
        simpl_state. apply lookup_app_l. by rewrite <- Hlen.
    + destruct (decide (s = length (secs st1))) as [->|Hne].
      * etrans; [|symmetry].
        -- eapply reify_section_fresh; simpl_state; [|reflexivity].
           by apply list_lookup_middle.
        -- rewrite Hcb, Hb. eapply reify_section_fresh; simpl_state; [|reflexivity].
           by apply list_lookup_middle.
      * unfold reify_section. simpl_state.
        rewrite (lookup_ge_None_2 (secs st1 ++ _)) by (rewrite length_app; simpl; lia).
        rewrite (lookup_ge_None_2 (secs st2 ++ _)); [done|].
        rewrite length_app. simpl. lia.
Qed.

Lemma sim_book st1 st2 line :
  startsWith (trim line) (js "###") = false ->
  startsWith (trim line) (js "##") = true ->
  sim st1 st2 -> sim (step st1 line) (step st2 line).
Proof.
  intros H3 H2 [Hl Hc Hb Hcc Hcb Hcs Hlen Hsec Hin].
  rewrite !book_state by done. cbv zeta.
  constructor; simpl_state; rewrite ?Hcc, ?Hc, ?Hb; done.
Qed.

Lemma sim_category st1 st2 line :
  startsWith (trim line) (js "##") = false ->
  startsWith (trim line) (js "#") = true ->
  sim st1 st2 -> sim (step st1 line) (step st2 line).
Proof.
  intros H2 H1 [Hl Hc Hb Hcc Hcb Hcs Hlen Hsec Hin].
  rewrite !category_state by done. cbv zeta.
  constructor; simpl_state; rewrite ?Hl, ?Hc; done.
Qed.

Lemma sim_delimiter st1 st2 line :
  trim line = js "---" ->
  tidy st1 -> tidy st2 -> sim st1 st2 -> sim (step st1 line) (step st2 line).
Proof.
  intros Hd [Hv1 _ _] [Hv2 _ _] S.
  pose proof S as [Hl Hc Hb Hcc Hcb Hcs Hlen Hsec Hin].
  rewrite !delimiter_state by done.
  destruct (currentSection st1) as [s0|] eqn:E1.
  - assert (E2 : currentSection st2 = Some s0) by congruence. rewrite E2.
    destruct Hin as [Hlang Hpc]; [by eexists|].
    pose proof (sim_so_id st1 st2 s0 Hv1 Hv2 S) as Hid.
    cbn [mbind option_bind]. rewrite Hid, Hpc.
    constructor; simpl_state; try done.
    + by rewrite !length_alter.
    + intros s. destruct (decide (s = s0)) as [->|Hne].
      * etrans; [|symmetry].
        -- eapply (reify_section_push st1 _ s0 _ (valid_secs _ Hv1)); simpl_state;
             [apply list_lookup_alter_eq|reflexivity].
        -- rewrite Hsec.
           eapply (reify_section_push st2 _ s0 _ (valid_secs _ Hv2)); simpl_state;
             [apply list_lookup_alter_eq|reflexivity].
      * etrans; [|etrans; [exact (Hsec s)|symmetry]].
        -- eapply (reify_section_more_parts st1); [apply Hv1| |reflexivity].
           simpl_state. by apply list_lookup_alter_ne.
        -- eapply (reify_section_more_parts st2); [apply Hv2| |reflexivity].
           simpl_state. by apply list_lookup_alter_ne.
  - assert (E2 : currentSection st2 = None) by congruence. rewrite E2.
    constructor; simpl_state; try done.
    intros s. etrans; [|etrans; [exact (Hsec s)|symmetry]].
    + by eapply (reify_section_more_parts st1); [apply Hv1| |reflexivity].
    + by eapply (reify_section_more_parts st2); [apply Hv2| |reflexivity].
Qed.

Lemma sim_tag st1 st2 line l :
  languageTag (trim line) = Some l ->
  sim st1 st2 -> sim (step st1 line) (step st2 line).
Proof.
  intros Ht [Hl Hc Hb Hcc Hcb Hcs Hlen Hsec Hin].
  rewrite !(step_tag _ line l) by done.
  constructor; simpl_state; try done.
  intros Hs. split; [done|]. by apply Hin.
Qed.

(** A content line changes a part no section lists, or the last part of the
    current section. *)
Lemma content_unlisted st line s :
  isContent (trim line) = true -> tidy st -> currentSection st <> Some s ->
  reify_section (step st line) s = reify_section st s.
Proof.
  intros Hc T Hs. rewrite content_state by done.
  destruct (currentLang st) as [l|]; [|done].
  destruct (currentPart st) as [p|] eqn:Hp; [|done].
  apply reify_section_alter_other. intros so Hso.
  by eapply current_part_elsewhere.
Qed.

Lemma content_fields st line :
  isContent (trim line) = true ->
  library (step st line) = library st /\ cats (step st line) = cats st
  /\ books (step st line) = books st /\ secs (step st line) = secs st
  /\ currentCat (step st line) = currentCat st
  /\ currentBook (step st line) = currentBook st
  /\ currentSection (step st line) = currentSection st
  /\ currentLang (step st line) = currentLang st
  /\ partCount (step st line) = partCount st.
Proof.
  intros Hc. rewrite content_state by done.
  destruct (currentLang st) eqn:El; [destruct (currentPart st) eqn:Ep|];
    simpl_state; rewrite ?El, ?Ep; repeat split; done.
Qed.

Lemma sim_content st1 st2 line :
  isContent (trim line) = true ->
  tidy st1 -> tidy st2 -> sim st1 st2 -> sim (step st1 line) (step st2 line).
Proof.
  intros Hc T1 T2 [Hl Hcs Hb Hcc Hcb Hsc Hlen Hsec Hin].
  destruct (content_fields st1 line Hc) as (F1 & F2 & F3 & F4 & F5 & F6 & F7 & F8 & F9).
  destruct (content_fields st2 line Hc) as (G1 & G2 & G3 & G4 & G5 & G6 & G7 & G8 & G9).
  constructor; rewrite ?F1, ?F2, ?F3, ?F4, ?F5, ?F6, ?F7, ?F8, ?F9,
                       ?G1, ?G2, ?G3, ?G4, ?G5, ?G6, ?G7, ?G8, ?G9; try done.
  intros s.
  destruct (decide (currentSection st1 = Some s)) as [Hs|Hs].
  - destruct Hin as [Hlang Hpc]; [by eexists|].
    assert (Hs2 : currentSection st2 = Some s) by congruence.
    destruct (tidy_attached _ T1 s Hs) as (so1 & l1 & p1 & Hso1 & Hl1 & Hp1).
    destruct (tidy_attached _ T2 s Hs2) as (so2 & l2 & p2 & Hso2 & Hl2 & Hp2).
    destruct (current_part_once _ _ _ _ _ T1 Hs Hso1 Hl1) as [_ Hn1].
    destruct (current_part_once _ _ _ _ _ T2 Hs2 Hso2 Hl2) as [_ Hn2].
    rewrite !content_state by done. rewrite <- Hlang, Hp1, Hp2.
    destruct (currentLang st1) as [l|]; [|done].
    rewrite (reify_section_alter_last st1 s so1 l1 p1) by done.
    rewrite (reify_section_alter_last st2 s so2 l2 p2) by done.
    by rewrite Hsec.
  - rewrite (content_unlisted st1 line s) by done.
    rewrite (content_unlisted st2 line s); [done|done|done|congruence].
Qed.

Lemma step_sim st1 st2 line :
  tidy st1 -> tidy st2 -> sim st1 st2 -> sim (step st1 line) (step st2 line).
Proof.
  intros T1 T2 S.
  destruct (line_cases (trim line)) as [H3|[[H3 H2]|[[H2 H1]|[Hd|[[l Ht]|Hc]]]]].
  - by apply sim_section.
  - by apply sim_book.
  - by apply sim_category.
  - by apply sim_delimiter.
  - by eapply sim_tag.
  - by apply sim_content.
Qed.

Lemma run_sim lines st1 st2 :
  tidy st1 -> tidy st2 -> sim st1 st2 -> sim (run lines st1) (run lines st2).
Proof.
  revert st1 st2; induction lines as [|l ls IH]; intros st1 st2 T1 T2 S; simpl;
    [done|].
  apply IH; [by apply step_tidy|by apply step_tidy|by apply step_sim].
Qed.

(** States so related read back to the same library. *)
Lemma sim_reify st1 st2 : sim st1 st2 -> reify_library st1 = reify_library st2.
Proof.
  intros [Hl Hc Hb Hcc Hcb Hcs Hlen Hsec Hin].
  unfold reify_library. rewrite Hl.
  rewrite (mapM_ext (reify_cat st1) (reify_cat st2)); [done|].
  intros c. unfold reify_cat. rewrite Hc.
  destruct (cats st2 !! c) as [co|]; [|done]. simpl.
  destruct (co_children co) as [l|]; [|done].
  rewrite (mapM_ext (reify_book st1) (reify_book st2)); [done|].
  intros b. unfold reify_book. rewrite Hb.
  destruct (books st2 !! b) as [bo|]; [|done]. simpl.
  destruct (bo_sections bo) as [l'|]; [|done].
  by rewrite (mapM_ext (reify_section st1) (reify_section st2)).
Qed.

(** The delimiter read with no section current. *)
Lemma sim_orphan_delimiter st line :
  trim line = js "---" -> tidy st -> currentSection st = None ->
  sim st (step st line).
Proof.
  intros Hd [Hv _ _] Hs. rewrite delimiter_state by done. rewrite Hs.
  constructor; simpl_state; try done.
  - intros s. symmetry.
    by eapply (reify_section_more_parts st); [apply Hv| |reflexivity].
  - rewrite Hs. intros [s' Hs']. discriminate.
Qed.

End CountedSim.

(** ** Texts and their lines *)

Section JoinFacts.

Local Open Scope N_scope.

Lemma blank_join ls : blank (join_nl ls) = true -> Forall (fun l => blank l = true) ls.
Proof.
  induction ls as [|l ls IH]; [constructor|].
  destruct ls as [|l' ls]; simpl.
  - intros H. by repeat constructor.
  - unfold blank in *. rewrite forallb_app. simpl.
    rewrite !andb_true_iff. intros (Hl & Hrest). constructor; [done|].
    by apply IH.
Qed.

End JoinFacts.

Lemma Counted_step_blank st line :
  blank line = true -> currentLang st = None -> CountedPure.step st line = st.
Proof.
  intros Hb Hl. unfold CountedPure.step.
  apply trim_nil_iff in Hb. by rewrite Hb, Hl.
Qed.

Lemma Counted_run_blank ls st :
  Forall (fun l => blank l = true) ls -> currentLang st = None ->
  CountedPure.run ls st = st.
Proof.
  induction 1 as [|l ls Hl _ IH]; intros Hlang; simpl; [done|].
  rewrite Counted_step_blank by done. by apply IH.
Qed.

(** The parser on a text given by its lines. *)
Lemma Counted_parse_join ls :
  Forall (fun l => 10%N ∉ l) ls ->
  Counted.parseTextToLibrary (join_nl ls) = reify_library (CountedPure.run ls init).
Proof.
  intros Hnl. unfold Counted.parseTextToLibrary. rewrite truthy_trim, negb_involutive.
  destruct (blank (join_nl ls)) eqn:Hb.
  - apply blank_join in Hb. by rewrite Counted_run_blank.
  - assert (Hne : ls <> []) by (intros ->; discriminate).
    rewrite split_join by done.
    by rewrite CountedFacts.forEach_run by apply valid_init.
Qed.

(** ** The revision with a guarded [startNewPart] *)

Module GuardedFacts.

Import Guarded GuardedPure.

Lemma startNewPart_run st :
  cursor_ok (length (secs st)) (currentSection st) ->
  startNewPart st = Ok (startNewPart_pure st).
Proof.
  intros H. unfold startNewPart, startNewPart_pure, push_part.
  destruct (currentSection st) as [s|] eqn:E; [|done]. simpl.
  destruct (lookup_lt_is_Some_2 (secs st) s) as [so Hso]; [by apply H|].
  rewrite (deref_lookup _ _ _ Hso), Hso. simpl.
  by rewrite <- (insert_alter (add_part (length (parts st))) _ _ _ Hso).
Qed.

Lemma valid_startNewPart st : valid st -> valid (startNewPart_pure st).
Proof.
  intros H. unfold startNewPart_pure.
  destruct (currentSection st ≫= _); [by apply valid_push_part|done].
Qed.

Lemma guarded_step_valid st line : valid st -> valid (step st line).
Proof.
  intros H. unfold step.
  repeat match goal with |- context [if ?c then _ else _] => destruct c end;
    auto using valid_tagOrContent.
  - apply valid_set_currentLang, valid_startNewPart,
      valid_attach_section; [by apply valid_new_section|].
    simpl. rewrite length_app. simpl. lia.
  - apply valid_leave_section, valid_attach_book; [by apply valid_new_book|].
    simpl. rewrite length_app. simpl. lia.
  - by apply valid_leave_book, valid_new_category.
  - by apply valid_set_currentLang, valid_startNewPart.
Qed.

Lemma guarded_processLine_step st line : valid st -> processLine st line = Ok (step st line).
Proof.
  intros H. unfold processLine, step.
  repeat match goal with |- context [if ?c then _ else _] => destruct c end;
    try done.
  - rewrite currentBook_title_run by apply H. simpl.
    rewrite attach_section_run by apply (valid_new_section _ _ _ H). simpl.
    rewrite startNewPart_run; [done|].
    apply valid_attach_section; [by apply valid_new_section|].
    simpl. rewrite length_app. simpl. lia.
  - rewrite currentCat_title_run by apply H. simpl.
    by rewrite attach_book_run by apply (valid_new_book _ _ _ H).
  - by rewrite startNewPart_run by apply H.
  - apply tagOrContent_run, H.
Qed.

Lemma guarded_run_valid lines st : valid st -> valid (run lines st).
Proof.
  revert st; induction lines as [|l ls IH]; intros st H; simpl; [done|].
  by apply IH, guarded_step_valid.
Qed.

Lemma guarded_forEach_run lines st :
  valid st -> forEach processLine lines st = Ok (run lines st).
Proof.
  revert st; induction lines as [|l ls IH]; intros st H; simpl; [done|].
  rewrite guarded_processLine_step by done. simpl. by apply IH, guarded_step_valid.
Qed.

Lemma parse_join ls :
  Forall (fun l => 10%N ∉ l) ls ->
  parseTextToLibrary (join_nl ls) = reify_library (run ls init).
Proof.
  intros Hnl. unfold parseTextToLibrary.
  destruct ls as [|l ls]; [reflexivity|].
  rewrite split_join by done.
  by rewrite guarded_forEach_run by apply valid_init.
Qed.

(** A change of the current language alone goes through every statement. *)
Lemma startNewPart_lang l st :
  startNewPart_pure (set_currentLang l st) = set_currentLang l (startNewPart_pure st).
Proof.
  unfold startNewPart_pure, push_part. simpl_state.
  destruct (currentSection st ≫= _); [|done]. by destruct (currentSection st).
Qed.

Lemma attach_section_lang s l st :
  attach_section_pure s (set_currentLang l st)
  = set_currentLang l (attach_section_pure s st).
Proof. unfold attach_section_pure. simpl_state. by destruct (currentBook st). Qed.

Lemma attach_book_lang b l st :
  attach_book_pure b (set_currentLang l st)
  = set_currentLang l (attach_book_pure b st).
Proof. unfold attach_book_pure. simpl_state. by destruct (currentCat st). Qed.

Lemma step_same_but_lang st1 st2 line :
  same_but_lang st1 st2 -> same_but_lang (step st1 line) (step st2 line).
Proof.
  intros [->|[Hp ->]]; [by left|].
  generalize (currentLang st2). intros l. unfold step.
  repeat match goal with |- context [if ?c then _ else _] => destruct c end.
  - left. simpl_state.
    change (new_section ?id ?t (set_currentLang l st1))
      with (set_currentLang l (new_section id t st1)).
    by rewrite attach_section_lang, startNewPart_lang.
  - right. simpl_state.
    change (new_book ?id ?t (set_currentLang l st1))
      with (set_currentLang l (new_book id t st1)).
    rewrite attach_book_lang. split; reflexivity.
  - right. split; reflexivity.
  - left. by rewrite startNewPart_lang.
  - unfold tagOrContent_pure. simpl_state. rewrite Hp.
    destruct (languageTag (trim line)); [by left|].
    right. by destruct l, (currentLang st1).
Qed.

Lemma run_same_but_lang lines st1 st2 :
  same_but_lang st1 st2 -> same_but_lang (run lines st1) (run lines st2).
Proof.
  revert st1 st2; induction lines as [|l ls IH]; intros st1 st2 H; simpl; [done|].
  by apply IH, step_same_but_lang.
Qed.

Lemma same_but_lang_reify st1 st2 :
  same_but_lang st1 st2 -> reify_library st1 = reify_library st2.
Proof. intros [->|[_ ->]]; reflexivity. Qed.

(** No section is current without a part being current, and conversely. *)
Lemma step_no_section st line :
  (currentSection st = None -> currentPart st = None) ->
  currentSection (step st line) = None -> currentPart (step st line) = None.
Proof.
  intros H. unfold step.
  repeat match goal with |- context [if ?c then _ else _] => destruct c end;
    try done.
  - simpl_state. unfold startNewPart_pure.
    match goal with |- context [attach_section_pure ?s ?x] =>
      destruct (attach_section_pure_fields s x) as (_ & Es & _ & _ & _ & _ & Ecs & _)
    end.
    rewrite Ecs, Es. simpl_state. cbn [mbind option_bind].
    rewrite list_lookup_middle by done.
    match goal with |- context [push_part ?po ?x] =>
      destruct (push_part_fields po x) as (_ & _ & _ & _ & _ & _ & -> & _)
    end. rewrite Ecs. simpl_state. discriminate.
  - simpl_state. unfold startNewPart_pure.
    destruct (currentSection st) as [s|] eqn:E; simpl; [|by rewrite E; auto].
    destruct (secs st !! s); [|by rewrite E].
    match goal with |- context [push_part ?po ?x] =>
      destruct (push_part_fields po x) as (_ & _ & _ & _ & _ & _ & -> & _)
    end. by rewrite E.
  - destruct (tagOrContent_pure_fields (trim line) st)
      as (_ & _ & _ & _ & _ & _ & -> & -> & _). exact H.
Qed.

Lemma run_no_section lines st :
  (currentSection st = None -> currentPart st = None) ->
  currentSection (run lines st) = None -> currentPart (run lines st) = None.
Proof.
  revert st; induction lines as [|l ls IH]; intros st H; simpl; [done|].
  by apply IH, step_no_section.
Qed.

End GuardedFacts.

(** ** The delimiter with no section current *)

Lemma Forall_without {A} (P : A -> Prop) pre d post :
  Forall P (pre ++ d :: post) -> Forall P (pre ++ post).
Proof.
  rewrite !Forall_app, Forall_cons. intros (? & _ & ?). by split.
Qed.

(** C7.  In a text whose lines are [pre], then a delimiter line, then
    [post], with no section current after [pre]: the delimiter line adds no
    part to any section and throws nothing, and the library returned for the
    text is the one returned for the text without that line.  In the revision
    with a guarded [startNewPart] the line resets the current language and
    nothing else; in the revision with a part counter it also allocates a
    part object, which becomes the current part and which no section, hence
    no library, ever lists. *)
Theorem delimiter_without_section (text : jsstring) (pre post : list jsstring)
    (d : jsstring)
    (Hsplit : split_nl text = pre ++ d :: post)
    (Hd : trim d = js "---") :
  (forall st,
     forEach Counted.processLine pre init = Ok st -> currentSection st = None ->
     (exists st',
        Counted.processLine st d = Ok st'
        /\ library st' = library st /\ cats st' = cats st
        /\ books st' = books st /\ secs st' = secs st
        /\ currentSection st' = None
        /\ currentPart st' = Some (length (parts st)))
     /\ exists lib,
          Counted.parseTextToLibrary text = Ok lib
          /\ Counted.parseTextToLibrary (join_nl (pre ++ post)) = Ok lib)
  /\ (forall st,
        forEach Guarded.processLine pre init = Ok st -> currentSection st = None ->
        Guarded.processLine st d = Ok (set_currentLang None st)
        /\ exists lib,
             Guarded.parseTextToLibrary text = Ok lib
             /\ Guarded.parseTextToLibrary (join_nl (pre ++ post)) = Ok lib).
Proof.
  assert (Hnl : Forall (fun l => 10%N ∉ l) (pre ++ d :: post))
    by (rewrite <- Hsplit; apply split_nl_no_lf).
  pose proof (Forall_without _ _ _ _ Hnl) as Hnl'.
  rewrite <- (join_split text), Hsplit.
  split.
  - intros st Hrun Hs.
    rewrite CountedFacts.forEach_run in Hrun by apply valid_init.
    injection Hrun as <-.
    pose proof (CountedTidy.run_tidy pre init tidy_init) as T.
    split.
    + exists (CountedPure.step (CountedPure.run pre init) d).
      split; [apply CountedFacts.processLine_step, T|].
      rewrite CountedCases.delimiter_state by done. rewrite Hs. by simpl_state.
    + rewrite !Counted_parse_join by done.
      unfold CountedPure.run. rewrite !fold_left_app. simpl.
      pose proof (CountedSim.sim_orphan_delimiter _ d Hd T Hs) as S.
      apply (CountedSim.run_sim post) in S;
        [|done|by apply CountedTidy.step_tidy].
      apply CountedSim.sim_reify in S. unfold CountedPure.run in S.
      rewrite <- S.
      destruct (reify_library_ok (fold_left CountedPure.step post
                                    (fold_left CountedPure.step pre init)))
        as [lib Hlib]; [apply (CountedFacts.run_valid post), T|].
      by exists lib.
  - intros st Hrun Hs.
    rewrite GuardedFacts.guarded_forEach_run in Hrun by apply valid_init.
    injection Hrun as <-.
    pose proof (GuardedFacts.guarded_run_valid pre init valid_init) as Hv.
    assert (Hstep : GuardedPure.step (GuardedPure.run pre init) d
                    = set_currentLang None (GuardedPure.run pre init)).
    { unfold GuardedPure.step, GuardedPure.startNewPart_pure. by rewrite Hd, Hs. }
    split.
    + rewrite GuardedFacts.guarded_processLine_step by done. by rewrite Hstep.
    + rewrite !GuardedFacts.parse_join by done.
      unfold GuardedPure.run. rewrite !fold_left_app. simpl.
      fold (GuardedPure.run pre init). rewrite Hstep.
      assert (S : same_but_lang (GuardedPure.run pre init)
                    (set_currentLang None (GuardedPure.run pre init))).
      { right. split; [|done]. by apply GuardedFacts.run_no_section. }
      apply (GuardedFacts.run_same_but_lang post) in S.
      apply GuardedFacts.same_but_lang_reify in S. unfold GuardedPure.run in *.
      rewrite <- S.
      destruct (reify_library_ok (fold_left GuardedPure.step post
                                    (fold_left GuardedPure.step pre init)))
        as [lib Hlib]; [by apply (GuardedFacts.guarded_run_valid post)|].
      by exists lib.
Qed.

Lemma delimiter_without_section_witness :
  exists lib,
    Counted.parseTextToLibrary (js "# C
## B
 ---
[EN]
x
### S
[EN]
y") = Ok lib
    /\ Counted.parseTextToLibrary (js "# C
## B
[EN]
x
### S
[EN]
y") = Ok lib.
Proof.
  destruct (delimiter_without_section (js "# C
## B
 ---
[EN]
x
### S
[EN]
y") [js "# C"; js "## B"]
              [js "[EN]"; js "x"; js "### S"; js "[EN]"; js "y"] (js " ---"))
    as [H _].
  - reflexivity.
  - reflexivity.
  - destruct (H (CountedPure.run [js "# C"; js "## B"] init)) as [_ Hlib].
    + apply CountedFacts.forEach_run, valid_init.
    + reflexivity.
    + exact Hlib.
Defined.

(** ** Identifiers drawn at random *)

(** What the shared statements leave alone, exceptions included. *)
Lemma attach_section_cats s st st' :
  attach_section s st = Ok st' ->
  cats st' = cats st /\ library st' = library st /\ draws st' = draws st.
Proof.
  unfold attach_section. destruct (currentBook st) as [b|]; [|by intros [= <-]].
  destruct (deref (books st) b) as [bo|]; [|done]. simpl.
  destruct (push _ s); [|done]. simpl. by intros [= <-].
Qed.

Lemma attach_book_cats b st st' :
  attach_book b st = Ok st' ->
  library st' = library st /\ draws st' = draws st
  /\ (cats st' = cats st
      \/ exists c co l, cats st !! c = Some co
                        /\ cats st' = <[c := set_children l co]> (cats st)).
Proof.
  unfold attach_book. destruct (currentCat st) as [c|]; [|intros [= <-]; auto].
  unfold deref. destruct (cats st !! c) as [co|] eqn:Hco; [|done]. simpl.
  destruct (push _ b) as [l|]; [|done]. simpl. intros [= <-].
  repeat split. right. by exists c, co, l.
Qed.

Lemma tagOrContent_cats t st st' :
  tagOrContent t st = Ok st' ->
  cats st' = cats st /\ library st' = library st /\ draws st' = draws st.
Proof.
  unfold tagOrContent. destruct (languageTag t); [by intros [= <-]|].
  destruct (currentLang st) as [l|]; [|by intros [= <-]].
  destruct (currentPart st) as [p|]; [|by intros [= <-]].
  unfold appendLine. destruct (deref (parts st) p) as [po|]; [|done]. simpl.
  match goal with |- context [bind ?m _] => destruct m end; [|done].
  simpl. by intros [= <-].
Qed.

Module RandomFacts.

Import Random.

Lemma createNewPart_cats random st st' :
  createNewPart random st = Ok st' ->
  cats st' = cats st /\ library st' = library st /\ draws st' = S (draws st).
Proof.
  unfold createNewPart, draw. simpl_state.
  destruct (currentSection st) as [s|]; [|by intros [= <-]].
  destruct (deref _ s) as [so|]; [|done]. simpl. by intros [= <-].
Qed.

Lemma same_draws_fields r1 r2 st1 st2 st1' st2' n :
  same_draws r1 r2 st1 st2 ->
  cats st1' = cats st1 -> library st1' = library st1 -> draws st1' = n + draws st1 ->
  cats st2' = cats st2 -> library st2' = library st2 -> draws st2' = n + draws st2 ->
  same_draws r1 r2 st1' st2'.
Proof.
  intros [Hd Hl Hn Hi] Hc1 Hl1 Hd1 Hc2 Hl2 Hd2.
  constructor; rewrite ?Hc1, ?Hl1, ?Hd1, ?Hc2, ?Hl2, ?Hd2; auto.
Qed.

(** An assignment that keeps the identifier leaves the relation alone. *)
Lemma same_draws_insert (r1 r2 : nat -> jsstring) (cats1 cats2 : list CatObj) c co l :
  (forall c co1 co2, cats1 !! c = Some co1 -> cats2 !! c = Some co2 ->
                     exists k, co_id co1 = r1 k /\ co_id co2 = r2 k) ->
  cats1 !! c = Some co ->
  forall c' co1 co2,
    <[c := set_children l co]> cats1 !! c' = Some co1 -> cats2 !! c' = Some co2 ->
    exists k, co_id co1 = r1 k /\ co_id co2 = r2 k.
Proof.
  intros H Hco c' co1 co2 H1 H2.
  destruct (decide (c = c')) as [<-|Hne].
  - rewrite list_lookup_insert_eq in H1 by (by eapply lookup_lt_Some).
    injection H1 as <-. simpl. by eapply H.
  - rewrite list_lookup_insert_ne in H1 by done. by eapply H.
Qed.

Lemma same_draws_sym_ids (r1 r2 : nat -> jsstring) (cats1 cats2 : list CatObj) :
  (forall c co1 co2, cats1 !! c = Some co1 -> cats2 !! c = Some co2 ->
                     exists k, co_id co1 = r1 k /\ co_id co2 = r2 k) ->
  forall c co2 co1, cats2 !! c = Some co2 -> cats1 !! c = Some co1 ->
                    exists k, co_id co2 = r2 k /\ co_id co1 = r1 k.
Proof. intros H c co2 co1 H2 H1. destruct (H c co1 co2 H1 H2) as (k & ? & ?). eauto. Qed.

Lemma processLine_same_draws r1 r2 st1 st2 st1' st2' line :
  same_draws r1 r2 st1 st2 ->
  processLine r1 st1 line = Ok st1' -> processLine r2 st2 line = Ok st2' ->
  same_draws r1 r2 st1' st2'.
Proof.
  intros S. unfold processLine.
  destruct (startsWith (trim line) (js "###")) eqn:H3.
  { assert (Ht : truthy (trim line) = true)
      by (by apply (startsWith_truthy _ (js "###"))).
    rewrite Ht. simpl negb. rewrite !andb_false_l. unfold draw. simpl_state.
    intros H1 H2.
    destruct (attach_section _ _) as [a1|] eqn:A1 in H1; [|done].
    destruct (attach_section _ _) as [a2|] eqn:A2 in H2; [|done].
    simpl in H1, H2.
    destruct (createNewPart r1 a1) as [b1|] eqn:B1; [|done].
    destruct (createNewPart r2 a2) as [b2|] eqn:B2; [|done].
    simpl in H1, H2. injection H1 as <-. injection H2 as <-.
    apply attach_section_cats in A1 as (Ac1 & Al1 & Ad1).
    apply attach_section_cats in A2 as (Ac2 & Al2 & Ad2).
    apply createNewPart_cats in B1 as (Bc1 & Bl1 & Bd1).
    apply createNewPart_cats in B2 as (Bc2 & Bl2 & Bd2).
    simpl_state.
    apply (same_draws_fields r1 r2 st1 st2 _ _ 2 S); simpl_state;
      cbn [Nat.add]; congruence. }
  destruct (startsWith (trim line) (js "##")) eqn:H2.
  { assert (Ht : truthy (trim line) = true)
      by (by apply (startsWith_truthy _ (js "##"))).
    rewrite Ht. simpl negb. rewrite !andb_false_l. unfold draw. simpl_state.
    intros H1 H2'.
    destruct (attach_book _ _) as [a1|] eqn:A1 in H1; [|done].
    destruct (attach_book _ _) as [a2|] eqn:A2 in H2'; [|done].
    simpl in H1, H2'. injection H1 as <-. injection H2' as <-.
    apply attach_book_cats in A1 as (Al1 & Ad1 & Ac1).
    apply attach_book_cats in A2 as (Al2 & Ad2 & Ac2).
    simpl_state. destruct S as [Hd Hl Hn Hi].
    constructor; simpl_state; rewrite ?Al1, ?Al2, ?Ad1, ?Ad2; auto.
    - destruct Ac1 as [->|(c1 & co1 & l1 & _ & ->)],
               Ac2 as [->|(c2 & co2 & l2 & _ & ->)];
        by rewrite ?length_insert.
    - destruct Ac1 as [->|(c1 & co1 & l1 & Hco1 & ->)].
      + destruct Ac2 as [->|(c2 & co2 & l2 & Hco2 & ->)]; [done|].
        intros c a b Ha Hb.
        destruct (same_draws_insert r2 r1 (cats st2) (cats st1) c2 co2 l2
                    (same_draws_sym_ids _ _ _ _ Hi) Hco2 c b a Hb Ha)
          as (k & ? & ?). eauto.
      + destruct Ac2 as [->|(c2 & co2 & l2 & Hco2 & ->)].
        * by apply same_draws_insert.
        * intros c a b Ha Hb.
          assert (Hmid : forall c' a' b',
                    <[c1 := set_children l1 co1]> (cats st1) !! c' = Some a' ->
                    cats st2 !! c' = Some b' ->
                    exists k, co_id a' = r1 k /\ co_id b' = r2 k)
            by (by apply same_draws_insert).
          destruct (same_draws_insert r2 r1 (cats st2) _ c2 co2 l2
                      (same_draws_sym_ids _ _ _ _ Hmid) Hco2 c b a Hb Ha)
            as (k & ? & ?). eauto. }
  destruct (startsWith (trim line) (js "#")) eqn:H1.
  { assert (Ht : truthy (trim line) = true)
      by (by apply (startsWith_truthy _ (js "#"))).
    rewrite Ht. simpl negb. rewrite !andb_false_l. unfold draw. simpl_state.
    intros [= <-] [= <-]. destruct S as [Hd Hl Hn Hi].
    constructor; simpl_state; rewrite ?length_app, ?Hd, ?Hl, ?Hn; auto.
    intros c a b Ha Hb.
    apply lookup_app_Some in Ha as [Ha|[Hge Ha]];
      apply lookup_app_Some in Hb as [Hb|[Hge' Hb]].
    - by eapply Hi.
    - apply lookup_lt_Some in Ha. lia.
    - apply lookup_lt_Some in Hb. lia.
    - apply list_lookup_singleton_Some in Ha as [_ <-].
      apply list_lookup_singleton_Some in Hb as [_ <-]. simpl.
      by exists (draws st2). }
  destruct (eqb (trim line) (js "---")) eqn:Hdel.
  { apply eqb_eq in Hdel. rewrite Hdel. simpl.
    intros Hr1 Hr2.
    destruct (createNewPart r1 st1) as [b1|] eqn:B1; [|done].
    destruct (createNewPart r2 st2) as [b2|] eqn:B2; [|done].
    simpl in Hr1, Hr2. injection Hr1 as <-. injection Hr2 as <-.
    apply createNewPart_cats in B1 as (Bc1 & Bl1 & Bd1).
    apply createNewPart_cats in B2 as (Bc2 & Bl2 & Bd2).
    apply (same_draws_fields r1 r2 st1 st2 _ _ 1 S); simpl_state;
      cbn [Nat.add]; congruence. }
  intros Hr1 Hr2.
  assert (K1 : cats st1' = cats st1 /\ library st1' = library st1
               /\ draws st1' = draws st1).
  { destruct (negb (truthy (trim line)) && isNull (currentLang st1)).
    - by injection Hr1 as <-.
    - by apply tagOrContent_cats in Hr1. }
  assert (K2 : cats st2' = cats st2 /\ library st2' = library st2
               /\ draws st2' = draws st2).
  { destruct (negb (truthy (trim line)) && isNull (currentLang st2)).
    - by injection Hr2 as <-.
    - by apply tagOrContent_cats in Hr2. }
  destruct K1 as (? & ? & ?), K2 as (? & ? & ?).
  by apply (same_draws_fields r1 r2 st1 st2 _ _ 0 S).
Qed.

Lemma forEach_same_draws r1 r2 lines : forall st1 st2 st1' st2',
  same_draws r1 r2 st1 st2 ->
  forEach (processLine r1) lines st1 = Ok st1' ->
  forEach (processLine r2) lines st2 = Ok st2' ->
  same_draws r1 r2 st1' st2'.
Proof.
  induction lines as [|l ls IH]; intros st1 st2 st1' st2' S; simpl.
  - by intros [= <-] [= <-].
  - destruct (processLine r1 st1 l) as [a1|] eqn:A1; [|done].
    destruct (processLine r2 st2 l) as [a2|] eqn:A2; [|done]. simpl.
    apply IH. by eapply processLine_same_draws.
Qed.

Lemma same_draws_init r1 r2 : same_draws r1 r2 init init.
Proof. by constructor. Qed.

Lemma reify_cat_id st c it :
  reify_cat st c = Some it -> exists co, cats st !! c = Some co /\ item_id it = co_id co.
Proof.
  unfold reify_cat. destruct (cats st !! c) as [co|]; [|done]. simpl.
  destruct (co_children co) as [l|]; simpl.
  - destruct (mapM (reify_book st) l); [|done]. simpl. intros [= <-]. by exists co.
  - intros [= <-]. by exists co.
Qed.

(** The first category of two libraries so related. *)
Lemma same_draws_reify r1 r2 st1 st2 lib1 lib2 :
  same_draws r1 r2 st1 st2 ->
  reify_library st1 = Ok lib1 -> reify_library st2 = Ok lib2 ->
  lib1 <> [] ->
  exists k rest1 rest2 it1 it2,
    lib1 = it1 :: rest1 /\ lib2 = it2 :: rest2
    /\ item_id it1 = r1 k /\ item_id it2 = r2 k.
Proof.
  intros [Hd Hl Hn Hi] H1 H2 Hne. unfold reify_library in *. rewrite <- Hl in H2.
  destruct (mapM (reify_cat st1) (library st1)) as [l1|] eqn:M1; [|done].
  injection H1 as <-.
  destruct (mapM (reify_cat st2) (library st1)) as [l2|] eqn:M2; [|done].
  injection H2 as <-.
  destruct (library st1) as [|c cs].
  { simpl in M1. injection M1 as <-. done. }
  simpl in M1, M2.
  destruct (reify_cat st1 c) as [it1|] eqn:R1; [|done].
  destruct (reify_cat st2 c) as [it2|] eqn:R2; [|done]. simpl in M1, M2.
  destruct (mapM (reify_cat st1) cs) as [rest1|]; [|done].
  destruct (mapM (reify_cat st2) cs) as [rest2|]; [|done].
  simpl in M1, M2. injection M1 as <-. injection M2 as <-.
  apply reify_cat_id in R1 as (co1 & Hco1 & Hid1).
  apply reify_cat_id in R2 as (co2 & Hco2 & Hid2).
  destruct (Hi c co1 co2 Hco1 Hco2) as (k & Hk1 & Hk2).
  exists k, rest1, rest2, it1, it2. repeat split; congruence.
Qed.

End RandomFacts.

(** C1, on the revision with random identifiers.  Every identifier of the
    library is a draw of [Math.random]: the category, the book, the section
    and the part of a text carry the first four draws of the call.  Two
    calls on the same text whose draws differ return different libraries:
    so it is for the text of one category, and for every text whose library
    has a category when the draws of the two calls differ one by one.  The
    revision with slug identifiers gives that category the identifier made
    from its title. *)
Theorem random_identifiers_differ :
  (forall random,
     Random.parseTextToLibrary random (js "# Cat
## Book
### Sec
[EN]
Hello")
     = Ok [mkItem (random 0) (js "Cat") category
             (Some [mkItem (random 1) (js "Book") book None
                      (Some [mkSection (random 2) (js "Sec")
                               [mkPart (random 3) prayer
                                  [(ENGLISH, [js "Hello"])]]])])
             None])
  /\ Random.parseTextToLibrary (fun _ => js "k3x9q0a7m") (js "# Cat")
     <> Random.parseTextToLibrary (fun _ => js "p5d1z8w2c") (js "# Cat")
  /\ (forall text r1 r2 lib,
        (forall n, r1 n <> r2 n) ->
        Random.parseTextToLibrary r1 text = Ok lib -> lib <> [] ->
        Random.parseTextToLibrary r2 text <> Ok lib)
  /\ Counted.parseTextToLibrary (js "# Cat")
     = Ok [mkItem (js "cat-cat") (js "Cat") category (Some []) None].
Proof.
  split; [|split; [|split]].
  - intros random. vm_compute. reflexivity.
  - vm_compute. discriminate.
  - intros text r1 r2 lib Hr H1 Hne H2. unfold Random.parseTextToLibrary in *.
    destruct (negb (truthy (trim text))); [by injection H1 as <-|].
    destruct (forEach (Random.processLine r1) _ init) as [st1|] eqn:E1; [|done].
    destruct (forEach (Random.processLine r2) _ init) as [st2|] eqn:E2; [|done].
    simpl in H1, H2.
    pose proof (RandomFacts.forEach_same_draws r1 r2 _ _ _ _ _
                  (RandomFacts.same_draws_init r1 r2) E1 E2) as S.
    destruct (RandomFacts.same_draws_reify _ _ _ _ _ _ S H1 H2 Hne)
      as (k & rest1 & rest2 & it1 & it2 & -> & Heq & Hk1 & Hk2).
    injection Heq as <- _. apply (Hr k). congruence.
  - vm_compute. reflexivity.
Qed.

(** ** Slugs *)

Section SlugFacts.

Local Open Scope N_scope.

#[local] Arguments hyphen : simpl never.

Ltac chars :=
  repeat match goal with
         | H : context [N.leb ?a ?b] |- _ => destruct (N.leb_spec a b)
         | H : context [N.eqb ?a ?b] |- _ => destruct (N.eqb_spec a b)
         | |- context [N.leb ?a ?b] => destruct (N.leb_spec a b)
         | |- context [N.eqb ?a ?b] => destruct (N.eqb_spec a b)
         end;
  simpl in *; try done; try lia.

Lemma forallb_Forall_eq {A} (f : A -> bool) l :
  forallb f l = true <-> Forall (fun x => f x = true) l.
Proof.
  induction l as [|x l IH]; simpl; [by split; constructor|].
  by rewrite andb_true_iff, IH, Forall_cons.
Qed.

Lemma Forall_trimStart (P : N -> Prop) s : Forall P s -> Forall P (trimStart s).
Proof.
  induction 1 as [|c r Hc Hr IH]; simpl; [constructor|].
  destruct (isWhite c); [done|by constructor].
Qed.

Lemma Forall_trim (P : N -> Prop) s : Forall P s -> Forall P (trim s).
Proof.
  intros H. unfold trim, trimEnd.
  apply Forall_rev, Forall_trimStart, Forall_rev, Forall_trimStart, H.
Qed.

Lemma Forall_dropHyphens (P : N -> Prop) s : Forall P s -> Forall P (dropHyphens s).
Proof.
  induction 1 as [|c r Hc Hr IH]; cbn [dropHyphens]; [constructor|].
  destruct (c =? hyphen); [done|by constructor].
Qed.

Lemma Forall_strip_hyphens (P : N -> Prop) s : Forall P s -> Forall P (strip_hyphens s).
Proof.
  intros H. unfold strip_hyphens.
  apply Forall_rev, Forall_dropHyphens, Forall_rev, Forall_dropHyphens, H.
Qed.

Lemma toLowerCase_notUpper t : Forall notUpper (toLowerCase t).
Proof.
  unfold toLowerCase, notUpper. induction t as [|c t IH]; simpl; [constructor|].
  apply Forall_app; split; [|done]. unfold lower1.
  chars; repeat constructor; lia.
Qed.

Lemma strip_other_chars s :
  Forall notUpper s ->
  Forall (fun c => isSlugChar c = true \/ isSep c = true) (strip_other s).
Proof.
  unfold strip_other, notUpper. induction 1 as [|c r Hc Hr IH]; simpl; [constructor|].
  destruct (isWord c || isWhite c || (c =? hyphen)) eqn:E; [|done].
  constructor; [|done]. clear IH Hr.
  unfold isSep. destruct (isWhite c); [by right|]. simpl in *.
  unfold isWord, isSlugChar, hyphen in *. chars; auto.
Qed.

Lemma collapse_chars b s :
  Forall (fun c => isSlugChar c = true \/ isSep c = true) s ->
  Forall (fun c => isSlugChar c = true) (collapse b s).
Proof.
  intros H. revert b. induction H as [|c r Hc Hr IH]; intros b; simpl; [constructor|].
  destruct (isSep c) eqn:E.
  - destruct b; [apply IH|]. constructor; [done|apply IH].
  - constructor; [|apply IH]. by destruct Hc.
Qed.

Lemma slugify_chars t : Forall (fun c => isSlugChar c = true) (slugify t).
Proof.
  unfold slugify. apply Forall_strip_hyphens, collapse_chars, strip_other_chars.
  apply Forall_trim, toLowerCase_notUpper.
Qed.

Lemma startsWith_hyphen s :
  startsWith s [hyphen] = true <-> exists r, s = hyphen :: r.
Proof.
  destruct s as [|c r]; cbn [startsWith].
  - split; [done|]. by intros [r Hr].
  - rewrite andb_true_r, N.eqb_eq. split.
    + intros <-. by exists r.
    + by intros [r' [= -> _]].
Qed.

Lemma no_hyphen_pair_spec s : no_hyphen_pair s = true <-> pairless s.
Proof.
  unfold pairless. induction s as [|a r IH]; simpl.
  - split; [|done]. intros _ p q H. by destruct p.
  - rewrite andb_true_iff, negb_true_iff, IH. split.
    + intros [H1 H2] p q E. destruct p as [|x p]; simpl in E.
      * injection E as -> ->. by rewrite N.eqb_refl in H1.
      * injection E as -> E. by apply (H2 p q).
    + intros H. split.
      * destruct (a =? hyphen) eqn:Ea; [|done]. simpl.
        destruct (startsWith r [hyphen]) eqn:Er; [|done].
        apply N.eqb_eq in Ea. apply startsWith_hyphen in Er as [r' ->].
        subst a. by destruct (H [] r').
      * intros p q E. apply (H (a :: p) q). by rewrite E.
Qed.

Lemma pairless_rev s : pairless s -> pairless (rev s).
Proof.
  intros H p q E. apply (H (rev q) (rev p)).
  rewrite <- (rev_involutive s), E, rev_app_distr. simpl.
  by rewrite <- !app_assoc.
Qed.

Lemma dropHyphens_suffix s : exists p, s = p ++ dropHyphens s.
Proof.
  induction s as [|c r [p IH]]; cbn [dropHyphens]; [by exists []|].
  destruct (c =? hyphen); [|by exists []].
  exists (c :: p). simpl. by rewrite <- IH.
Qed.

Lemma pairless_suffix p s : pairless (p ++ s) -> pairless s.
Proof. intros H p' q E. apply (H (p ++ p') q). by rewrite E, app_assoc. Qed.

Lemma pairless_dropHyphens s : pairless s -> pairless (dropHyphens s).
Proof.
  intros H. destruct (dropHyphens_suffix s) as [p E]. rewrite E in H.
  by apply pairless_suffix in H.
Qed.

Lemma collapse_pairless b s :
  no_hyphen_pair (collapse b s) = true
  /\ (b = true -> startsWith (collapse b s) [hyphen] = false).
Proof.
  revert b. induction s as [|c r IH]; intros b; cbn [collapse]; [done|].
  destruct (isSep c) eqn:E.
  - destruct b.
    + apply IH.
    + split; [|done]. cbn [no_hyphen_pair]. rewrite N.eqb_refl.
      destruct (IH true) as [H1 H2]. by rewrite H1, (H2 eq_refl).
  - assert ((c =? hyphen) = false) as Hc.
    { unfold isSep in E. by destruct (isWhite c), (c =? 95), (c =? hyphen). }
    split.
    + cbn [no_hyphen_pair]. rewrite Hc. simpl. apply IH.
    + intros _. cbn [startsWith]. by rewrite N.eqb_sym, Hc.
Qed.

Lemma dropHyphens_head s : startsWith (dropHyphens s) [hyphen] = false.
Proof.
  induction s as [|c r IH]; cbn [dropHyphens]; [done|].
  destruct (c =? hyphen) eqn:E; [done|]. cbn [startsWith]. by rewrite N.eqb_sym, E.
Qed.

Lemma strip_hyphens_ends s :
  startsWith (strip_hyphens s) [hyphen] = false
  /\ startsWith (rev (strip_hyphens s)) [hyphen] = false.
Proof.
  unfold strip_hyphens. split.
  - destruct (dropHyphens_suffix (rev (dropHyphens s))) as [p E].
    apply (f_equal (@rev N)) in E. rewrite rev_involutive, rev_app_distr in E.
    destruct (startsWith (rev (dropHyphens (rev (dropHyphens s)))) [hyphen]) eqn:F; [|done].
    apply startsWith_hyphen in F as [r F]. rewrite F in E. simpl in E.
    pose proof (dropHyphens_head s) as G. rewrite E in G.
    cbn [startsWith] in G. by rewrite N.eqb_refl in G.
  - rewrite rev_involutive. apply dropHyphens_head.
Qed.

Lemma slugify_is_slug t : is_slug (slugify t) = true.
Proof.
  unfold is_slug. rewrite !andb_true_iff, !negb_true_iff. repeat split.
  - apply forallb_Forall_eq, slugify_chars.
  - apply strip_hyphens_ends.
  - apply strip_hyphens_ends.
  - unfold slugify, strip_hyphens. apply no_hyphen_pair_spec.
    apply pairless_rev, pairless_dropHyphens, pairless_rev, pairless_dropHyphens.
    apply no_hyphen_pair_spec, collapse_pairless.
Qed.

Ltac decide_cmp :=
  repeat match goal with
         | |- context [N.leb ?a ?b] =>
             first [ replace (N.leb a b) with true by (symmetry; apply N.leb_le; lia)
                   | replace (N.leb a b) with false by (symmetry; apply N.leb_gt; lia) ]
         | |- context [N.eqb ?a ?b] =>
             first [ replace (N.eqb a b) with true by (symmetry; apply N.eqb_eq; lia)
                   | replace (N.eqb a b) with false by (symmetry; apply N.eqb_neq; lia) ]
         end.

Lemma isSlugChar_spec c :
  isSlugChar c = true <-> 48 <= c <= 57 \/ 97 <= c <= 122 \/ c = 45.
Proof.
  unfold isSlugChar, hyphen.
  rewrite !orb_true_iff, !andb_true_iff, !N.leb_le, N.eqb_eq. tauto.
Qed.

Lemma isLatin_spec c :
  isLatin c = true
  <-> 48 <= c <= 57 \/ 65 <= c <= 90 \/ 97 <= c <= 122 \/ c = 304 \/ c = 8490.
Proof.
  unfold isLatin.
  rewrite !orb_true_iff, !andb_true_iff, !N.leb_le, !N.eqb_eq. tauto.
Qed.

Lemma slug_char_plain c :
  isSlugChar c = true ->
  lower1 c = [c] /\ isWhite c = false
  /\ (isWord c || isWhite c || (c =? hyphen)) = true
  /\ isSep c = (c =? hyphen).
Proof.
  intros H. apply isSlugChar_spec in H.
  unfold lower1, isWord, isSep, isWhite, hyphen.
  destruct H as [H|[H| ->]]; [| |by vm_compute]; decide_cmp; done.
Qed.

Lemma trimStart_head_id c r : isWhite c = false -> trimStart (c :: r) = c :: r.
Proof. simpl. by intros ->. Qed.

Lemma trim_slug s : Forall (fun c => isSlugChar c = true) s -> trim s = s.
Proof.
  intros H. unfold trim, trimEnd.
  assert (forall u, Forall (fun c => isSlugChar c = true) u -> trimStart u = u) as T.
  { intros [|c r] Hu; [done|]. apply trimStart_head_id.
    inversion Hu; subst. by apply slug_char_plain. }
  rewrite (T s H), (T (rev s)); [apply rev_involutive|by apply Forall_rev].
Qed.

Lemma collapse_slug s : forall b,
  Forall (fun c => isSlugChar c = true) s -> no_hyphen_pair s = true ->
  (b = true -> startsWith s [hyphen] = false) ->
  collapse b s = s.
Proof.
  induction s as [|c r IH]; intros b H Hp Hb; [done|].
  inversion H as [|c' r' Hc Hr]; subst. cbn [no_hyphen_pair] in Hp.
  apply andb_true_iff in Hp as [Hp1 Hp2]. apply negb_true_iff in Hp1.
  cbn [collapse]. destruct (slug_char_plain c Hc) as (_ & _ & _ & ->).
  destruct (c =? hyphen) eqn:E.
  - destruct b.
    + specialize (Hb eq_refl). cbn [startsWith] in Hb. by rewrite N.eqb_sym, E in Hb.
    + apply N.eqb_eq in E. subst c. f_equal. apply IH; [done..|].
      intros _. by destruct (startsWith r [hyphen]).
  - f_equal. apply IH; done.
Qed.

Lemma dropHyphens_id s : startsWith s [hyphen] = false -> dropHyphens s = s.
Proof.
  destruct s as [|c r]; cbn [startsWith dropHyphens]; [done|].
  rewrite andb_true_r, N.eqb_sym. by intros ->.
Qed.

Lemma slug_fixed s : is_slug s = true -> slugify s = s.
Proof.
  unfold is_slug. rewrite !andb_true_iff, !negb_true_iff.
  intros [[[Hc Hh] Hl] Hp].
  assert (Forall (fun c => isSlugChar c = true) s) as HF by by apply forallb_Forall_eq.
  unfold slugify.
  assert (toLowerCase s = s) as ->.
  { unfold toLowerCase. clear -HF. induction HF as [|c r Hc Hr IH]; simpl; [done|].
    destruct (slug_char_plain c Hc) as (-> & _). simpl. by rewrite IH. }
  rewrite (trim_slug s HF).
  assert (strip_other s = s) as ->.
  { unfold strip_other. clear -HF. induction HF as [|c r Hc Hr IH]; simpl; [done|].
    destruct (slug_char_plain c Hc) as (_ & _ & -> & _). by rewrite IH. }
  rewrite (collapse_slug s false HF Hp); [|done].
  unfold strip_hyphens. rewrite (dropHyphens_id s Hh), (dropHyphens_id _ Hl).
  apply rev_involutive.
Qed.

(** Members that survive each step of [slugify]. *)

Lemma elem_of_trimStart x s : x ∈ s -> isWhite x = false -> x ∈ trimStart s.
Proof.
  induction s as [|c r IH]; simpl; [done|]. intros H Hx.
  destruct (isWhite c) eqn:E; [|done].
  apply elem_of_cons in H as [->|H]; [congruence|by apply IH].
Qed.

Lemma elem_of_rev' (x : N) s : x ∈ s -> x ∈ rev s.
Proof. rewrite !list_elem_of_In. apply in_rev. Qed.

Lemma elem_of_trim x s : x ∈ s -> isWhite x = false -> x ∈ trim s.
Proof.
  intros H Hx. unfold trim, trimEnd.
  apply elem_of_rev', elem_of_trimStart; [|done].
  apply elem_of_rev', elem_of_trimStart; done.
Qed.

Lemma elem_of_collapse x s b : x ∈ s -> isSep x = false -> x ∈ collapse b s.
Proof.
  revert b. induction s as [|c r IH]; intros b H Hx; [done|]. simpl.
  apply elem_of_cons in H as [<-|H].
  - rewrite Hx. by left.
  - destruct (isSep c); [destruct b|]; [by apply IH|right; by apply IH|right; by apply IH].
Qed.

Lemma elem_of_dropHyphens x s : x ∈ s -> x <> hyphen -> x ∈ dropHyphens s.
Proof.
  induction s as [|c r IH]; cbn [dropHyphens]; [done|]. intros H Hx.
  destruct (N.eqb_spec c hyphen) as [->|Hc]; [|done].
  apply elem_of_cons in H as [->|H]; [done|by apply IH].
Qed.

Lemma collapse_seps s b :
  Forall (fun c => isSep c = true) s ->
  collapse b s = [] \/ collapse b s = [hyphen].
Proof.
  intros H. revert b. induction H as [|c r Hc Hr IH]; intros b; cbn [collapse]; [by left|].
  rewrite Hc. destruct b; [apply IH|].
  right. destruct (IH true) as [E|E]; rewrite E.
  - done.
  - exfalso. destruct (collapse_pairless true r) as [_ H]. specialize (H eq_refl).
    rewrite E in H. cbn [startsWith] in H. by rewrite N.eqb_refl in H.
Qed.

Lemma lower1_latin c :
  isLatin c = true ->
  exists x, x ∈ lower1 c /\ isSlugChar x = true /\ x <> hyphen.
Proof.
  intros H. apply isLatin_spec in H. unfold hyphen.
  assert (forall x, (48 <= x <= 57 \/ 97 <= x <= 122) ->
                    isSlugChar x = true /\ x <> 45) as Hx.
  { intros x Hx. split; [apply isSlugChar_spec|]; lia. }
  unfold lower1.
  destruct H as [H|[H|[H|[-> | ->]]]].
  - exists c. decide_cmp. split; [by left|]. apply Hx. lia.
  - exists (c + 32). decide_cmp. split; [by left|]. apply Hx. lia.
  - exists c. decide_cmp. split; [by left|]. apply Hx. lia.
  - exists 105. split; [by left|]. apply Hx. lia.
  - exists 107. split; [by left|]. apply Hx. lia.
Qed.

Lemma lower1_other c :
  isLatin c = false ->
  lower1 c = [c] /\ (isWord c = true -> c = 95).
Proof.
  intros H. apply not_true_iff_false in H. rewrite isLatin_spec in H.
  unfold lower1, isWord. split.
  - assert (~ 65 <= c <= 90 /\ c <> 304 /\ c <> 8490) as (H1 & H2 & H3) by lia.
    replace ((65 <=? c) && (c <=? 90)) with false.
    + by decide_cmp.
    + symmetry. apply andb_false_iff. rewrite !N.leb_gt. lia.
  - rewrite !orb_true_iff, !andb_true_iff, !N.leb_le, !N.eqb_eq. lia.
Qed.

Lemma slugify_latin t c : c ∈ t -> isLatin c = true -> slugify t <> [].
Proof.
  intros Hc HL. destruct (lower1_latin c HL) as (x & Hx & Hs & Hh).
  destruct (slug_char_plain x Hs) as (_ & Hw & Hk & Hsep).
  assert (x ∈ slugify t) as Hin; [|by intros E; rewrite E in Hin; inversion Hin].
  unfold slugify, strip_hyphens.
  apply elem_of_rev'. apply elem_of_dropHyphens; [|done].
  apply elem_of_rev'. apply elem_of_dropHyphens; [|done].
  apply elem_of_collapse; [|rewrite Hsep; by apply N.eqb_neq].
  unfold strip_other. apply list_elem_of_In, filter_In. split; [|done].
  apply list_elem_of_In, elem_of_trim; [|done].
  unfold toLowerCase. apply list_elem_of_In, in_flat_map. exists c.
  by rewrite <- !list_elem_of_In.
Qed.

Lemma slugify_other t : Forall (fun c => isLatin c = false) t -> slugify t = [].
Proof.
  intros H. unfold slugify.
  assert (toLowerCase t = t) as ->.
  { unfold toLowerCase. induction H as [|c r Hc Hr IH]; simpl; [done|].
    destruct (lower1_other c Hc) as [-> _]. simpl. by rewrite IH. }
  assert (Forall (fun c => isSep c = true) (strip_other (trim t))) as HS.
  { apply (Forall_trim _ _) in H. unfold strip_other.
    induction H as [|c r Hc Hr IH]; simpl; [constructor|].
    destruct (isWord c || isWhite c || (c =? hyphen)) eqn:E; [|done].
    constructor; [|done]. unfold isSep.
    destruct (isWhite c); [done|]. destruct (N.eqb_spec c hyphen); [by rewrite orb_true_r|].
    rewrite !orb_false_r in E. destruct (lower1_other c Hc) as [_ ->]; done. }
  unfold strip_hyphens.
  destruct (collapse_seps _ false HS) as [-> | ->]; cbn [dropHyphens rev app]; [done|].
  by rewrite N.eqb_refl.
Qed.

(** X1.  [slugify] returns a slug: digits and small letters of ASCII in
    words joined by single hyphens, with no hyphen at either end.  The slugs
    are exactly the texts it leaves as they are, so that applying it twice
    is applying it once. *)
Theorem slugify_fixed_points (s : jsstring) :
  (is_slug (slugify s) = true)
  /\ (slugify s = s <-> is_slug s = true)
  /\ slugify (slugify s) = slugify s.
Proof.
  split; [apply slugify_is_slug|]. split.
  - split; [intros <-; apply slugify_is_slug|apply slug_fixed].
  - apply slug_fixed, slugify_is_slug.
Qed.

(** X2.  The slug of a text is empty exactly when the text holds no digit
    and no letter of ASCII (nor one of the two characters whose lower case
    holds one): a title in Coptic or Arabic script alone has the empty
    slug. *)
Theorem slugify_empty_iff (t : jsstring) :
  slugify t = [] <-> Forall (fun c => isLatin c = false) t.
Proof.
  split; [|apply slugify_other].
  intros E. apply Forall_forall. intros c Hc.
  destruct (isLatin c) eqn:HL; [|done]. by destruct (slugify_latin t c Hc HL).
Qed.

End SlugFacts.

(** ** The revision with random identifiers, statement by statement *)

Lemma valid_set_draws n st : valid st -> valid (set_draws n st).
Proof. by intros []. Qed.

Module RandomPureFacts.

Import Random RandomPure.

Section WithRandom.

Variable random : nat -> jsstring.

Lemma random_createNewPart_run st :
  cursor_ok (length (secs st)) (currentSection st) ->
  createNewPart random st = Ok (createNewPart_pure random st).
Proof.
  intros H. unfold createNewPart, createNewPart_pure, push_part, draw. simpl_state.
  destruct (currentSection st) as [s|] eqn:E; [|done].
  destruct (lookup_lt_is_Some_2 (secs st) s) as [so Hso]; [by apply H|].
  rewrite (deref_lookup _ _ _ Hso). simpl.
  by rewrite <- (insert_alter (add_part (length (parts st))) _ _ _ Hso).
Qed.

Lemma random_valid_createNewPart st : valid st -> valid (createNewPart_pure random st).
Proof. intros H. apply valid_push_part. by apply valid_set_draws. Qed.

Lemma random_step_valid st line : valid st -> valid (step random st line).
Proof.
  intros H. unfold step.
  repeat match goal with |- context [if ?c then _ else _] => destruct c end;
    auto using valid_tagOrContent.
  - apply valid_set_currentLang, random_valid_createNewPart,
      valid_attach_section; [by apply valid_new_section, valid_set_draws|].
    simpl. rewrite length_app. simpl. lia.
  - apply valid_leave_section, valid_attach_book;
      [by apply valid_new_book, valid_set_draws|].
    simpl. rewrite length_app. simpl. lia.
  - by apply valid_leave_book, valid_new_category, valid_set_draws.
  - by apply valid_set_currentLang, random_valid_createNewPart.
Qed.

Lemma random_processLine_step st line :
  valid st -> processLine random st line = Ok (step random st line).
Proof.
  intros H. unfold processLine, step, draw.
  repeat match goal with |- context [if ?c then _ else _] => destruct c end;
    try done.
  - rewrite attach_section_run
      by apply (valid_new_section _ _ _ (valid_set_draws _ _ H)).
    simpl. rewrite random_createNewPart_run; [done|].
    apply valid_attach_section; [by apply valid_new_section, valid_set_draws|].
    simpl. rewrite length_app. simpl. lia.
  - by rewrite attach_book_run
      by apply (valid_new_book _ _ _ (valid_set_draws _ _ H)).
  - by rewrite random_createNewPart_run by apply H.
  - apply tagOrContent_run, H.
Qed.

Lemma random_run_valid lines st : valid st -> valid (run random lines st).
Proof.
  revert st; induction lines as [|l ls IH]; intros st H; simpl; [done|].
  by apply IH, random_step_valid.
Qed.

Lemma random_forEach_run lines st :
  valid st -> forEach (processLine random) lines st = Ok (run random lines st).
Proof.
  revert st; induction lines as [|l ls IH]; intros st H; simpl; [done|].
  rewrite random_processLine_step by done. simpl. by apply IH, random_step_valid.
Qed.

Lemma random_run_blank ls st :
  Forall (fun l => blank l = true) ls -> currentLang st = None ->
  run random ls st = st.
Proof.
  induction 1 as [|l ls Hl _ IH]; intros Hlang; simpl; [done|].
  assert (step random st l = st) as ->; [|by apply IH].
  unfold step. apply trim_nil_iff in Hl. by rewrite Hl, Hlang.
Qed.

Lemma random_parse_run text :
  parseTextToLibrary random text = reify_library (run random (split_nl text) init).
Proof.
  unfold parseTextToLibrary. rewrite truthy_trim, negb_involutive.
  destruct (blank text) eqn:Hb.
  - rewrite <- (join_split text) in Hb. apply blank_join in Hb.
    by rewrite random_run_blank.
  - by rewrite random_forEach_run by apply valid_init.
Qed.

End WithRandom.

End RandomPureFacts.

Lemma Counted_parse_run text :
  Counted.parseTextToLibrary text = reify_library (CountedPure.run (split_nl text) init).
Proof.
  rewrite <- (join_split text) at 1. apply Counted_parse_join, split_nl_no_lf.
Qed.

Lemma Guarded_parse_run text :
  Guarded.parseTextToLibrary text = reify_library (GuardedPure.run (split_nl text) init).
Proof.
  rewrite <- (join_split text) at 1. apply GuardedFacts.parse_join, split_nl_no_lf.
Qed.

Lemma Guarded_run_blank ls st :
  Forall (fun l => blank l = true) ls -> currentLang st = None ->
  GuardedPure.run ls st = st.
Proof.
  induction 1 as [|l ls Hl _ IH]; intros Hlang; simpl; [done|].
  assert (GuardedPure.step st l = st) as ->; [|by apply IH].
  unfold GuardedPure.step, tagOrContent_pure. apply trim_nil_iff in Hl.
  by rewrite Hl, Hlang.
Qed.

(** ** A text of white space *)

(** X3.  A text of white space only parses to the empty library in each of
    the three revisions: two of them test for it, the third reads the lines
    and finds nothing in them. *)
Theorem blank_text_empty_library (text : jsstring) (Hb : blank text = true) :
  Counted.parseTextToLibrary text = Ok []
  /\ Guarded.parseTextToLibrary text = Ok []
  /\ forall random, Random.parseTextToLibrary random text = Ok [].
Proof.
  assert (Forall (fun l => blank l = true) (split_nl text)) as Hls.
  { apply blank_join. by rewrite join_split. }
  split; [|split; [|intros random]].
  - by rewrite Counted_parse_run, Counted_run_blank.
  - by rewrite Guarded_parse_run, Guarded_run_blank.
  - by rewrite RandomPureFacts.random_parse_run, RandomPureFacts.random_run_blank.
Qed.

Lemma blank_text_empty_library_witness :
  Guarded.parseTextToLibrary [32; 9; 10; 13; 10; 160]%N = Ok [].
Proof.
  assert (blank [32; 9; 10; 13; 10; 160]%N = true) as H by (vm_compute; reflexivity).
  exact (proj1 (proj2 (blank_text_empty_library _ H))).
Defined.

(** ** White space around a line *)

Lemma Forall2_trim ls1 : forall ls2,
  map trim ls1 = map trim ls2 -> Forall2 (fun a b => trim a = trim b) ls1 ls2.
Proof.
  induction ls1 as [|a ls1 IH]; intros [|b ls2] H; try discriminate.
  - constructor.
  - injection H as Ha H. constructor; [done|by apply IH].
Qed.

Lemma runs_same_trims ls1 ls2 :
  Forall2 (fun a b => trim a = trim b) ls1 ls2 ->
  (forall st, CountedPure.run ls1 st = CountedPure.run ls2 st)
  /\ (forall st, GuardedPure.run ls1 st = GuardedPure.run ls2 st)
  /\ (forall random st, RandomPure.run random ls1 st = RandomPure.run random ls2 st).
Proof.
  induction 1 as [|a b ls1 ls2 Hab _ (IH1 & IH2 & IH3)]; [done|].
  repeat split; intros.
  - change (CountedPure.run ls1 (CountedPure.step st a)
            = CountedPure.run ls2 (CountedPure.step st b)).
    assert (CountedPure.step st a = CountedPure.step st b) as ->; [|apply IH1].
    unfold CountedPure.step. by rewrite Hab.
  - change (GuardedPure.run ls1 (GuardedPure.step st a)
            = GuardedPure.run ls2 (GuardedPure.step st b)).
    assert (GuardedPure.step st a = GuardedPure.step st b) as ->; [|apply IH2].
    unfold GuardedPure.step. by rewrite Hab.
  - change (RandomPure.run random ls1 (RandomPure.step random st a)
            = RandomPure.run random ls2 (RandomPure.step random st b)).
    assert (RandomPure.step random st a = RandomPure.step random st b) as ->;
      [|apply IH3].
    unfold RandomPure.step. by rewrite Hab.
Qed.

(** X4.  The parser sees of a line its trimmed text and nothing else: two
    texts whose lines agree once trimmed, such as a text with line feeds and
    the same text with carriage returns before them, parse to the same
    library. *)
Theorem lines_are_trimmed (t1 t2 : jsstring)
    (H : map trim (split_nl t1) = map trim (split_nl t2)) :
  Counted.parseTextToLibrary t1 = Counted.parseTextToLibrary t2
  /\ Guarded.parseTextToLibrary t1 = Guarded.parseTextToLibrary t2
  /\ forall random,
       Random.parseTextToLibrary random t1 = Random.parseTextToLibrary random t2.
Proof.
  apply Forall2_trim, runs_same_trims in H as (H1 & H2 & H3).
  split; [|split; [|intros random]].
  - by rewrite !Counted_parse_run, H1.
  - by rewrite !Guarded_parse_run, H2.
  - by rewrite !RandomPureFacts.random_parse_run, H3.
Qed.

Lemma lines_are_trimmed_witness :
  Counted.parseTextToLibrary
    (js "# C" ++ [13; 10] ++ js "  ## B " ++ [13; 10; 9] ++ js "### S" ++ [13])%N
  = Counted.parseTextToLibrary (js "# C
## B
### S").
Proof.
  assert (map trim (split_nl (js "# C" ++ [13; 10] ++ js "  ## B " ++ [13; 10; 9]
                                ++ js "### S" ++ [13])%N)
          = map trim (split_nl (js "# C
## B
### S"))) as H by (vm_compute; reflexivity).
  exact (proj1 (lines_are_trimmed _ _ H)).
Defined.

(** ** One category for each category heading *)

Lemma startsWith_shorter s p q : startsWith s (p ++ q) = true -> startsWith s p = true.
Proof.
  intros H. destruct (startsWith s p) eqn:E; [done|].
  by rewrite (startsWith_longer _ _ q E) in H.
Qed.

Lemma filter_none {A} (f : A -> bool) ls :
  Forall (fun l => f l = false) ls -> List.filter f ls = [].
Proof. induction 1 as [|l ls Hl _ IH]; simpl; [done|]. by rewrite Hl. Qed.

Lemma cats_follow_init : cats_follow [] init.
Proof. repeat split. constructor. Qed.

Lemma cats_follow_other ls line st st' :
  cats st' = cats st -> library st' = library st -> isCategoryLine line = false ->
  cats_follow ls st -> cats_follow (ls ++ [line]) st'.
Proof.
  intros Hc Hl Hline (H1 & H2 & H3). unfold cats_follow.
  rewrite Hc, Hl, List.filter_app. simpl. rewrite Hline, app_nil_r. done.
Qed.

Lemma not_category_line line :
  startsWith (trim line) (js "#") = false -> isCategoryLine line = false.
Proof. unfold isCategoryLine. by intros ->. Qed.

Module CountedCategories.

Import Counted CountedPure CountedFacts CountedLines CountedOrphanSteps CountedCases.

Lemma step_cats_follow ls st line :
  cats_follow ls st -> cats_follow (ls ++ [line]) (step st line).
Proof.
  intros H.
  destruct (line_cases (trim line)) as [Hs|[[Hs Hb]|[[Hb Hc]|[Hd|[[l Hl]|Hcont]]]]].
  - destruct (section_heading_stores st line Hs) as (Hlib & Hcats & _).
    apply (cats_follow_other ls line st); [done..| |done]. unfold isCategoryLine.
    by rewrite (startsWith_shorter _ (js "##") (js "#") Hs), andb_false_r.
  - destruct (book_heading_stores st line Hb Hs) as (Hlib & Hcats & _).
    destruct H as (H1 & H2 & H3). unfold cats_follow.
    assert (isCategoryLine line = false) as Hline
      by (unfold isCategoryLine; by rewrite Hb, andb_false_r).
    rewrite Hlib, Hcats, List.filter_app. cbn [List.filter].
    rewrite Hline, app_nil_r.
    destruct (currentCat st) as [c|]; [|done].
    rewrite length_alter. split; [done|]. split.
    + rewrite <- H2. rewrite (list_fmap_alter _ _ id).
      * by apply list_alter_id.
      * by apply Forall_true.
    + apply Forall_alter; [done|]. by intros co _ _.
  - rewrite (category_state st line Hb Hc).
    destruct H as (H1 & H2 & H3). unfold cats_follow. simpl_state.
    assert (isCategoryLine line = true) as Hline
      by (unfold isCategoryLine; by rewrite Hb, Hc).
    rewrite List.filter_app. cbn [List.filter]. rewrite Hline.
    rewrite length_app, !fmap_app, H1, <- H2. cbn [length fmap list_fmap].
    rewrite Nat.add_1_r, seq_S. cbn [Nat.add].
    unfold category_title. rewrite (replace_prefix (js "#") _ Hc).
    split; [done|]. split; [reflexivity|].
    apply Forall_app; split; [done|by repeat constructor].
  - apply (cats_follow_other ls line st); [| | |done].
    + by rewrite (delimiter_state st line Hd).
    + by rewrite (delimiter_state st line Hd).
    + apply not_category_line. by rewrite Hd.
  - apply (cats_follow_other ls line st); [| | |done].
    + by rewrite (step_tag st line l Hl).
    + by rewrite (step_tag st line l Hl).
    + apply not_category_line. destruct (languageTag_head _ _ Hl) as [t' ->]. done.
  - destruct (CountedSim.content_fields st line Hcont) as (Hlib & Hcats & _).
    apply (cats_follow_other ls line st); [done..| |done].
    apply not_category_line. by apply isContent_inv in Hcont as (_ & _ & -> & _).
Qed.

Lemma run_cats_follow ls : forall pre st,
  cats_follow pre st -> cats_follow (pre ++ ls) (run ls st).
Proof.
  induction ls as [|l ls IH]; intros pre st H; simpl.
  - by rewrite app_nil_r.
  - rewrite (cons_middle l pre ls), app_assoc. apply IH. by apply step_cats_follow.
Qed.

End CountedCategories.

Lemma reify_cat_fields st c it :
  reify_cat st c = Some it ->
  exists co, cats st !! c = Some co
    /\ item_id it = co_id co /\ item_title it = co_title co
    /\ item_type it = category /\ item_sections it = None
    /\ (co_children co <> None -> item_children it <> None).
Proof.
  unfold reify_cat. intros H.
  destruct (cats st !! c) as [co|] eqn:Hco; [|done]. simpl in H.
  exists co. split; [done|].
  destruct (co_children co) as [l|]; simpl in H.
  - destruct (mapM (reify_book st) l); [|done]. simpl in H. by injection H as <-.
  - by injection H as <-.
Qed.

Lemma cats_follow_reify ls st lib :
  cats_follow ls st -> reify_library st = Ok lib ->
  (fun it => (item_id it, item_title it)) <$> lib
  = (fun l => (js "cat-" ++ slugify (category_title l), category_title l))
      <$> List.filter isCategoryLine ls
  /\ Forall (fun it => item_type it = category /\ item_sections it = None
                       /\ item_children it <> None) lib.
Proof.
  intros (H1 & H2 & H3) Hr. unfold reify_library in Hr. rewrite H1 in Hr.
  destruct (mapM _ _) as [lib'|] eqn:E; [|done]. injection Hr as ->.
  apply mapM_Some in E. rewrite <- H2. split.
  - apply list_eq. intros i. rewrite !list_lookup_fmap.
    destruct (lib !! i) as [it|] eqn:Hit.
    + destruct (Forall2_lookup_r _ _ _ _ _ E Hit) as (c & Hc & Hrc).
      apply lookup_seq in Hc as [-> _]. simpl in Hrc.
      apply reify_cat_fields in Hrc as (co & Hco & Hid & Ht & _).
      rewrite Hco. simpl. by rewrite Hid, Ht.
    + destruct (cats st !! i) as [co|] eqn:Hco; [|done]. exfalso.
      assert (seq 0 (length (cats st)) !! i = Some i) as Hi.
      { apply lookup_seq. split; [done|]. by apply lookup_lt_Some in Hco. }
      destruct (Forall2_lookup_l _ _ _ _ _ E Hi) as (it & Hit' & _). congruence.
  - apply Forall_lookup. intros i it Hit.
    destruct (Forall2_lookup_r _ _ _ _ _ E Hit) as (c & Hc & Hrc).
    apply reify_cat_fields in Hrc as (co & Hco & _ & _ & -> & -> & Hch).
    repeat split. apply Hch. rewrite Forall_lookup in H3. by apply (H3 c co).
Qed.

(** X5.  The library holds one category for each line whose trimmed text
    starts with one [#] and no more, in the order of the lines: the title is
    read off the line, the identifier is "cat-" and the slug of the title,
    and the children are an array.  A text without such a line gives the
    empty library, whatever else it holds. *)
Theorem categories_follow_headings (text : jsstring) :
  exists lib,
    Counted.parseTextToLibrary text = Ok lib
    /\ item_title <$> lib
       = category_title <$> List.filter isCategoryLine (split_nl text)
    /\ item_id <$> lib = (fun it => js "cat-" ++ slugify (item_title it)) <$> lib
    /\ Forall (fun it => item_type it = category /\ item_sections it = None
                         /\ item_children it <> None) lib
    /\ (lib = [] <-> Forall (fun l => isCategoryLine l = false) (split_nl text)).
Proof.
  rewrite Counted_parse_run.
  pose proof (CountedCategories.run_cats_follow (split_nl text) [] init cats_follow_init)
    as H. simpl in H.
  destruct (reify_library_ok (CountedPure.run (split_nl text) init)) as [lib Hlib].
  { apply CountedFacts.run_valid, valid_init. }
  destruct (cats_follow_reify _ _ _ H Hlib) as (H1 & H2).
  exists lib. split; [done|].
  assert (item_title <$> lib
          = category_title <$> List.filter isCategoryLine (split_nl text)) as Ht.
  { apply (f_equal (fmap snd)) in H1. by rewrite <- !list_fmap_compose in H1. }
  split; [done|]. split.
  - transitivity ((fun t => js "cat-" ++ slugify t) <$> (item_title <$> lib)).
    + rewrite Ht, <- list_fmap_compose.
      apply (f_equal (fmap fst)) in H1. rewrite <- !list_fmap_compose in H1.
      exact H1.
    + by rewrite <- list_fmap_compose.
  - split; [done|].
    apply (f_equal length) in Ht. rewrite !length_fmap in Ht.
    split.
    + intros ->. simpl in Ht. symmetry in Ht. apply length_zero_iff_nil in Ht.
      apply Forall_forall. intros l Hl.
      destruct (isCategoryLine l) eqn:E; [|done].
      assert (In l (List.filter isCategoryLine (split_nl text))) as Hin.
      { apply filter_In. split; [by apply list_elem_of_In|done]. }
      by rewrite Ht in Hin.
    + intros HF. apply length_zero_iff_nil. rewrite Ht.
      apply length_zero_iff_nil, filter_none, HF.
Qed.

(** * The three revisions side by side *)

(** ** Erasing identifiers goes through every statement *)

Ltac anon_eq :=
  apply State_eq; unfold anon; simpl_state;
  rewrite ?fmap_app, ?length_fmap; try reflexivity.

Lemma anon_idemp st : anon (anon st) = anon st.
Proof.
  anon_eq; rewrite <- list_fmap_compose; apply list_fmap_ext; by intros ? [].
Qed.

Lemma anon_new_section id title st :
  anon (new_section id title st) = new_section [] title (anon st).
Proof. anon_eq. Qed.

Lemma anon_new_book id title st :
  anon (new_book id title st) = new_book [] title (anon st).
Proof. anon_eq. Qed.

Lemma anon_new_category id title st :
  anon (new_category id title st) = new_category [] title (anon st).
Proof. anon_eq. Qed.

Lemma anon_set_currentLang l st :
  anon (set_currentLang l st) = set_currentLang l (anon st).
Proof. anon_eq. Qed.

Lemma anon_set_currentPart p st :
  anon (set_currentPart p st) = set_currentPart p (anon st).
Proof. anon_eq. Qed.

Lemma anon_set_currentSection s st :
  anon (set_currentSection s st) = set_currentSection s (anon st).
Proof. anon_eq. Qed.

Lemma anon_set_currentBook b st :
  anon (set_currentBook b st) = set_currentBook b (anon st).
Proof. anon_eq. Qed.

Lemma anon_set_partCount n st : anon (set_partCount n st) = anon st.
Proof. anon_eq. Qed.

Lemma anon_set_draws n st : anon (set_draws n st) = anon st.
Proof. anon_eq. Qed.

Lemma anon_attach_section s st :
  anon (attach_section_pure s st) = attach_section_pure s (anon st).
Proof.
  unfold attach_section_pure. cbn [anon currentBook].
  destruct (currentBook st) as [b|] eqn:E; [|done].
  anon_eq. by apply list_fmap_alter, Forall_true.
Qed.

Lemma anon_attach_book b st :
  anon (attach_book_pure b st) = attach_book_pure b (anon st).
Proof.
  unfold attach_book_pure. cbn [anon currentCat].
  destruct (currentCat st) as [c|] eqn:E; [|done].
  anon_eq. by apply list_fmap_alter, Forall_true.
Qed.

Lemma anon_push_part po st :
  anon (push_part po st) = push_part (anon_part po) (anon st).
Proof.
  unfold push_part. cbn [anon currentSection parts].
  destruct (currentSection st) as [s|] eqn:E; anon_eq.
  by apply list_fmap_alter, Forall_true.
Qed.

Lemma anon_tagOrContent t st :
  anon (tagOrContent_pure t st) = tagOrContent_pure t (anon st).
Proof.
  unfold tagOrContent_pure. cbn [anon currentLang currentPart].
  destruct (languageTag t); [anon_eq|].
  destruct (currentLang st) as [l|]; [|done].
  destruct (currentPart st) as [p|]; [|done].
  anon_eq. by apply list_fmap_alter, Forall_true.
Qed.

(** ** Each revision follows the common shape *)

Lemma Counted_shape st line :
  anon (CountedPure.step st line) = Shape.step (anon st) line.
Proof.
  unfold CountedPure.step, Shape.step, CountedPure.createNewPart_pure, Shape.newPart.
  cbn [anon currentLang secs books].
  rewrite !length_fmap.
  repeat match goal with |- context [if ?c then _ else _] => destruct c end;
    rewrite ?anon_set_currentLang, ?anon_set_currentPart, ?anon_set_currentSection,
      ?anon_set_currentBook, ?anon_push_part, ?anon_set_partCount,
      ?anon_attach_section, ?anon_attach_book, ?anon_new_section, ?anon_new_book,
      ?anon_new_category, ?anon_tagOrContent; reflexivity.
Qed.

Lemma Random_shape random st line :
  anon (RandomPure.step random st line) = Shape.step (anon st) line.
Proof.
  unfold RandomPure.step, Shape.step, RandomPure.createNewPart_pure, Shape.newPart.
  cbn [anon currentLang secs books].
  rewrite !length_fmap.
  repeat match goal with |- context [if ?c then _ else _] => destruct c end;
    rewrite ?anon_set_currentLang, ?anon_set_currentPart, ?anon_set_currentSection,
      ?anon_set_currentBook, ?anon_push_part, ?anon_set_draws,
      ?anon_attach_section, ?anon_attach_book, ?anon_new_section, ?anon_new_book,
      ?anon_new_category, ?anon_tagOrContent; reflexivity.
Qed.

Lemma startNewPart_inside st s :
  currentSection st = Some s -> s < length (secs st) ->
  anon (GuardedPure.startNewPart_pure st) = Shape.newPart (anon st).
Proof.
  intros Hs Hlt. unfold GuardedPure.startNewPart_pure, Shape.newPart. rewrite Hs. simpl.
  destruct (lookup_lt_is_Some_2 _ _ Hlt) as [so ->]. by rewrite anon_push_part.
Qed.

Lemma startNewPart_outside st :
  currentSection st = None -> GuardedPure.startNewPart_pure st = st.
Proof. intros Hs. unfold GuardedPure.startNewPart_pure. by rewrite Hs. Qed.

Lemma Guarded_shape st line :
  valid st -> ~ (trim line = js "---" /\ currentSection st = None) ->
  anon (GuardedPure.step st line) = Shape.step (anon st) line.
Proof.
  intros Hv Hno. unfold GuardedPure.step, Shape.step.
  cbn [anon currentLang secs books]. rewrite !length_fmap.
  destruct (negb (truthy (trim line)) && isNull (currentLang st)) eqn:Hblank.
  { apply andb_true_iff in Hblank as [Ht Hl].
    destruct (trim line); [|done]. unfold tagOrContent_pure.
    by destruct (currentLang st). }
  destruct (startsWith (trim line) (js "###")) eqn:H3.
  { rewrite anon_set_currentLang.
    rewrite (startNewPart_inside _ (length (secs st))).
    - by rewrite anon_attach_section, anon_new_section.
    - destruct (attach_section_pure_fields (length (secs st))
                  (new_section (js "sec-"
                      ++ slugify (opt_or (currentBook st ≫= fun b =>
                                            bo_title <$> books st !! b) (js "cat"))
                      ++ js "-" ++ slugify (trim (replace (js "###") [] (trim line))))
                     (trim (replace (js "###") [] (trim line))) st))
        as (_ & _ & _ & _ & _ & _ & -> & _). done.
    - destruct (attach_section_pure_fields (length (secs st))
                  (new_section (js "sec-"
                      ++ slugify (opt_or (currentBook st ≫= fun b =>
                                            bo_title <$> books st !! b) (js "cat"))
                      ++ js "-" ++ slugify (trim (replace (js "###") [] (trim line))))
                     (trim (replace (js "###") [] (trim line))) st))
        as (_ & -> & _). simpl_state. rewrite length_app. simpl. lia. }
  destruct (startsWith (trim line) (js "##")) eqn:H2.
  { by rewrite anon_set_currentPart, anon_set_currentSection, anon_attach_book,
      anon_new_book. }
  destruct (startsWith (trim line) (js "#")) eqn:H1.
  { by rewrite anon_set_currentPart, anon_set_currentSection, anon_set_currentBook,
      anon_new_category. }
  destruct (eqb (trim line) (js "---")) eqn:Hd.
  { apply eqb_eq in Hd. rewrite anon_set_currentLang.
    destruct (currentSection st) as [s|] eqn:Hs; [|by destruct Hno].
    rewrite (startNewPart_inside _ s Hs); [done|]. by apply (valid_currentSection _ Hv). }
  apply anon_tagOrContent.
Qed.

Lemma Guarded_orphan_delimiter st line :
  trim line = js "---" -> currentSection st = None ->
  GuardedPure.step st line = set_currentLang None st.
Proof.
  intros Hd Hs. unfold GuardedPure.step. rewrite Hd.
  rewrite (startNewPart_outside st Hs). reflexivity.
Qed.

(** ** Reading back a store without identifiers *)

Lemma mapM_fmap_out {A B C} (f : A -> option B) (g : B -> C) l :
  mapM (fun x => g <$> f x) l = fmap g <$> mapM f l.
Proof.
  induction l as [|x l IH]; simpl; [done|].
  rewrite IH. destruct (f x); simpl; [|done]. by destruct (mapM f l).
Qed.

Lemma reify_section_anon st s :
  reify_section (anon st) s = anon_section <$> reify_section st s.
Proof.
  unfold reify_section. cbn [anon secs parts]. rewrite list_lookup_fmap.
  destruct (secs st !! s) as [so|]; simpl; [|done].
  rewrite (mapM_ext _ (fun p => anon_part <$> parts st !! p))
    by (intros p; apply list_lookup_fmap).
  rewrite mapM_fmap_out. by destruct (mapM _ (so_parts so)).
Qed.

Lemma reify_book_anon st b :
  reify_book (anon st) b = anon_item <$> reify_book st b.
Proof.
  unfold reify_book. cbn [anon books]. rewrite list_lookup_fmap.
  destruct (books st !! b) as [bo|]; simpl; [|done].
  destruct (bo_sections bo) as [l|]; simpl; [|done].
  rewrite (mapM_ext _ (fun s => anon_section <$> reify_section st s))
    by (intros s; apply reify_section_anon).
  rewrite mapM_fmap_out. by destruct (mapM _ l).
Qed.

Lemma reify_cat_anon st c :
  reify_cat (anon st) c = anon_item <$> reify_cat st c.
Proof.
  unfold reify_cat. cbn [anon cats]. rewrite list_lookup_fmap.
  destruct (cats st !! c) as [co|]; simpl; [|done].
  destruct (co_children co) as [l|]; simpl; [|done].
  rewrite (mapM_ext _ (fun b => anon_item <$> reify_book st b))
    by (intros b; apply reify_book_anon).
  rewrite mapM_fmap_out. by destruct (mapM _ l).
Qed.

Lemma reify_library_anon st :
  reify_library (anon st)
  = match reify_library st with
    | Ok lib => Ok (anon_item <$> lib)
    | Throw e => Throw e
    end.
Proof.
  unfold reify_library. cbn [anon library].
  rewrite (mapM_ext _ (fun c => anon_item <$> reify_cat st c))
    by (intros c; apply reify_cat_anon).
  rewrite mapM_fmap_out. by destruct (mapM _ (library st)).
Qed.

(** ** The invariants of the parser do not depend on identifiers *)

Lemma valid_anon st : valid st -> valid (anon st).
Proof.
  intros [HL HC HB HS Hc Hb Hs Hp].
  constructor; unfold anon; simpl_state; rewrite ?length_fmap; try done.
  - apply Forall_fmap. eapply Forall_impl; [exact HC|]. by intros co.
  - apply Forall_fmap. eapply Forall_impl; [exact HB|]. by intros bo.
  - apply Forall_fmap. eapply Forall_impl; [exact HS|]. by intros so.
Qed.

Lemma tidy_anon st : tidy st -> tidy (anon st).
Proof.
  intros [Hv Ho Ha]. constructor; [by apply valid_anon| |].
  - intros p s so i Hp Hso Hi. cbn [anon currentPart secs currentSection] in *.
    rewrite list_lookup_fmap in Hso.
    destruct (secs st !! s) as [so0|] eqn:E; [|done]. injection Hso as <-.
    by apply (Ho p s so0 i).
  - intros s Hs. cbn [anon currentPart secs currentSection] in *.
    destruct (Ha s Hs) as (so & l & p & Hso & Hl & Hp).
    exists (anon_sectionObj so), l, p. rewrite list_lookup_fmap, Hso. done.
Qed.

Lemma tidy_set_currentLang l st : tidy st -> tidy (set_currentLang l st).
Proof.
  intros [Hv Ho Ha]. constructor; [by apply valid_set_currentLang|done..].
Qed.

Lemma sim_anon st1 st2 : sim st1 st2 -> sim (anon st1) (anon st2).
Proof.
  intros [H1 H2 H3 H4 H5 H6 H7 H8 H9].
  constructor.
  - exact H1.
  - cbn [anon cats]. by rewrite H2.
  - cbn [anon books]. by rewrite H3.
  - exact H4.
  - exact H5.
  - exact H6.
  - cbn [anon secs]. by rewrite !length_fmap.
  - intros s. rewrite !reify_section_anon. f_equal. apply H8.
  - intros Hs. split; [|done]. by apply H9.
Qed.

Lemma sim_trans st1 st2 st3 : sim st1 st2 -> sim st2 st3 -> sim st1 st3.
Proof.
  intros [H1 H2 H3 H4 H5 H6 H7 H8 H9] [K1 K2 K3 K4 K5 K6 K7 K8 K9].
  constructor; try congruence.
  intros Hs. destruct (H9 Hs) as [-> ->]. apply K9. by rewrite <- H6.
Qed.

Lemma sim_refl st : sim st st.
Proof. by constructor. Qed.

Lemma sim_set_currentLang l st1 st2 :
  sim st1 st2 -> currentSection st1 = None -> sim (set_currentLang l st1) st2.
Proof.
  intros [H1 H2 H3 H4 H5 H6 H7 H8 H9] Hs. constructor; simpl_state; try done.
  rewrite Hs. by intros [? ?].
Qed.

(** ** The three revisions build the same tree *)

Lemma Shape_step_anon st line :
  Shape.step (anon st) line = anon (CountedPure.step (anon st) line).
Proof. by rewrite Counted_shape, anon_idemp. Qed.

Lemma Random_run_shape random ls : forall st1 st2,
  anon st1 = anon st2 ->
  anon (RandomPure.run random ls st1) = anon (CountedPure.run ls st2).
Proof.
  induction ls as [|l ls IH]; intros st1 st2 H; simpl; [done|].
  apply IH. by rewrite Random_shape, Counted_shape, H.
Qed.

Lemma Guarded_run_shape ls : forall g c,
  valid g -> tidy (anon g) -> tidy (anon c) -> sim (anon g) (anon c) ->
  sim (anon (GuardedPure.run ls g)) (anon (CountedPure.run ls c)).
Proof.
  induction ls as [|l ls IH]; intros g c Hv Hg Hc Hsim; simpl; [done|].
  assert (tidy (anon (CountedPure.step c l))) as Hc'.
  { rewrite Counted_shape, Shape_step_anon. by apply tidy_anon, CountedTidy.step_tidy. }
  apply IH; [by apply GuardedFacts.guarded_step_valid| |done|].
  - destruct (eqb (trim l) (js "---")) eqn:Hd;
      [destruct (currentSection g) as [s|] eqn:Hs|].
    + rewrite Guarded_shape, Shape_step_anon; [|done|intros [_ ?]; congruence].
      by apply tidy_anon, CountedTidy.step_tidy.
    + apply eqb_eq in Hd. rewrite (Guarded_orphan_delimiter g l Hd Hs).
      rewrite anon_set_currentLang. by apply tidy_set_currentLang.
    + rewrite Guarded_shape, Shape_step_anon; [|done|].
      * by apply tidy_anon, CountedTidy.step_tidy.
      * intros [E _]. rewrite E, eqb_refl in Hd. done.
  - assert (sim (anon (CountedPure.step (anon g) l)) (anon (CountedPure.step c l)))
      as Hstep.
    { rewrite (Counted_shape c), Shape_step_anon.
      by apply sim_anon, CountedSim.step_sim. }
    destruct (eqb (trim l) (js "---")) eqn:Hd;
      [destruct (currentSection g) as [s|] eqn:Hs|].
    + by rewrite Guarded_shape, Shape_step_anon; [|done|intros [_ ?]; congruence].
    + apply eqb_eq in Hd. rewrite (Guarded_orphan_delimiter g l Hd Hs).
      rewrite anon_set_currentLang.
      apply sim_set_currentLang; [|done].
      apply (sim_trans _ (anon c)); [done|].
      rewrite (Counted_shape c), Shape_step_anon.
      rewrite <- (anon_idemp c) at 1.
      apply sim_anon, CountedSim.sim_orphan_delimiter; [done..|].
      by rewrite <- (sim_currentSection _ _ Hsim).
    + rewrite Guarded_shape, Shape_step_anon; [done|done|].
      intros [E _]. rewrite E, eqb_refl in Hd. done.
Qed.

(** X6.  The revision with random identifiers returns, for every text and
    whatever the draws, the library of the revision with slug identifiers
    once the identifiers are erased: the same categories, books, sections
    and parts, with the same titles, types and paragraphs. *)
Theorem random_same_tree (random : nat -> jsstring) (text : jsstring) :
  exists lc lr,
    Counted.parseTextToLibrary text = Ok lc
    /\ Random.parseTextToLibrary random text = Ok lr
    /\ anon_item <$> lr = anon_item <$> lc.
Proof.
  rewrite Counted_parse_run, RandomPureFacts.random_parse_run.
  destruct (reify_library_ok (CountedPure.run (split_nl text) init)) as [lc Hc].
  { apply CountedFacts.run_valid, valid_init. }
  destruct (reify_library_ok (RandomPure.run random (split_nl text) init)) as [lr Hr].
  { apply RandomPureFacts.random_run_valid, valid_init. }
  exists lc, lr. split; [done|]. split; [done|].
  pose proof (Random_run_shape random (split_nl text) init init eq_refl) as H.
  apply (f_equal reify_library) in H. rewrite !reify_library_anon, Hc, Hr in H.
  by injection H.
Qed.

(** X7.  The two revisions with slug identifiers return, for every text,
    the same library once the identifiers are erased, although one makes a
    part at a delimiter outside a section and the other does not. *)
Theorem guarded_same_tree (text : jsstring) :
  exists lc lg,
    Counted.parseTextToLibrary text = Ok lc
    /\ Guarded.parseTextToLibrary text = Ok lg
    /\ anon_item <$> lg = anon_item <$> lc.
Proof.
  rewrite Counted_parse_run, Guarded_parse_run.
  destruct (reify_library_ok (CountedPure.run (split_nl text) init)) as [lc Hc].
  { apply CountedFacts.run_valid, valid_init. }
  destruct (reify_library_ok (GuardedPure.run (split_nl text) init)) as [lg Hg].
  { apply GuardedFacts.guarded_run_valid, valid_init. }
  exists lc, lg. split; [done|]. split; [done|].
  assert (sim (anon (GuardedPure.run (split_nl text) init))
            (anon (CountedPure.run (split_nl text) init))) as H.
  { apply Guarded_run_shape; [apply valid_init|apply tidy_init..|apply sim_refl]. }
  apply CountedSim.sim_reify in H. rewrite !reify_library_anon, Hc, Hg in H.
  by injection H.
Qed.

(** ** Paragraphs are trimmed *)

Lemma trimStart_suffix s : exists w, s = w ++ trimStart s.
Proof.
  induction s as [|c r [w IH]]; simpl; [by exists []|].
  destruct (isWhite c); [|by exists []]. exists (c :: w). simpl. by rewrite <- IH.
Qed.

Lemma trimStart_idemp s : trimStart (trimStart s) = trimStart s.
Proof.
  destruct (trimStart s) as [|c r] eqn:E; [done|].
  apply trimStart_head in E. simpl. by rewrite E.
Qed.

Lemma trim_idemp s : trim (trim s) = trim s.
Proof.
  unfold trim, trimEnd.
  set (u := trimStart s). set (v := trimStart (rev u)).
  assert (trimStart (rev v) = rev v) as ->.
  { destruct (rev v) as [|c r] eqn:E; [done|].
    destruct (trimStart_suffix (rev u)) as [w Hw]. fold v in Hw.
    apply (f_equal (@rev N)) in Hw. rewrite rev_involutive, rev_app_distr, E in Hw.
    simpl in Hw. unfold u in Hw. apply trimStart_head in Hw. simpl. by rewrite Hw. }
  rewrite rev_involutive. unfold v. by rewrite trimStart_idemp.
Qed.

Lemma para_ok_trim line : truthy (trim line) = true -> para_ok (trim line).
Proof.
  intros H. split; [by destruct (trim line)|apply trim_idemp].
Qed.

Lemma Language_eqb_eq a b : Language_eqb a b = true <-> a = b.
Proof. by destruct a, b. Qed.

Lemma Language_eqb_refl a : Language_eqb a a = true.
Proof. by destruct a. Qed.

Lemma content_get_None l c : content_get l c = None <-> l ∉ c.*1.
Proof.
  induction c as [|[k v] c IH]; simpl.
  - split; [intros _; apply not_elem_of_nil|done].
  - destruct (Language_eqb k l) eqn:E.
    + apply Language_eqb_eq in E. subst k. split; [done|].
      intros H. destruct H. by left.
    + rewrite IH, not_elem_of_cons. split; [|by intros [_ ?]].
      intros H. split; [|done]. intros ->. destruct k; discriminate.
Qed.

Lemma content_get_Some l c v : content_get l c = Some v -> (l, v) ∈ c.
Proof.
  induction c as [|[k w] c IH]; simpl; [done|].
  destruct (Language_eqb k l) eqn:E.
  - apply Language_eqb_eq in E. subst k. intros [= ->]. by left.
  - intros H. right. by apply IH.
Qed.

Lemma content_set_keys l v c :
  (content_set l v c).*1
  = match content_get l c with
    | Some _ => c.*1
    | None => c.*1 ++ [l]
    end.
Proof.
  induction c as [|[k w] c IH]; cbn [content_set content_get]; [done|].
  destruct (Language_eqb k l) eqn:E; [done|].
  rewrite !fmap_cons, IH. by destruct (content_get l c).
Qed.

Lemma content_set_values l v c (P : list jsstring -> Prop) :
  P v -> Forall (fun kv => P kv.2) c -> Forall (fun kv => P kv.2) (content_set l v c).
Proof.
  intros Hv. induction 1 as [|[k w] c Hk Hc IH]; simpl.
  - by repeat constructor.
  - destruct (Language_eqb k l); by constructor.
Qed.

Lemma content_ok_set l v c :
  content_ok c -> Forall para_ok v -> content_ok (content_set l v c).
Proof.
  intros [Hnd Hc] Hv. split; [|by apply content_set_values].
  rewrite content_set_keys.
  destruct (content_get l c) eqn:E; [done|].
  apply content_get_None in E. apply NoDup_app. split; [done|].
  split; [|apply NoDup_singleton].
  intros x Hx Hx'. apply list_elem_of_singleton in Hx'. by subst x.
Qed.

Lemma content_ok_append l line c :
  content_ok c -> content_ok (content_append l (trim line) c).
Proof.
  intros H. unfold content_append.
  set (c1 := match content_get l c with
             | Some _ => c
             | None => content_set l [] c
             end).
  assert (content_ok c1) as H1.
  { unfold c1. destruct (content_get l c); [done|].
    apply content_ok_set; [done|constructor]. }
  clearbody c1.
  destruct (truthy (trim line)) eqn:Ht; [|done].
  apply content_ok_set; [done|].
  apply Forall_app. split; [|by repeat constructor; apply para_ok_trim].
  destruct (content_get l c1) as [v|] eqn:E; [|constructor]. simpl.
  apply content_get_Some in E. destruct H1 as [_ H1].
  rewrite Forall_forall in H1. by apply (H1 (l, v)).
Qed.

Lemma Forall_push {A} (P : A -> Prop) l x : Forall P l -> P x -> Forall P (l ++ [x]).
Proof. intros. apply Forall_app. split; [done|by repeat constructor]. Qed.

Module CountedParagraphs.

Import Counted CountedPure CountedFacts CountedLines CountedOrphanSteps CountedCases.

Lemma step_contents st line :
  Forall (fun po => content_ok (part_content po)) (parts st) ->
  Forall (fun po => content_ok (part_content po)) (parts (step st line)).
Proof.
  intros H.
  assert (content_ok []) as Hnil by (split; constructor).
  destruct (line_cases (trim line)) as [Hs|[[Hs Hb]|[[Hb Hc]|[Hd|[[l Hl]|Hcont]]]]].
  - rewrite (section_state st line Hs). simpl_state. by apply Forall_push.
  - by rewrite (book_state st line Hs Hb).
  - by rewrite (category_state st line Hb Hc).
  - rewrite (delimiter_state st line Hd). simpl_state. by apply Forall_push.
  - by rewrite (step_tag st line l Hl).
  - rewrite (content_state st line Hcont).
    destruct (currentLang st) as [l|]; [|done].
    destruct (currentPart st) as [p|]; [|done]. simpl_state.
    apply Forall_alter; [done|]. intros po _ Hpo. by apply content_ok_append.
Qed.

Lemma run_contents ls : forall st,
  Forall (fun po => content_ok (part_content po)) (parts st) ->
  Forall (fun po => content_ok (part_content po)) (parts (run ls st)).
Proof.
  induction ls as [|l ls IH]; intros st H; simpl; [done|].
  by apply IH, step_contents.
Qed.

End CountedParagraphs.

Lemma reify_section_parts st s sec (P : LiturgicalPart -> Prop) :
  Forall P (parts st) -> reify_section st s = Some sec -> Forall P (sec_parts sec).
Proof.
  intros H. unfold reify_section.
  destruct (secs st !! s) as [so|]; [|done]. simpl.
  destruct (mapM _ (so_parts so)) as [ps|] eqn:E; [|done]. simpl. intros [= <-]. simpl.
  eapply mapM_Forall; [|exact E]. intros p po Hp. simpl in Hp.
  rewrite Forall_lookup in H. by apply (H p).
Qed.

Lemma reify_library_sections st lib (Q : LiturgySection -> Prop) :
  (forall s sec, reify_section st s = Some sec -> Q sec) ->
  reify_library st = Ok lib -> Forall Q (sections_of_library lib).
Proof.
  intros H. unfold reify_library.
  destruct (mapM _ (library st)) as [lib'|] eqn:E; [|done]. intros [= <-].
  apply Forall_flat_map. eapply mapM_Forall; [|exact E].
  intros c it. unfold reify_cat.
  destruct (cats st !! c) as [co|]; [|done]. simpl.
  destruct (co_children co) as [l|]; simpl.
  - destruct (mapM _ l) as [bs|] eqn:E'; [|done]. simpl. intros [= <-]. simpl.
    apply Forall_flat_map. eapply mapM_Forall; [|exact E'].
    intros b bk. unfold reify_book.
    destruct (books st !! b) as [bo|]; [|done]. simpl.
    destruct (bo_sections bo) as [l'|]; simpl.
    + destruct (mapM _ l') as [ss|] eqn:E''; [|done]. simpl. intros [= <-]. simpl.
      rewrite app_nil_r. eapply mapM_Forall; [|exact E'']. exact H.
    + intros [= <-]. constructor.
  - intros [= <-]. constructor.
Qed.

(** X8.  In every part of the library a language is a key of [content] at
    most once, and every paragraph under it is a line of the text trimmed
    and not empty: trimming a paragraph again changes nothing. *)
Theorem paragraphs_are_trimmed (text : jsstring) :
  exists lib,
    Counted.parseTextToLibrary text = Ok lib
    /\ Forall (fun sec =>
                 Forall (fun po =>
                           NoDup (part_content po).*1
                           /\ Forall (fun kv =>
                                        Forall (fun p => p <> [] /\ trim p = p) kv.2)
                                (part_content po))
                   (sec_parts sec))
         (sections_of_library lib).
Proof.
  rewrite Counted_parse_run.
  destruct (reify_library_ok (CountedPure.run (split_nl text) init)) as [lib Hlib].
  { apply CountedFacts.run_valid, valid_init. }
  exists lib. split; [done|].
  apply (reify_library_sections _ _
           (fun sec => Forall (fun po => content_ok (part_content po))
                         (sec_parts sec))) in Hlib; [done|].
  intros s sec. apply reify_section_parts.
  apply CountedParagraphs.run_contents. constructor.
Qed.

(** ** Book identifiers *)

Lemma book_ids_ok_frame st st' :
  cats st' = cats st ->
  (forall b bo', books st' !! b = Some bo' ->
     exists bo, books st !! b = Some bo /\ bo_id bo = bo_id bo'
                /\ bo_title bo = bo_title bo') ->
  book_ids_ok st -> book_ids_ok st'.
Proof.
  intros Hc Hb H c co b bo' Hco Hin Hbo'. rewrite Hc in Hco.
  destruct (Hb _ _ Hbo') as (bo & Hbo & <- & <-). by eapply H.
Qed.

Module CountedBookIds.

Import Counted CountedPure CountedFacts CountedLines CountedOrphanSteps CountedCases.

Lemma step_book_ids_ok st line :
  valid st -> book_ids_ok st -> book_ids_ok (step st line).
Proof.
  intros Hv H.
  pose proof (valid_cats _ Hv) as HC. rewrite Forall_lookup in HC.
  destruct (line_cases (trim line)) as [Hs|[[Hs Hb]|[[Hb Hc]|[Hd|[[l Hl]|Hcont]]]]].
  - destruct (section_heading_stores st line Hs) as (_ & Hcats & Hbooks & _).
    eapply book_ids_ok_frame; [exact Hcats| |exact H].
    intros b bo' Hbo'. rewrite Hbooks in Hbo'.
    destruct (currentBook st) as [b0|]; [|eauto].
    rewrite list_lookup_alter in Hbo'. case_decide; [subst b0|eauto].
    destruct (books st !! b) as [bo|]; simpl in Hbo'; [|done].
    injection Hbo' as <-. by exists bo.
  - rewrite (book_state st line Hs Hb).
    intros c co' b bo' Hco' Hin Hbo'. simpl_state.
    assert (Hold : forall co, cats st !! c = Some co ->
                     b ∈ default [] (co_children co) ->
                     bo_id bo' = book_id_of (co_title co) (bo_title bo')).
    { intros co Hco Hb'. specialize (HC _ _ Hco). unfold cat_ok in HC.
      rewrite Forall_forall in HC. specialize (HC _ Hb').
      rewrite lookup_app_l in Hbo' by done. by eapply H. }
    destruct (currentCat st) as [c0|] eqn:Hcc; [|by eapply Hold].
    destruct (decide (c0 = c)) as [->|Hne];
      [|rewrite list_lookup_alter_ne in Hco' by done; by eapply Hold].
    rewrite list_lookup_alter_eq in Hco'.
    destruct (cats st !! c) as [co|] eqn:Hco; [|done].
    simpl in Hco'. injection Hco' as <-.
    cbn [add_child set_children co_children co_title default] in *.
    apply elem_of_app in Hin as [Hin|Hin]; [by eapply Hold|].
    apply list_elem_of_singleton in Hin as ->.
    rewrite list_lookup_middle in Hbo' by done. injection Hbo' as <-.
    cbn [bo_id bo_title mbind option_bind]. rewrite Hco.
    cbn [fmap option_fmap option_map opt_or].
    by rewrite or_else_nil.
  - rewrite (category_state st line Hb Hc).
    intros c co b bo Hco Hin Hbo. simpl_state.
    apply lookup_app_Some in Hco as [Hco|[_ Hco]]; [by eapply H|].
    apply list_lookup_singleton_Some in Hco as [_ <-]. simpl in Hin.
    by apply not_elem_of_nil in Hin.
  - rewrite (delimiter_state st line Hd).
    eapply book_ids_ok_frame; [| |exact H]; simpl_state; eauto.
  - rewrite (step_tag st line l Hl).
    eapply book_ids_ok_frame; [| |exact H]; simpl_state; eauto.
  - destruct (CountedSim.content_fields st line Hcont) as (_ & Hcats & Hbooks & _).
    eapply book_ids_ok_frame; [exact Hcats| |exact H]. rewrite Hbooks. eauto.
Qed.

Lemma run_book_ids_ok lines st :
  valid st -> book_ids_ok st -> book_ids_ok (run lines st).
Proof.
  revert st; induction lines as [|l ls IH]; intros st Hv H; simpl; [done|].
  apply IH; [by apply step_valid|by apply step_book_ids_ok].
Qed.

End CountedBookIds.

Lemma reify_book_title st b it :
  reify_book st b = Some it ->
  exists bo, books st !! b = Some bo /\ item_id it = bo_id bo
             /\ item_title it = bo_title bo.
Proof.
  unfold reify_book. intros H.
  destruct (books st !! b) as [bo|]; [|done]. simpl in H. exists bo. split; [done|].
  destruct (bo_sections bo) as [l|]; simpl in H.
  - destruct (mapM _ l); [|done]. simpl in H. by injection H as <-.
  - by injection H as <-.
Qed.

Lemma reify_cat_book_ids st c it bk :
  book_ids_ok st -> reify_cat st c = Some it ->
  bk ∈ default [] (item_children it) ->
  item_id bk = book_id_of (item_title it) (item_title bk).
Proof.
  unfold reify_cat. intros Hids H Hin.
  destruct (cats st !! c) as [co|] eqn:Hco; [|done]. simpl in H.
  destruct (co_children co) as [l|] eqn:E; simpl in H.
  - destruct (mapM (reify_book st) l) as [bs|] eqn:Hbs; [|done].
    injection H as <-. simpl in *.
    destruct (mapM_elem_of _ _ _ _ Hbs Hin) as (b & Hb & Hbk).
    apply reify_book_title in Hbk as (bo & Hbo & -> & ->).
    eapply Hids; [exact Hco| |exact Hbo]. by rewrite E.
  - injection H as <-. simpl in Hin. by apply not_elem_of_nil in Hin.
Qed.

(** X9.  In every library the parser returns, the identifier of a book is
    "book-", the slug of the title of its category, a hyphen and the slug of
    its own title. *)
Theorem book_ids_from_titles (text : jsstring) :
  exists lib,
    Counted.parseTextToLibrary text = Ok lib
    /\ forall c bk,
         c ∈ lib -> bk ∈ default [] (item_children c) ->
         item_id bk
         = js "book-" ++ slugify (item_title c) ++ js "-" ++ slugify (item_title bk).
Proof.
  rewrite Counted_parse_run.
  set (st := CountedPure.run (split_nl text) init).
  destruct (reify_library_ok st) as [lib Hlib].
  { apply CountedFacts.run_valid, valid_init. }
  exists lib. split; [done|]. intros c bk Hc Hbk.
  unfold reify_library in Hlib.
  destruct (mapM (reify_cat st) (library st)) as [lib'|] eqn:E; [|done].
  injection Hlib as ->.
  destruct (mapM_elem_of _ _ _ _ E Hc) as (r & _ & Hr).
  eapply (reify_cat_book_ids st); [|exact Hr|exact Hbk].
  apply CountedBookIds.run_book_ids_ok; [apply valid_init|].
  intros c' co b bo Hco. done.
Qed.

(** ** Part identifiers *)

Lemma js_inj s1 s2 : js s1 = js s2 -> s1 = s2.
Proof.
  unfold js. intros H.
  rewrite <- (string_of_list_ascii_of_string s1), <- (string_of_list_ascii_of_string s2).
  f_equal. revert H. generalize (list_ascii_of_string s1) (list_ascii_of_string s2).
  induction l as [|a l IH]; intros [|b k] H; try done.
  injection H as Hab H. f_equal; [|by apply IH].
  by rewrite <- (ascii_N_embedding a), <- (ascii_N_embedding b), Hab.
Qed.

Lemma decimal_inj n m : decimal n = decimal m -> n = m.
Proof.
  unfold decimal. intros H%js_inj.
  assert (forall k, Nat.to_uint k <> Decimal.Nil) as Hnil.
  { intros k E. pose proof (Unsigned.of_to k) as Hk. rewrite E in Hk.
    simpl in Hk. subst k. discriminate. }
  apply Unsigned.to_uint_inj.
  apply (f_equal NilZero.uint_of_string) in H.
  rewrite !NilZero.usu in H by apply Hnil. by injection H.
Qed.

Lemma part_id_of_inj sid n m : part_id_of sid n = part_id_of sid m -> n = m.
Proof.
  unfold part_id_of. intros H.
  apply app_inv_head, app_inv_head, app_inv_head in H. by apply decimal_inj.
Qed.

Lemma or_else_truthy a b : a <> [] -> or_else a b = a.
Proof. by destruct a. Qed.

Lemma part_ids_ok_frame st st' :
  secs st' = secs st ->
  currentSection st' = currentSection st \/ currentSection st' = None ->
  partCount st' = partCount st ->
  (forall p po', parts st' !! p = Some po' ->
     exists po, parts st !! p = Some po /\ part_id po = part_id po') ->
  part_ids_ok st -> part_ids_ok st'.
Proof.
  intros Hs Hc Hn Hp [H1 H2 H3]. constructor.
  - intros s so i p po' Hso Hi Hpo'. rewrite Hs in Hso.
    destruct (Hp _ _ Hpo') as (po & Hpo & <-). by eapply H1.
  - by rewrite Hs.
  - intros s so Hcs Hso. rewrite Hs in Hso. rewrite Hn.
    destruct Hc as [Hc|Hc]; rewrite Hc in Hcs; [by eapply H3|done].
Qed.

Module CountedPartIds.

Import Counted CountedPure CountedFacts CountedLines CountedOrphanSteps CountedCases.

Lemma step_part_ids_ok st line :
  valid st -> part_ids_ok st -> part_ids_ok (step st line).
Proof.
  intros Hv H. pose proof H as [H1 H2 H3].
  destruct (line_cases (trim line)) as [Hs|[[Hs Hb]|[[Hb Hc]|[Hd|[[l Hl]|Hcont]]]]].
  - rewrite (section_state st line Hs).
    set (id := js "sec-" ++ _ ++ js "-" ++ _).
    assert (id <> []) as Hid by done.
    constructor; simpl_state.
    + intros s so i p po Hso Hi Hpo.
      apply lookup_app_Some in Hso as [Hso|[_ Hso]].
      * pose proof (listed_part_allocated _ _ _ _ _ Hv Hso Hi) as Hlt.
        rewrite lookup_app_l in Hpo by done. by eapply H1.
      * apply list_lookup_singleton_Some in Hso as [_ <-]. simpl in Hi.
        apply list_lookup_singleton_Some in Hi as [-> <-].
        rewrite list_lookup_middle in Hpo by done.
        apply (inj Some) in Hpo. subst po.
        cbn [part_id so_id opt_or]. by rewrite or_else_truthy.
    + apply Forall_app. split; [done|]. by repeat constructor.
    + intros s so [= <-] Hso. rewrite list_lookup_middle in Hso by done.
      by injection Hso as <-.
  - rewrite (book_state st line Hs Hb).
    eapply part_ids_ok_frame; [| | | |exact H]; simpl_state; eauto.
  - rewrite (category_state st line Hb Hc).
    eapply part_ids_ok_frame; [| | | |exact H]; simpl_state; eauto.
  - rewrite (delimiter_state st line Hd).
    destruct (currentSection st) as [s0|] eqn:Hcs.
    + destruct (lookup_lt_is_Some_2 (secs st) s0) as [so0 Hso0];
        [by apply (valid_currentSection _ Hv)|].
      assert (so_id so0 <> []) as Hid.
      { rewrite Forall_lookup in H2. by apply (H2 s0). }
      pose proof (H3 s0 so0 eq_refl Hso0) as Hcount.
      constructor; simpl_state.
      * intros s so i p po Hso Hi Hpo.
        rewrite list_lookup_alter in Hso. case_decide as Heq.
        -- subst s0. rewrite Hso0 in Hso. simpl in Hso. injection Hso as <-.
           cbn [so_parts so_id add_part] in *.
           apply lookup_app_Some in Hi as [Hi|[Hlen Hi]].
           ++ pose proof (listed_part_allocated _ _ _ _ _ Hv Hso0 Hi) as Hlt.
              rewrite lookup_app_l in Hpo by done. by eapply H1.
           ++ apply list_lookup_singleton_Some in Hi as [Hi <-].
              rewrite list_lookup_middle in Hpo by done.
              apply (inj Some) in Hpo. subst po.
              cbn [part_id mbind option_bind]. rewrite Hso0.
              cbn [fmap option_fmap option_map opt_or].
              rewrite or_else_truthy by done. unfold part_id_of.
              do 4 f_equal. lia.
        -- pose proof (listed_part_allocated _ _ _ _ _ Hv Hso Hi) as Hlt.
           rewrite lookup_app_l in Hpo by done. by eapply H1.
      * apply Forall_alter; [done|]. by intros so _.
      * intros s so [= <-] Hso. rewrite list_lookup_alter_eq, Hso0 in Hso.
        simpl in Hso. injection Hso as <-. cbn [so_parts add_part].
        rewrite length_app. simpl. lia.
    + constructor; simpl_state; [|done..].
      intros s so i p po Hso Hi Hpo.
      pose proof (listed_part_allocated _ _ _ _ _ Hv Hso Hi) as Hlt.
      rewrite lookup_app_l in Hpo by done. by eapply H1.
  - rewrite (step_tag st line l Hl).
    eapply part_ids_ok_frame; [| | | |exact H]; simpl_state; eauto.
  - rewrite (content_state st line Hcont).
    destruct (currentLang st) as [l|]; [|done].
    destruct (currentPart st) as [p|]; [|done].
    eapply part_ids_ok_frame; [| | | |exact H]; simpl_state; eauto.
    intros p' po' Hpo'. rewrite list_lookup_alter in Hpo'.
    case_decide; [subst p'|eauto].
    destruct (parts st !! p) as [po|]; simpl in Hpo'; [|done].
    injection Hpo' as <-. by exists po.
Qed.

Lemma run_part_ids_ok lines st :
  valid st -> part_ids_ok st -> part_ids_ok (run lines st).
Proof.
  revert st; induction lines as [|l ls IH]; intros st Hv H; simpl; [done|].
  apply IH; [by apply step_valid|by apply step_part_ids_ok].
Qed.

End CountedPartIds.

Lemma part_ids_ok_init : part_ids_ok init.
Proof. constructor; simpl; [done|constructor|done]. Qed.

Lemma reify_section_part_ids st s sec :
  part_ids_ok st -> reify_section st s = Some sec ->
  forall i po, sec_parts sec !! i = Some po ->
               part_id po = part_id_of (sec_id sec) (S i).
Proof.
  intros [H1 _ _]. unfold reify_section. intros H i po Hi.
  destruct (secs st !! s) as [so|] eqn:Hso; [|done]. simpl in H.
  destruct (mapM _ (so_parts so)) as [ps|] eqn:E; [|done]. injection H as <-.
  simpl in *. apply mapM_Some_1 in E.
  destruct (Forall2_lookup_r _ _ _ _ _ E Hi) as (p & Hp & Hpo).
  by eapply H1.
Qed.

Lemma part_ids_NoDup sec :
  (forall i po, sec_parts sec !! i = Some po ->
                part_id po = part_id_of (sec_id sec) (S i)) ->
  NoDup (part_id <$> sec_parts sec).
Proof.
  intros Hids. apply NoDup_alt. intros i j x Hi Hj.
  rewrite list_lookup_fmap in Hi, Hj.
  destruct (sec_parts sec !! i) as [pi|] eqn:Ei; [|done].
  destruct (sec_parts sec !! j) as [pj|] eqn:Ej; [|done].
  simpl in Hi, Hj. injection Hi as <-. injection Hj as Hj.
  rewrite (Hids _ _ Ei), (Hids _ _ Ej) in Hj.
  apply part_id_of_inj in Hj. lia.
Qed.

Lemma run_sections_part_ids text lib :
  reify_library (CountedPure.run (split_nl text) init) = Ok lib ->
  Forall (fun sec => forall i po, sec_parts sec !! i = Some po ->
                       part_id po = part_id_of (sec_id sec) (S i))
    (sections_of_library lib).
Proof.
  apply reify_library_sections. intros s sec Hsec.
  apply (reify_section_part_ids (CountedPure.run (split_nl text) init) s); [|done].
  apply CountedPartIds.run_part_ids_ok; [apply valid_init|apply part_ids_ok_init].
Qed.

(** X10.  In every section of the library the parts are numbered from one
    in their order: the identifier of a part is "part-", the identifier of
    its section, a hyphen and its number.  No two parts of a section share an
    identifier. *)
Theorem part_ids_numbered (text : jsstring) :
  exists lib,
    Counted.parseTextToLibrary text = Ok lib
    /\ Forall (fun sec =>
                 (forall i po, sec_parts sec !! i = Some po ->
                    part_id po = js "part-" ++ sec_id sec ++ js "-" ++ decimal (S i))
                 /\ NoDup (part_id <$> sec_parts sec))
         (sections_of_library lib).
Proof.
  rewrite Counted_parse_run.
  destruct (reify_library_ok (CountedPure.run (split_nl text) init)) as [lib Hlib].
  { apply CountedFacts.run_valid, valid_init. }
  exists lib. split; [done|].
  eapply Forall_impl; [exact (run_sections_part_ids text lib Hlib)|].
  intros sec Hids. split; [exact Hids|by apply part_ids_NoDup].
Qed.

(** ** The lines of a part, language by language *)

Lemma body_steps st line :
  isBody (trim line) = true ->
  CountedPure.step st line = tagOrContent_pure (trim line) st
  /\ GuardedPure.step st line = tagOrContent_pure (trim line) st
  /\ forall random, RandomPure.step random st line = tagOrContent_pure (trim line) st.
Proof.
  unfold isBody. rewrite andb_true_iff, !negb_true_iff. intros [H1 Hd].
  pose proof (startsWith_longer _ _ (js "#") H1) as H2.
  pose proof (startsWith_longer _ _ (js "##") H1) as H3.
  change (js "#" ++ js "#") with (js "##") in H2.
  change (js "#" ++ js "##") with (js "###") in H3.
  assert (negb (truthy (trim line)) && isNull (currentLang st) = true ->
          tagOrContent_pure (trim line) st = st) as Hblank.
  { intros [Ht Hl]%andb_true_iff. destruct (trim line); [|done].
    unfold tagOrContent_pure. by destruct (currentLang st). }
  unfold CountedPure.step, GuardedPure.step, RandomPure.step.
  rewrite H1, H2, H3, Hd.
  destruct (negb (truthy (trim line)) && isNull (currentLang st)) eqn:E;
    [rewrite Hblank by done|]; done.
Qed.

Lemma content_get_set_other l l0 v c :
  l <> l0 -> content_get l (content_set l0 v c) = content_get l c.
Proof.
  intros Hne. induction c as [|[k w] c IH]; simpl.
  - destruct (Language_eqb l0 l) eqn:E; [|done].
    apply Language_eqb_eq in E. congruence.
  - destruct (Language_eqb k l0) eqn:E0; simpl; [|by rewrite IH].
    apply Language_eqb_eq in E0. subst k.
    destruct (Language_eqb l0 l) eqn:E; [|done].
    apply Language_eqb_eq in E. congruence.
Qed.

Lemma paragraphs_add_line_other l l0 t po :
  l <> l0 -> paragraphs l (add_line l0 t po) = paragraphs l po.
Proof.
  intros Hne. unfold paragraphs, add_line, content_append. simpl.
  set (c1 := match content_get l0 (part_content po) with
             | Some _ => part_content po
             | None => content_set l0 [] (part_content po)
             end).
  assert (content_get l c1 = content_get l (part_content po)) as H1.
  { unfold c1. destruct (content_get l0 _); [done|]. by apply content_get_set_other. }
  destruct (truthy t); [|by rewrite H1]. by rewrite content_get_set_other, H1.
Qed.

Lemma tagOrContent_paragraphs t st p po :
  currentPart st = Some p -> parts st !! p = Some po ->
  currentPart (tagOrContent_pure t st) = Some p
  /\ currentLang (tagOrContent_pure t st)
     = match languageTag t with
       | Some l' => Some l'
       | None => currentLang st
       end
  /\ exists po',
       parts (tagOrContent_pure t st) !! p = Some po'
       /\ forall l,
            paragraphs l po'
            = paragraphs l po
              ++ match languageTag t with
                 | Some _ => []
                 | None => if isCurrent l (currentLang st) && truthy t then [t] else []
                 end.
Proof.
  intros Hp Hpo. unfold tagOrContent_pure. rewrite Hp.
  destruct (languageTag t) as [l'|].
  { simpl_state. repeat split; [done|]. exists po. split; [done|].
    intros l. by rewrite app_nil_r. }
  destruct (currentLang st) as [l0|] eqn:Hl; simpl_state.
  - rewrite Hp, Hl. repeat split. exists (add_line l0 t po).
    rewrite list_lookup_alter_eq, Hpo. split; [done|]. intros l. simpl.
    destruct (Language_eqb l0 l) eqn:E; simpl.
    + apply Language_eqb_eq in E. subst l0. apply paragraphs_add_line.
    + rewrite app_nil_r. apply paragraphs_add_line_other.
      intros ->. by rewrite Language_eqb_refl in E.
  - repeat split; [done..|]. exists po. split; [done|]. intros l. simpl.
    by rewrite app_nil_r.
Qed.

Lemma body_lines_collect ls : forall st p po,
  currentPart st = Some p -> parts st !! p = Some po ->
  Forall (fun line => isBody (trim line) = true) ls ->
  CountedPure.run ls st = fold_left (fun st line => tagOrContent_pure (trim line) st) ls st
  /\ GuardedPure.run ls st = CountedPure.run ls st
  /\ (forall random, RandomPure.run random ls st = CountedPure.run ls st)
  /\ exists po',
       parts (CountedPure.run ls st) !! p = Some po'
       /\ forall l, paragraphs l po'
                    = paragraphs l po ++ collect l (currentLang st) ls.
Proof.
  induction ls as [|line ls IH]; intros st p po Hp Hpo Hls.
  { repeat split; [done..|]. exists po. split; [done|]. intros l. simpl.
    by rewrite app_nil_r. }
  inversion Hls as [|? ? Hline Hrest]; subst.
  destruct (body_steps st line Hline) as (HC & HG & HR).
  destruct (tagOrContent_paragraphs (trim line) st p po Hp Hpo)
    as (Hp' & Hl' & po1 & Hpo1 & Hpar1).
  destruct (IH (tagOrContent_pure (trim line) st) p po1 Hp' Hpo1 Hrest)
    as (IH1 & IH2 & IH3 & po' & Hpo' & Hpar).
  change (CountedPure.run (line :: ls) st)
    with (CountedPure.run ls (CountedPure.step st line)).
  change (GuardedPure.run (line :: ls) st)
    with (GuardedPure.run ls (GuardedPure.step st line)).
  rewrite HC, HG. split; [exact IH1|]. split; [exact IH2|]. split.
  - intros random.
    change (RandomPure.run random (line :: ls) st)
      with (RandomPure.run random ls (RandomPure.step random st line)).
    rewrite HR. apply IH3.
  - exists po'. split; [done|]. intros l. rewrite Hpar, Hpar1, Hl'. simpl.
    destruct (languageTag (trim line)); by rewrite <- app_assoc.
Qed.

(** X11.  Under a part, a run of language tags and content lines is sorted
    by language: each line that is not blank becomes a paragraph of the
    language of the last tag above it, in the order of the lines, and the
    paragraphs of the other languages are left as they are.  The three
    revisions do the same. *)
Theorem languages_are_separated (st : State) (p : ref) (po : LiturgicalPart)
    (ls : list jsstring)
    (Hv : valid st) (Hp : currentPart st = Some p) (Hpo : parts st !! p = Some po)
    (Hls : Forall (fun line => isBody (trim line) = true) ls) :
  exists st' po',
    forEach Counted.processLine ls st = Ok st'
    /\ forEach Guarded.processLine ls st = Ok st'
    /\ (forall random, forEach (Random.processLine random) ls st = Ok st')
    /\ parts st' !! p = Some po'
    /\ forall l, paragraphs l po' = paragraphs l po ++ collect l (currentLang st) ls.
Proof.
  destruct (body_lines_collect ls st p po Hp Hpo Hls)
    as (_ & HG & HR & po' & Hpo' & Hpar).
  exists (CountedPure.run ls st), po'.
  rewrite CountedFacts.forEach_run, GuardedFacts.guarded_forEach_run, HG by done.
  repeat split; [|done..].
  intros random. by rewrite RandomPureFacts.random_forEach_run, HR.
Qed.

Lemma languages_are_separated_witness :
  exists st' po',
    forEach Counted.processLine
      [js "[EN]"; js "A"; js "[ar]"; js " B "; js ""; js "[En]"; js "C"]
      (mkState [] [] [] [mkPart (js "p") prayer []] [] None None None (Some 0)
         None 0 0)
    = Ok st'
    /\ parts st' !! 0 = Some po'
    /\ paragraphs ENGLISH po' = [js "A"; js "C"]
    /\ paragraphs ARABIC po' = [js "B"].
Proof.
  assert (valid (mkState [] [] [] [mkPart (js "p") prayer []] [] None None None
                   (Some 0) None 0 0)) as Hv.
  { apply mkValid; simpl; auto using Forall_nil, cursor_ok_None, cursor_ok_Some. }
  assert (Forall (fun line => isBody (trim line) = true)
            [js "[EN]"; js "A"; js "[ar]"; js " B "; js ""; js "[En]"; js "C"]) as Hls.
  { repeat constructor. }
  destruct (languages_are_separated _ 0 (mkPart (js "p") prayer []) _ Hv eq_refl
              eq_refl Hls) as (st' & po' & H1 & _ & _ & H2 & H3).
  exists st', po'. split; [exact H1|]. split; [exact H2|].
  split; [exact (H3 ENGLISH)|exact (H3 ARABIC)].
Defined.

(** ** The first part of a section, in the library *)

Lemma tag_is_body t l : languageTag t = Some l -> isBody t = true.
Proof. intros H. by destruct (languageTag_head _ _ H) as [t' ->]. Qed.

Lemma content_is_body t : isContent t = true -> isBody t = true.
Proof.
  intros H. apply isContent_inv in H as (_ & _ & H1 & Hd & _).
  unfold isBody. by rewrite H1, Hd.
Qed.

Lemma body_run_frame ls : forall st,
  Forall (fun line => isBody (trim line) = true) ls ->
  cats (CountedPure.run ls st) = cats st
  /\ books (CountedPure.run ls st) = books st
  /\ secs (CountedPure.run ls st) = secs st
  /\ library (CountedPure.run ls st) = library st.
Proof.
  induction ls as [|line ls IH]; intros st Hls; [done|].
  inversion Hls as [|? ? Hline Hrest]; subst.
  change (CountedPure.run (line :: ls) st)
    with (CountedPure.run ls (CountedPure.step st line)).
  destruct (body_steps st line Hline) as (-> & _).
  destruct (IH (tagOrContent_pure (trim line) st) Hrest) as (-> & -> & -> & ->).
  by destruct (tagOrContent_pure_fields (trim line) st) as (-> & -> & -> & -> & _).
Qed.

Module CountedCursors.

Import Counted CountedPure CountedFacts CountedLines CountedOrphanSteps CountedCases.

Lemma cursors_last_init : cursors_last init.
Proof. split; [done|]. by intros c co H. Qed.

Lemma step_cursors_last st line : cursors_last st -> cursors_last (step st line).
Proof.
  intros [H1 H2].
  destruct (line_cases (trim line)) as [Hs|[[Hs Hb]|[[Hb Hc]|[Hd|[[l Hl]|Hcont]]]]].
  - rewrite (section_state st line Hs). split; simpl_state; [done|exact H2].
  - rewrite (book_state st line Hs Hb). split; simpl_state; [done|].
    intros c co Hc Hco. rewrite Hc in Hco. rewrite list_lookup_alter_eq in Hco.
    destruct (cats st !! c) as [co0|]; [|done]. simpl in Hco. injection Hco as <-.
    unfold add_child. simpl. by rewrite last_snoc.
  - rewrite (category_state st line Hb Hc). split; simpl_state.
    + by rewrite last_snoc.
    + intros c co [= <-] Hco. rewrite list_lookup_middle in Hco by done.
      by injection Hco as <-.
  - rewrite (delimiter_state st line Hd). split; simpl_state; [done|exact H2].
  - rewrite (step_tag st line l Hl). split; simpl_state; [done|exact H2].
  - destruct (CountedSim.content_fields st line Hcont)
      as (Hlib & Hcats & _ & _ & Hcc & Hcb & _).
    unfold cursors_last. by rewrite Hlib, Hcats, Hcc, Hcb.
Qed.

Lemma run_cursors_last lines st : cursors_last st -> cursors_last (run lines st).
Proof.
  revert st; induction lines as [|l ls IH]; intros st H; simpl; [done|].
  by apply IH, step_cursors_last.
Qed.

End CountedCursors.

Lemma children_alter (cs : list CatObj) (c j : nat) b c0 n :
  (exists co, cs !! c = Some co /\ default [] (co_children co) !! j = Some b) ->
  exists co, alter (add_child n) c0 cs !! c = Some co
             /\ default [] (co_children co) !! j = Some b.
Proof.
  intros (co & Hco & Hj). destruct (decide (c0 = c)) as [->|Hne].
  - exists (add_child n co). rewrite list_lookup_alter_eq, Hco. split; [done|].
    simpl. by apply lookup_app_l_Some.
  - exists co. by rewrite list_lookup_alter_ne.
Qed.

Lemma sections_alter (bs : list BookObj) (b k : nat) s b0 n :
  (exists bo, bs !! b = Some bo /\ default [] (bo_sections bo) !! k = Some s) ->
  exists bo, alter (add_section n) b0 bs !! b = Some bo
             /\ default [] (bo_sections bo) !! k = Some s.
Proof.
  intros (bo & Hbo & Hk). destruct (decide (b0 = b)) as [->|Hne].
  - exists (add_section n bo). rewrite list_lookup_alter_eq, Hbo. split; [done|].
    simpl. by apply lookup_app_l_Some.
  - exists bo. by rewrite list_lookup_alter_ne.
Qed.

Lemma first_part_alter (ss : list SectionObj) (s : nat) sid title p s0 n :
  (exists so, ss !! s = Some so /\ so_id so = sid /\ so_title so = title
              /\ head (so_parts so) = Some p) ->
  exists so, alter (add_part n) s0 ss !! s = Some so /\ so_id so = sid
             /\ so_title so = title /\ head (so_parts so) = Some p.
Proof.
  intros (so & Hso & Hid & Ht & Hh). destruct (decide (s0 = s)) as [->|Hne].
  - exists (add_part n so). rewrite list_lookup_alter_eq, Hso.
    repeat split; [done..|]. simpl. by destruct (so_parts so).
  - exists so. by rewrite list_lookup_alter_ne.
Qed.

Module CountedKept.

Import Counted CountedPure CountedFacts CountedLines CountedOrphanSteps CountedCases.

Section WithPlace.

Variables (i j k : nat) (c b s p : ref) (sid title : jsstring) (po : LiturgicalPart).

(** Once the cursor has left the part [p], or when the line read is a
    heading or the delimiter, the section and its first part stay where they
    are and as they are. *)
Lemma step_kept st line :
  kept i j k c b s p sid title po st ->
  currentPart st <> Some p \/ isBody (trim line) = false ->
  kept i j k c b s p sid title po (step st line)
  /\ currentPart (step st line) <> Some p.
Proof.
  intros (Hlib & Hcat & Hbook & Hsec & Hpart) Hcur.
  assert (p < length (parts st)) as Hp by (by eapply lookup_lt_Some).
  destruct (line_cases (trim line)) as [Hs|[[Hs Hb]|[[Hb Hc]|[Hd|[[l Hl]|Hcont]]]]].
  - rewrite (section_state st line Hs). unfold kept. simpl_state.
    split; [|intros [= E]; lia].
    split; [done|]. split; [done|]. split.
    { destruct (currentBook st); [by apply sections_alter|done]. }
    split; [|by apply lookup_app_l_Some].
    destruct Hsec as (so & Hso & H). exists so. split; [by apply lookup_app_l_Some|done].
  - rewrite (book_state st line Hs Hb). unfold kept. simpl_state.
    split; [|done]. split; [done|]. split.
    { destruct (currentCat st); [by apply children_alter|done]. }
    split; [|done].
    destruct Hbook as (bo & Hbo & H). exists bo. split; [by apply lookup_app_l_Some|done].
  - rewrite (category_state st line Hb Hc). unfold kept. simpl_state.
    split; [|done]. split; [by apply lookup_app_l_Some|]. split; [|done].
    destruct Hcat as (co & Hco & H). exists co. split; [by apply lookup_app_l_Some|done].
  - rewrite (delimiter_state st line Hd). unfold kept. simpl_state.
    split; [|intros [= E]; lia].
    split; [done|]. split; [done|]. split; [done|]. split.
    { destruct (currentSection st); [by apply first_part_alter|done]. }
    by apply lookup_app_l_Some.
  - destruct Hcur as [Hcur|Hnb]; [|by rewrite (tag_is_body _ _ Hl) in Hnb].
    rewrite (step_tag st line l Hl). unfold kept. by simpl_state.
  - destruct Hcur as [Hcur|Hnb]; [|by rewrite (content_is_body _ Hcont) in Hnb].
    rewrite (content_state st line Hcont).
    destruct (currentLang st) as [l0|]; [|done].
    destruct (currentPart st) as [q|] eqn:Hq; [|by rewrite Hq].
    unfold kept. simpl_state. rewrite Hq. split; [|done].
    repeat split; try done. rewrite list_lookup_alter_ne; [done|]. congruence.
Qed.

Lemma run_kept lines : forall st,
  kept i j k c b s p sid title po st -> currentPart st <> Some p ->
  kept i j k c b s p sid title po (run lines st).
Proof.
  induction lines as [|l ls IH]; intros st H Hcur; simpl; [done|].
  destruct (step_kept st l H (or_introl Hcur)) as [H' Hcur']. by apply IH.
Qed.

Lemma run_kept_rest rest st :
  kept i j k c b s p sid title po st ->
  (forall d, head rest = Some d -> isBody (trim d) = false) ->
  kept i j k c b s p sid title po (run rest st).
Proof.
  intros H Hrest. destruct rest as [|d rest]; [done|]. simpl.
  destruct (step_kept st d H (or_intror (Hrest d eq_refl))) as [H' Hcur'].
  by apply run_kept.
Qed.

End WithPlace.

End CountedKept.

Lemma mapM_lookup {A B} (f : A -> option B) l k i x :
  mapM f l = Some k -> l !! i = Some x -> exists y, k !! i = Some y /\ f x = Some y.
Proof.
  intros H Hx. apply mapM_Some_1 in H.
  destruct (Forall2_lookup_l _ _ _ _ _ H Hx) as (y & Hy & Hf). eauto.
Qed.

Lemma mapM_lookup_r {A B} (f : A -> option B) l k i y :
  mapM f l = Some k -> k !! i = Some y -> exists x, l !! i = Some x /\ f x = Some y.
Proof.
  intros H Hy. apply mapM_Some_1 in H.
  destruct (Forall2_lookup_r _ _ _ _ _ H Hy) as (x & Hx & Hf). eauto.
Qed.

(** What is kept in the store is read back at the same places. *)
Lemma kept_reify i j k c b s p sid title po st lib :
  kept i j k c b s p sid title po st -> reify_library st = Ok lib ->
  exists cat bk sec,
    lib !! i = Some cat
    /\ default [] (item_children cat) !! j = Some bk
    /\ default [] (item_sections bk) !! k = Some sec
    /\ sec_id sec = sid /\ sec_title sec = title
    /\ head (sec_parts sec) = Some po.
Proof.
  intros (Hlib & (co & Hco & Hj) & (bo & Hbo & Hk) & (so & Hso & Hid & Ht & Hh) & Hpo) H.
  unfold reify_library in H.
  destruct (mapM (reify_cat st) (library st)) as [lib'|] eqn:E; [|done].
  injection H as <-.
  destruct (mapM_lookup _ _ _ _ _ E Hlib) as (cat & Hcat & Rc).
  unfold reify_cat in Rc. rewrite Hco in Rc. simpl in Rc.
  destruct (co_children co) as [l|]; simpl in Hj; [|by rewrite lookup_nil in Hj].
  simpl in Rc. destruct (mapM (reify_book st) l) as [bs|] eqn:Eb; [|done].
  simpl in Rc. injection Rc as <-.
  destruct (mapM_lookup _ _ _ _ _ Eb Hj) as (bk & Hbk & Rb).
  unfold reify_book in Rb. rewrite Hbo in Rb. simpl in Rb.
  destruct (bo_sections bo) as [l2|]; simpl in Hk; [|by rewrite lookup_nil in Hk].
  simpl in Rb. destruct (mapM (reify_section st) l2) as [ss|] eqn:Es; [|done].
  simpl in Rb. injection Rb as <-.
  destruct (mapM_lookup _ _ _ _ _ Es Hk) as (sec & Hsec & Rs).
  unfold reify_section in Rs. rewrite Hso in Rs. simpl in Rs.
  destruct (mapM (fun q => parts st !! q) (so_parts so)) as [ps|] eqn:Ep; [|done].
  simpl in Rs. injection Rs as <-.
  rewrite head_lookup in Hh.
  destruct (mapM_lookup _ _ _ _ _ Ep Hh) as (po' & Hpo' & Hp'). simpl in Hp'.
  rewrite Hpo in Hp'. injection Hp' as <-.
  eexists _, _, _. split; [exact Hcat|]. split; [exact Hbk|]. split; [exact Hsec|].
  simpl. by rewrite head_lookup.
Qed.

(** The last book of the last category of the library read back is the book
    under the cursor. *)
Lemma cursors_reify st lib cat ch bk :
  cursors_last st -> reify_library st = Ok lib ->
  last lib = Some cat -> item_children cat = Some ch -> last ch = Some bk ->
  exists c co b bo,
    library st !! pred (length lib) = Some c /\ cats st !! c = Some co
    /\ default [] (co_children co) !! pred (length ch) = Some b
    /\ currentBook st = Some b /\ books st !! b = Some bo
    /\ bo_title bo = item_title bk
    /\ length (default [] (bo_sections bo)) = length (default [] (item_sections bk)).
Proof.
  intros [H1 H2] H Hcat Hch Hbk. unfold reify_library in H.
  destruct (mapM (reify_cat st) (library st)) as [lib'|] eqn:E; [|done].
  injection H as <-.
  pose proof (length_mapM _ _ _ E) as Hlen.
  rewrite last_lookup in Hcat.
  destruct (mapM_lookup_r _ _ _ _ _ E Hcat) as (c & Hc & Rc).
  assert (currentCat st = Some c) as Hcc by (by rewrite H1, last_lookup, Hlen).
  unfold reify_cat in Rc.
  destruct (cats st !! c) as [co|] eqn:Hco; [|done]. simpl in Rc.
  specialize (H2 c co Hcc Hco).
  destruct (co_children co) as [l|] eqn:El; simpl in Rc;
    [|injection Rc as <-; by simpl in Hch].
  destruct (mapM (reify_book st) l) as [bs|] eqn:Eb; [|done].
  simpl in Rc. injection Rc as <-. simpl in Hch. injection Hch as <-.
  pose proof (length_mapM _ _ _ Eb) as Hlenb.
  rewrite last_lookup in Hbk.
  destruct (mapM_lookup_r _ _ _ _ _ Eb Hbk) as (b & Hb & Rb).
  simpl in H2. rewrite last_lookup, Hlenb, Hb in H2.
  unfold reify_book in Rb.
  destruct (books st !! b) as [bo|] eqn:Hbo; [|done]. simpl in Rb.
  exists c, co, b, bo.
  assert (bo_title bo = item_title bk
          /\ length (default [] (bo_sections bo))
             = length (default [] (item_sections bk))) as [Ht Hl].
  { destruct (bo_sections bo) as [l2|]; simpl in Rb.
    - destruct (mapM (reify_section st) l2) as [ss|] eqn:Es; [|done].
      simpl in Rb. injection Rb as <-. simpl. split; [done|].
      by apply length_mapM in Es.
    - by injection Rb as <-. }
  rewrite El. simpl. by repeat split.
Qed.

(** A section heading read with a book under the cursor, then lines that
    are tags or content: the section is listed by that book, after the
    sections it had, and its first part holds the lines, language by
    language. *)
Lemma heading_block_kept st h block i j c co b bo :
  startsWith (trim h) (js "###") = true ->
  Forall (fun line => isBody (trim line) = true) block ->
  library st !! i = Some c -> cats st !! c = Some co ->
  default [] (co_children co) !! j = Some b ->
  currentBook st = Some b -> books st !! b = Some bo ->
  exists po,
    kept i j (length (default [] (bo_sections bo))) c b (length (secs st))
      (length (parts st)) (section_id_of (bo_title bo) (trim (drop 3 (trim h))))
      (trim (drop 3 (trim h))) po (CountedPure.run block (CountedPure.step st h))
    /\ forall l, paragraphs l po = collect l None block.
Proof.
  intros Hh Hblock Hlib Hco Hj Hcb Hbo.
  pose proof (CountedCases.section_state st h Hh) as Hst. cbv zeta in Hst.
  rewrite Hcb in Hst. cbn [mbind option_bind] in Hst. rewrite Hbo in Hst.
  cbn [fmap option_fmap option_map opt_or] in Hst. rewrite or_else_nil in Hst.
  destruct (body_run_frame block (CountedPure.step st h) Hblock) as (Ec & Eb & Es & El).
  destruct (body_lines_collect block (CountedPure.step st h) (length (parts st))
              (mkPart (js "part-"
                       ++ opt_or (Some (js "sec-" ++ slugify (bo_title bo) ++ js "-"
                                        ++ slugify (trim (drop 3 (trim h)))))
                            (js "root")
                       ++ js "-" ++ decimal 1) prayer []))
    as (_ & _ & _ & po & Hpo & Hpar); [by rewrite Hst| |done|].
  { rewrite Hst. simpl_state. by apply list_lookup_middle. }
  exists po. split.
  - unfold kept. rewrite Ec, Eb, Es, El. split; [|split; [|split; [|split]]].
    + by rewrite Hst.
    + exists co. by rewrite Hst.
    + exists (add_section (length (secs st)) bo). rewrite Hst. simpl_state.
      rewrite list_lookup_alter_eq, Hbo. split; [done|]. simpl.
      by apply list_lookup_middle.
    + eexists. rewrite Hst. simpl_state. split; [by apply list_lookup_middle|].
      by repeat split.
    + exact Hpo.
  - intros l. rewrite Hpar. by rewrite Hst.
Qed.

(** C8.  A Section heading makes a section and at once its first part,
    empty and current, whatever the state; the lines that follow, up to the
    next delimiter or heading, go to that first part language by language:
    a line that is not blank is a paragraph of the language of the last tag
    above it, and a line above the first tag is ignored, since the heading
    leaves no language current.  When the text before the heading leaves a
    book open (the last category of its library has a last book), the
    library returned for the whole text lists the section in that book,
    after the sections the book had, and its first part holds those
    paragraphs, whatever follows.  For every text, every section of the
    library returned has at least one part. *)
Theorem section_starts_with_a_part
    (st : State) (text0 text h : jsstring) (block rest : list jsstring)
    (lib0 ch0 : list LibraryItem) (cat0 bk0 : LibraryItem)
    (Hv : valid st)
    (Hh : startsWith (trim h) (js "###") = true)
    (Hblock : Forall (fun line => isBody (trim line) = true) block)
    (Hrest : forall d, head rest = Some d -> isBody (trim d) = false)
    (Hlines : split_nl text = split_nl text0 ++ h :: block ++ rest)
    (Hlib0 : Counted.parseTextToLibrary text0 = Ok lib0)
    (Hcat0 : last lib0 = Some cat0)
    (Hch0 : item_children cat0 = Some ch0)
    (Hbk0 : last ch0 = Some bk0) :
  (exists st1 id pid,
     Counted.processLine st h = Ok st1
     /\ secs st1 !! length (secs st)
        = Some (mkSectionObj id (trim (drop 3 (trim h))) [length (parts st)])
     /\ parts st1 !! length (parts st) = Some (mkPart pid prayer [])
     /\ currentSection st1 = Some (length (secs st))
     /\ currentPart st1 = Some (length (parts st))
     /\ currentLang st1 = None)
  /\ (exists st2 id po,
        forEach Counted.processLine (h :: block) st = Ok st2
        /\ secs st2 !! length (secs st)
           = Some (mkSectionObj id (trim (drop 3 (trim h))) [length (parts st)])
        /\ parts st2 !! length (parts st) = Some po
        /\ forall l, paragraphs l po = collect l None block)
  /\ (exists lib cat bk sec po,
        Counted.parseTextToLibrary text = Ok lib
        /\ lib !! pred (length lib0) = Some cat
        /\ default [] (item_children cat) !! pred (length ch0) = Some bk
        /\ default [] (item_sections bk) !! length (default [] (item_sections bk0))
           = Some sec
        /\ sec_id sec = js "sec-" ++ slugify (item_title bk0) ++ js "-"
                        ++ slugify (trim (drop 3 (trim h)))
        /\ sec_title sec = trim (drop 3 (trim h))
        /\ head (sec_parts sec) = Some po
        /\ forall l, paragraphs l po = collect l None block)
  /\ (forall t, exists lib,
        Counted.parseTextToLibrary t = Ok lib
        /\ Forall (fun sec => sec_parts sec <> []) (sections_of_library lib)).
Proof.
  destruct (CountedLines.section_heading_effect st h Hv Hh)
    as (st1 & id & pid & Hrun & Hs & Hp & Hlang & Hso & Hpo & _).
  split; [|split; [|split]].
  - exists st1, id, pid. by repeat split.
  - pose proof Hrun as Hst1. rewrite CountedFacts.processLine_step in Hst1 by done.
    injection Hst1 as Hst1.
    rewrite CountedFacts.forEach_run by done.
    change (CountedPure.run (h :: block) st)
      with (CountedPure.run block (CountedPure.step st h)).
    rewrite Hst1.
    destruct (body_lines_collect block st1 _ _ Hp Hpo Hblock)
      as (_ & _ & _ & po & Hpo' & Hpar).
    destruct (body_run_frame block st1 Hblock) as (_ & _ & Es & _).
    exists (CountedPure.run block st1), id, po.
    split; [done|]. rewrite Es. split; [done|]. split; [done|].
    intros l. by rewrite Hpar, Hlang.
  - rewrite Counted_parse_run in Hlib0. rewrite Counted_parse_run, Hlines.
    set (st0 := CountedPure.run (split_nl text0) init) in *.
    assert (valid st0) as Hv0 by apply CountedFacts.run_valid, valid_init.
    assert (cursors_last st0) as Hc0
      by apply CountedCursors.run_cursors_last, CountedCursors.cursors_last_init.
    destruct (cursors_reify st0 lib0 cat0 ch0 bk0 Hc0 Hlib0 Hcat0 Hch0 Hbk0)
      as (c & co & b & bo & Hlib & Hco & Hj & Hcb & Hbo & Ht & Hlen).
    destruct (heading_block_kept st0 h block _ _ c co b bo Hh Hblock Hlib Hco Hj Hcb Hbo)
      as (po & Hkept & Hpar).
    apply (CountedKept.run_kept_rest _ _ _ _ _ _ _ _ _ _ rest) in Hkept; [|done].
    assert (CountedPure.run (split_nl text0 ++ h :: block ++ rest) init
            = CountedPure.run rest (CountedPure.run block (CountedPure.step st0 h)))
      as ->.
    { unfold CountedPure.run. rewrite fold_left_app. cbn [fold_left].
      by rewrite fold_left_app. }
    destruct (reify_library_ok
                (CountedPure.run rest (CountedPure.run block (CountedPure.step st0 h))))
      as [lib Hlibf].
    { by apply CountedFacts.run_valid, CountedFacts.run_valid, CountedFacts.step_valid. }
    destruct (kept_reify _ _ _ _ _ _ _ _ _ _ _ _ Hkept Hlibf)
      as (cat & bk & sec & H1 & H2 & H3 & H4 & H5 & H6).
    exists lib, cat, bk, sec, po. rewrite <- Hlen, <- Ht.
    by repeat split.
  - intros t. unfold Counted.parseTextToLibrary.
    destruct (negb (truthy (trim t))); [exists []; split; [done|constructor]|].
    rewrite CountedFacts.forEach_run by apply valid_init. simpl.
    destruct (reify_library_ok (CountedPure.run (split_nl t) init)) as [lib Hlib].
    { apply CountedFacts.run_valid, valid_init. }
    exists lib. split; [done|].
    eapply reify_library_populated; [|exact Hlib].
    apply CountedPopulated.run_populated. constructor.
Qed.

Lemma section_starts_with_a_part_witness :
  exists lib cat bk sec po,
    Counted.parseTextToLibrary (js "# C
## B
### S
Lost
[EN]
A

B
[ar]
C
---
[EN]
D") = Ok lib
    /\ lib !! 0 = Some cat
    /\ default [] (item_children cat) !! 0 = Some bk
    /\ default [] (item_sections bk) !! 0 = Some sec
    /\ sec_title sec = js "S"
    /\ head (sec_parts sec) = Some po
    /\ paragraphs ENGLISH po = [js "A"; js "B"]
    /\ paragraphs ARABIC po = [js "C"].
Proof.
  assert (Forall (fun line => isBody (trim line) = true)
            [js "Lost"; js "[EN]"; js "A"; js ""; js "B"; js "[ar]"; js "C"]) as Hblock
    by repeat constructor.
  assert (forall d, head [js "---"; js "[EN]"; js "D"] = Some d ->
                    isBody (trim d) = false) as Hrest
    by (by intros d [= <-]).
  destruct (section_starts_with_a_part init (js "# C
## B") (js "# C
## B
### S
Lost
[EN]
A

B
[ar]
C
---
[EN]
D") (js "### S") [js "Lost"; js "[EN]"; js "A"; js ""; js "B"; js "[ar]"; js "C"]
              [js "---"; js "[EN]"; js "D"]
              [mkItem (js "cat-c") (js "C") category
                 (Some [mkItem (js "book-c-b") (js "B") book None (Some [])]) None]
              [mkItem (js "book-c-b") (js "B") book None (Some [])]
              (mkItem (js "cat-c") (js "C") category
                 (Some [mkItem (js "book-c-b") (js "B") book None (Some [])]) None)
              (mkItem (js "book-c-b") (js "B") book None (Some []))
              valid_init eq_refl Hblock Hrest eq_refl eq_refl eq_refl eq_refl eq_refl)
    as (_ & _ & (lib & cat & bk & sec & po & H1 & H2 & H3 & H4 & _ & H5 & H6 & H7) & _).
  exists lib, cat, bk, sec, po.
  split; [exact H1|]. split; [exact H2|]. split; [exact H3|]. split; [exact H4|].
  split; [exact H5|]. split; [exact H6|].
  split; [exact (H7 ENGLISH)|exact (H7 ARABIC)].
Defined.

(** Two kinds of lines that follow a section heading, before any delimiter,
    and are not in its first part: a line between the heading and the first
    language tag is in no part of the library; and the lines of a section
    read with no book open are not in the library at all. *)
Lemma lines_lost_after_heading :
  Counted.parseTextToLibrary (js "# C
## B
### S
Hello
[EN]
World
---
[EN]
More")
  = Ok [mkItem (js "cat-c") (js "C") category
          (Some [mkItem (js "book-c-b") (js "B") book None
                   (Some [mkSection (js "sec-b-s") (js "S")
                            [mkPart (js "part-sec-b-s-1") prayer
                               [(ENGLISH, [js "World"])];
                             mkPart (js "part-sec-b-s-2") prayer
                               [(ENGLISH, [js "More"])]]])])
          None]
  /\ Counted.parseTextToLibrary (js "# C
### S
[EN]
Hello") = Ok [mkItem (js "cat-c") (js "C") category (Some []) None].
Proof. split; vm_compute; reflexivity. Qed.

(** * The application *)

(** ** Finding a book *)

Lemma findBook_visit_eq id item :
  findBook_visit id item
  = if isBookWithId id item then Some item
    else match item_children item with
         | Some children => findBook children id
         | None => None
         end.
Proof.
  destruct item as [iid t ty [ch|] ss]; unfold isBookWithId; simpl; [|done].
  destruct (eqb iid id && ItemType_eqb ty book); [done|].
  induction ch as [|x r IH]; simpl; [done|]. by rewrite IH.
Qed.

(** The loop of the source, turn by turn. *)
Lemma findBook_cons id item rest :
  findBook (item :: rest) id
  = if isBookWithId id item then Some item
    else match item_children item with
         | Some children =>
             match findBook children id with
             | Some found => Some found
             | None => findBook rest id
             end
         | None => findBook rest id
         end.
Proof.
  cbn [findBook]. rewrite findBook_visit_eq.
  destruct (isBookWithId id item); [done|]. by destruct (item_children item).
Qed.

Lemma head_filter_app {A} (f : A -> bool) l k :
  head (List.filter f (l ++ k))
  = match head (List.filter f l) with
    | Some x => Some x
    | None => head (List.filter f k)
    end.
Proof.
  induction l as [|x l IH]; simpl; [by destruct (head _)|].
  by destruct (f x).
Qed.

Lemma items_of_eq item :
  items_of item
  = item :: match item_children item with
            | Some children => flat_map items_of children
            | None => []
            end.
Proof. by destruct item. Qed.

Lemma findBook_first_of id items :
  Forall (fun item =>
            findBook_visit id item = head (List.filter (isBookWithId id) (items_of item)))
    items ->
  findBook items id = head (List.filter (isBookWithId id) (flat_map items_of items)).
Proof.
  induction 1 as [|x r Hx _ IH]; simpl; [done|].
  by rewrite head_filter_app, Hx, IH.
Qed.

Lemma findBook_visit_first id item :
  findBook_visit id item = head (List.filter (isBookWithId id) (items_of item)).
Proof.
  induction item as [iid t ty ch ss IH] using LibraryItem_nested_ind.
  rewrite findBook_visit_eq, items_of_eq. cbn [List.filter item_children].
  destruct (isBookWithId id _); [done|].
  destruct ch as [children|]; [|done]. by apply findBook_first_of.
Qed.

Lemma findBook_head_filter items id :
  findBook items id = head (List.filter (isBookWithId id) (flat_map items_of items)).
Proof.
  apply findBook_first_of, Forall_forall. intros item _. apply findBook_visit_first.
Qed.

(** X12.  [findBook] returns the first item, parents before children, that
    is a book with the identifier asked for, and [null] when there is
    none. *)
Theorem findBook_first_match (items : list LibraryItem) (id : jsstring) :
  findBook items id = head (List.filter (isBookWithId id) (flat_map items_of items))
  /\ (forall found, findBook items id = Some found ->
        item_id found = id /\ item_type found = book
        /\ found ∈ flat_map items_of items)
  /\ (findBook items id = None <->
      Forall (fun item => item_id item = id -> item_type item <> book)
        (flat_map items_of items)).
Proof.
  pose proof (findBook_head_filter items id) as E.
  split; [done|]. rewrite E. clear E.
  generalize (flat_map items_of items). intros l. split.
  - intros found H.
    assert (In found (List.filter (isBookWithId id) l)) as Hin.
    { destruct (List.filter _ l); [done|]. injection H as ->. by left. }
    apply filter_In in Hin as [Hin Hm]. unfold isBookWithId in Hm.
    apply andb_true_iff in Hm as [H1 H2]. apply eqb_eq in H1.
    split; [done|]. split; [by destruct (item_type found)|by apply list_elem_of_In].
  - induction l as [|x l IH]; simpl.
    + split; [constructor|done].
    + unfold isBookWithId at 1.
      destruct (eqb (item_id x) id) eqn:E1; simpl.
      * apply eqb_eq in E1. destruct (item_type x) eqn:E2; simpl.
        -- rewrite IH. split; [|by inversion 1].
           intros H. constructor; [|done]. intros _. by rewrite E2.
        -- split; [done|]. inversion 1 as [|? ? Hx]; subst.
           by destruct (Hx eq_refl).
      * rewrite IH. split.
        -- intros H. constructor; [|done]. intros Hid. apply eqb_eq in Hid. congruence.
        -- by inversion 1.
Qed.

(** ** Finding a book of a parsed library *)

Lemma reify_book_layers st b it :
  reify_book st b = Some it -> item_type it = book /\ item_children it = None.
Proof.
  unfold reify_book. intros H.
  destruct (books st !! b) as [bo|]; [|done]. simpl in H.
  destruct (bo_sections bo) as [l|]; simpl in H.
  - destruct (mapM _ l); [|done]. simpl in H. by injection H as <-.
  - by injection H as <-.
Qed.

Lemma reify_cat_layers st c it :
  reify_cat st c = Some it ->
  item_type it = category
  /\ Forall (fun b => item_type b = book /\ item_children b = None)
       (default [] (item_children it)).
Proof.
  unfold reify_cat. intros H.
  destruct (cats st !! c) as [co|]; [|done]. simpl in H.
  destruct (co_children co) as [l|]; simpl in H.
  - destruct (mapM _ l) as [bs|] eqn:E; [|done]. simpl in H. injection H as <-.
    split; [done|]. simpl.
    eapply mapM_Forall; [|exact E]. intros b' it'. apply reify_book_layers.
  - injection H as <-. split; [done|]. constructor.
Qed.

Lemma reify_library_layers st lib :
  reify_library st = Ok lib ->
  Forall (fun c => item_type c = category
                   /\ Forall (fun b => item_type b = book /\ item_children b = None)
                        (default [] (item_children c))) lib.
Proof.
  unfold reify_library. intros H.
  destruct (mapM _ _) as [lib'|] eqn:E; [|done]. injection H as ->.
  eapply mapM_Forall; [|exact E]. intros c it. apply reify_cat_layers.
Qed.

Lemma filter_books id l :
  Forall (fun b => item_type b = book /\ item_children b = None) l ->
  List.filter (isBookWithId id) (flat_map items_of l)
  = List.filter (fun b => eqb (item_id b) id) l.
Proof.
  induction 1 as [|b l [Hb Hc] _ IH]; [done|].
  cbn [flat_map]. rewrite items_of_eq, Hc. cbn [app List.filter].
  rewrite IH. unfold isBookWithId. rewrite Hb. cbn [ItemType_eqb].
  by rewrite andb_true_r.
Qed.

Lemma filter_library id lib :
  Forall (fun c => item_type c = category
                   /\ Forall (fun b => item_type b = book /\ item_children b = None)
                        (default [] (item_children c))) lib ->
  List.filter (isBookWithId id) (flat_map items_of lib)
  = List.filter (fun b => eqb (item_id b) id) (books_of_library lib).
Proof.
  unfold books_of_library.
  induction 1 as [|c lib [Hc Hb] _ IH]; [done|].
  cbn [flat_map]. rewrite !List.filter_app, IH. f_equal.
  rewrite items_of_eq. cbn [List.filter]. unfold isBookWithId at 1.
  rewrite Hc. cbn [ItemType_eqb]. rewrite andb_false_r.
  destruct (item_children c) as [l|]; [|done]. by apply filter_books.
Qed.

(** The identifier of every book made so far starts with "book-". *)
Lemma startsWith_app p s : startsWith (p ++ s) p = true.
Proof. induction p as [|x p IH]; simpl; [done|]. by rewrite N.eqb_refl. Qed.

Module CountedBooks.

Import Counted CountedPure CountedFacts CountedLines CountedOrphanSteps CountedCases.

Lemma step_book_ids st line :
  Forall (fun bo => startsWith (bo_id bo) (js "book-") = true) (books st) ->
  Forall (fun bo => startsWith (bo_id bo) (js "book-") = true) (books (step st line)).
Proof.
  intros H.
  destruct (line_cases (trim line)) as [Hs|[[Hs Hb]|[[Hb Hc]|[Hd|[[l Hl]|Hcont]]]]].
  - destruct (section_heading_stores st line Hs) as (_ & _ & -> & _).
    destruct (currentBook st); [|done]. by apply Forall_alter.
  - rewrite (book_state st line Hs Hb). simpl_state.
    apply Forall_app. split; [done|]. constructor; [apply startsWith_app|constructor].
  - by rewrite (category_state st line Hb Hc).
  - by rewrite (delimiter_state st line Hd).
  - by rewrite (step_tag st line l Hl).
  - by destruct (CountedSim.content_fields st line Hcont) as (_ & _ & -> & _).
Qed.

Lemma run_book_ids ls : forall st,
  Forall (fun bo => startsWith (bo_id bo) (js "book-") = true) (books st) ->
  Forall (fun bo => startsWith (bo_id bo) (js "book-") = true) (books (run ls st)).
Proof.
  induction ls as [|l ls IH]; intros st H; simpl; [done|].
  by apply IH, step_book_ids.
Qed.

End CountedBooks.

Lemma reify_book_id st b it :
  reify_book st b = Some it ->
  exists bo, books st !! b = Some bo /\ item_id it = bo_id bo.
Proof.
  unfold reify_book. intros H.
  destruct (books st !! b) as [bo|]; [|done]. simpl in H. exists bo. split; [done|].
  destruct (bo_sections bo) as [l|]; simpl in H.
  - destruct (mapM _ l); [|done]. simpl in H. by injection H as <-.
  - by injection H as <-.
Qed.

(** X13.  In a library the parser returns, [findBook] looks among the books
    of the categories and returns the first with the identifier asked for:
    every book of the library is found by its identifier, up to books that
    share it, and the empty identifier the application starts with finds
    none. *)
Theorem findBook_in_library (text : jsstring) :
  exists lib,
    Counted.parseTextToLibrary text = Ok lib
    /\ (forall id,
          findBook lib id
          = head (List.filter (fun b => eqb (item_id b) id) (books_of_library lib)))
    /\ (forall b, b ∈ books_of_library lib ->
          exists b', findBook lib (item_id b) = Some b'
                     /\ item_id b' = item_id b /\ b' ∈ books_of_library lib)
    /\ findBook lib [] = None.
Proof.
  rewrite Counted_parse_run.
  set (st := CountedPure.run (split_nl text) init).
  assert (valid st) as Hv by apply CountedFacts.run_valid, valid_init.
  destruct (reify_library_ok st Hv) as [lib Hlib].
  exists lib. split; [done|].
  assert (forall id,
            findBook lib id
            = head (List.filter (fun b => eqb (item_id b) id) (books_of_library lib)))
    as Hfind.
  { intros id. rewrite findBook_head_filter.
    f_equal. apply filter_library. by apply (reify_library_layers st). }
  split; [done|]. split.
  - intros b Hb. rewrite Hfind.
    assert (In b (List.filter (fun b' => eqb (item_id b') (item_id b))
                    (books_of_library lib))) as Hin.
    { apply filter_In. split; [by apply list_elem_of_In|apply eqb_refl]. }
    destruct (List.filter _ _) as [|b' l] eqn:E; [done|].
    exists b'. split; [done|].
    assert (In b' (List.filter (fun b' => eqb (item_id b') (item_id b))
                     (books_of_library lib))) as Hin' by (rewrite E; by left).
    apply filter_In in Hin' as [H1 H2]. apply eqb_eq in H2.
    split; [done|by apply list_elem_of_In].
  - rewrite Hfind.
    destruct (List.filter _ _) as [|b' l] eqn:E; [done|]. exfalso.
    assert (In b' (List.filter (fun b' => eqb (item_id b') [])
                     (books_of_library lib))) as Hin' by (rewrite E; by left).
    apply filter_In in Hin' as [H1 H2]. apply eqb_eq in H2.
    apply list_elem_of_In in H1.
    destruct (reify_library_books st lib b' Hlib H1) as [r Hr].
    apply reify_book_id in Hr as (bo & Hbo & Hid).
    assert (Forall (fun bo => startsWith (bo_id bo) (js "book-") = true) (books st))
      as HF by (apply CountedBooks.run_book_ids; constructor).
    rewrite Forall_lookup in HF. specialize (HF _ _ Hbo).
    by rewrite <- Hid, H2 in HF.
Qed.

(** ** The settings *)

Lemma includes_spec lang ls : includes lang ls = true <-> lang ∈ ls.
Proof.
  unfold includes. induction ls as [|l ls IH]; simpl.
  - split; [done|]. by intros H%elem_of_nil.
  - rewrite orb_true_iff, IH, Language_eqb_eq, elem_of_cons.
    split; (intros [->|H]; [by left|by right]).
Qed.

Lemma filter_absent lang ls :
  lang ∉ ls -> List.filter (fun l => negb (Language_eqb l lang)) ls = ls.
Proof.
  induction ls as [|l ls IH]; simpl; [done|]. intros H.
  apply not_elem_of_cons in H as [H1 H2].
  destruct (Language_eqb l lang) eqn:E.
  - apply Language_eqb_eq in E. congruence.
  - simpl. by rewrite IH.
Qed.

Lemma not_elem_of_filter lang ls :
  lang ∉ List.filter (fun l => negb (Language_eqb l lang)) ls.
Proof.
  intros H. apply list_elem_of_In, filter_In in H as [_ H].
  apply negb_true_iff in H. by rewrite Language_eqb_refl in H.
Qed.

Lemma filter_present lang ls :
  NoDup ls -> lang ∈ ls ->
  List.filter (fun l => negb (Language_eqb l lang)) ls ++ [lang] ≡ₚ ls.
Proof.
  induction 1 as [|l ls Hl Hnd IH]; [by intros H%elem_of_nil|].
  intros H. simpl. destruct (Language_eqb l lang) eqn:E; simpl.
  - apply Language_eqb_eq in E. subst l. rewrite filter_absent by done.
    symmetry. apply Permutation_cons_append.
  - apply elem_of_cons in H as [->|H].
    + by rewrite Language_eqb_refl in E.
    + by rewrite (IH H).
Qed.

Lemma NoDup_list_filter {A} (f : A -> bool) (l : list A) :
  NoDup l -> NoDup (List.filter f l).
Proof.
  induction 1 as [|x l Hx Hnd IH]; simpl; [constructor|].
  destruct (f x); [|done]. constructor; [|done].
  intros H. apply Hx. by apply list_elem_of_In, filter_In in H as [H%list_elem_of_In _].
Qed.

Lemma toggleLanguage_ok lang s : settings_ok s -> settings_ok (toggleLanguage lang s).
Proof.
  intros (Hf & He & Hne & Hnd). unfold toggleLanguage.
  destruct (includes lang (languages s)) eqn:Hin; simpl.
  - destruct (Nat.eqb_spec (length (languages s)) 1) as [Hlen|Hlen]; [done|].
    split; [done|]. split; [done|]. simpl. split; [|by apply NoDup_list_filter].
    destruct (languages s) as [|a [|b r]] eqn:E; [done..|].
    apply NoDup_cons in Hnd as [Ha _]. apply not_elem_of_cons in Ha as [Hab _].
    simpl. destruct (Language_eqb a lang) eqn:Ea; [|done].
    destruct (Language_eqb b lang) eqn:Eb; [|done].
    apply Language_eqb_eq in Ea, Eb. congruence.
  - split; [done|]. split; [done|]. simpl. split.
    + by destruct (languages s).
    + apply NoDup_app. split; [done|]. split; [|apply NoDup_singleton].
      intros x Hx Hx'. apply list_elem_of_singleton in Hx'. subst x.
      apply includes_spec in Hx. congruence.
Qed.

Lemma font_ok s :
  settings_ok s -> settings_ok (decreaseFont s) /\ settings_ok (increaseFont s).
Proof.
  intros (Hf & He & Hne & Hnd).
  assert (Z.even (fontSize s - 2) = true /\ Z.even (fontSize s + 2) = true) as [E1 E2].
  { by rewrite Z.even_sub, Z.even_add, He. }
  split; (split; [|split; [|done]]); simpl.
  - lia.
  - destruct (Z.max_spec 12 (fontSize s - 2)) as [[_ ->]|[_ ->]]; done.
  - lia.
  - destruct (Z.min_spec 72 (fontSize s + 2)) as [[_ ->]|[_ ->]]; done.
Qed.

Lemma act_modes s a :
  presentationMode (act s a) = presentationMode s
  /\ isFullscreen (act s a) = isFullscreen s.
Proof.
  destruct a as [lang| |]; simpl; [|done..]. unfold toggleLanguage.
  by destruct (_ && _).
Qed.

(** X14.  Whatever the buttons pressed, the settings keep a font size that is
    an even number from 12 to 72 and a list of languages that is not empty
    and lists no language twice; presentation mode stays on. *)
Theorem settings_invariant (actions : list SettingsAction) :
  settings_ok (fold_left act actions initialSettings)
  /\ presentationMode (fold_left act actions initialSettings) = true
  /\ isFullscreen (fold_left act actions initialSettings) = false.
Proof.
  assert (settings_ok initialSettings) as H0.
  { split; [simpl; lia|]. split; [done|]. split; [done|]. simpl.
    repeat (apply NoDup_cons; split;
            [rewrite ?elem_of_cons, elem_of_nil; by intros [?|[?|[?|[?|?]]]]
            || by intros [?|[?|[?|?]]] || by intros [?|[?|?]] || by intros [?|?]
            || by intros ?|]).
    apply NoDup_nil_2. }
  assert (presentationMode initialSettings = true
          /\ isFullscreen initialSettings = false) as H1 by done.
  revert H0 H1. generalize initialSettings.
  induction actions as [|a actions IH]; intros s H0 [H1 H2]; simpl; [done|].
  apply IH.
  - destruct a; simpl; [by apply toggleLanguage_ok|by apply font_ok..].
  - destruct (act_modes s a) as [-> ->]. done.
Qed.

Lemma toggleLanguage_moves lang s pre post :
  NoDup (languages s) -> languages s = pre ++ lang :: post -> pre ++ post <> [] ->
  toggleLanguage lang s
  = mkSettings (fontSize s) (pre ++ post) (presentationMode s) (isFullscreen s)
  /\ toggleLanguage lang (toggleLanguage lang s)
     = mkSettings (fontSize s) (pre ++ post ++ [lang]) (presentationMode s)
         (isFullscreen s).
Proof.
  intros Hnd E Hne. destruct s as [f ls p fs]. simpl in *. subst ls.
  apply NoDup_app in Hnd as (_ & Hpre & Hpost).
  apply NoDup_cons in Hpost as [Hpost _].
  assert (lang ∉ pre) as Hpre'.
  { intros H. apply (Hpre _ H). by left. }
  assert (includes lang (pre ++ lang :: post) = true) as Hin.
  { apply includes_spec, elem_of_app. right. by left. }
  assert ((length (pre ++ lang :: post) =? 1)%nat = false) as Hlen.
  { apply Nat.eqb_neq. rewrite length_app. simpl.
    destruct pre; [destruct post; [done|simpl; lia]|simpl; lia]. }
  assert (List.filter (fun l => negb (Language_eqb l lang)) (pre ++ lang :: post)
          = pre ++ post) as Hf.
  { rewrite List.filter_app. cbn [List.filter]. rewrite Language_eqb_refl.
    cbn [negb]. by rewrite !filter_absent. }
  assert (toggleLanguage lang (mkSettings f (pre ++ lang :: post) p fs)
          = mkSettings f (pre ++ post) p fs) as E1.
  { unfold toggleLanguage. cbn [languages fontSize presentationMode isFullscreen].
    by rewrite Hin, Hlen, Hf. }
  split; [done|]. rewrite E1.
  unfold toggleLanguage. cbn [languages fontSize presentationMode isFullscreen].
  assert (includes lang (pre ++ post) = false) as ->.
  { apply not_true_iff_false. rewrite includes_spec, elem_of_app. tauto. }
  cbn [andb]. by rewrite app_assoc.
Qed.

(** X15.  Pressing a language button twice gives back the same languages.
    The settings are the same when the language was not selected or was the
    only one; otherwise the first press takes the language out of the list
    and the second puts it at the end, the other languages keeping their
    order. *)
Theorem toggleLanguage_twice (lang : Language) (s : AppSettings)
    (Hnd : NoDup (languages s)) (Hne : languages s <> []) :
  languages (toggleLanguage lang (toggleLanguage lang s)) ≡ₚ languages s
  /\ (lang ∉ languages s \/ languages s = [lang] ->
      toggleLanguage lang (toggleLanguage lang s) = s)
  /\ (forall pre post,
        languages s = pre ++ lang :: post -> pre ++ post <> [] ->
        toggleLanguage lang s
        = mkSettings (fontSize s) (pre ++ post) (presentationMode s) (isFullscreen s)
        /\ toggleLanguage lang (toggleLanguage lang s)
           = mkSettings (fontSize s) (pre ++ post ++ [lang]) (presentationMode s)
               (isFullscreen s))
  /\ forall l, includes l (languages (toggleLanguage lang (toggleLanguage lang s)))
               = includes l (languages s).
Proof.
  assert (languages (toggleLanguage lang (toggleLanguage lang s)) ≡ₚ languages s
          /\ (lang ∉ languages s \/ languages s = [lang] ->
              toggleLanguage lang (toggleLanguage lang s) = s)) as [HP HE].
  { destruct s as [f ls p fs]. simpl in *.
    destruct (includes lang ls) eqn:Hin.
    - destruct (Nat.eqb_spec (length ls) 1) as [Hlen|Hlen].
      + assert (toggleLanguage lang (mkSettings f ls p fs) = mkSettings f ls p fs) as E.
        { unfold toggleLanguage. simpl. by rewrite Hin, Hlen. }
        rewrite !E. done.
      + assert (toggleLanguage lang (mkSettings f ls p fs)
                = mkSettings f (List.filter (fun l => negb (Language_eqb l lang)) ls)
                    p fs) as ->.
        { unfold toggleLanguage. simpl. rewrite Hin. simpl.
          by destruct (Nat.eqb_spec (length ls) 1). }
        unfold toggleLanguage. simpl.
        assert (includes lang (List.filter (fun l => negb (Language_eqb l lang)) ls)
                = false) as ->.
        { apply not_true_iff_false. rewrite includes_spec. apply not_elem_of_filter. }
        simpl. apply includes_spec in Hin. split; [by apply filter_present|].
        intros [H| ->]; [done|]. by destruct Hlen.
    - assert (lang ∉ ls) as Hnot by (rewrite <- includes_spec; congruence).
      assert (toggleLanguage lang (mkSettings f ls p fs)
              = mkSettings f (ls ++ [lang]) p fs) as ->.
      { unfold toggleLanguage. simpl. by rewrite Hin. }
      unfold toggleLanguage. simpl.
      assert (includes lang (ls ++ [lang]) = true) as ->.
      { apply includes_spec, elem_of_app. right. by left. }
      rewrite length_app. simpl.
      destruct (Nat.eqb_spec (length ls + 1) 1) as [Hlen|Hlen].
      { destruct ls; [done|simpl in Hlen; lia]. }
      simpl. rewrite List.filter_app, filter_absent by done. simpl.
      rewrite Language_eqb_refl. simpl. by rewrite app_nil_r. }
  split; [done|]. split; [done|]. split.
  { intros pre post E Hrest. by apply toggleLanguage_moves. }
  intros l.
  destruct (includes l (languages s)) eqn:E.
  - apply includes_spec. rewrite HP. by apply includes_spec.
  - apply not_true_iff_false. rewrite includes_spec, HP, <- includes_spec. congruence.
Qed.

Lemma toggleLanguage_twice_witness :
  languages (toggleLanguage COPTIC initialSettings)
  = [ENGLISH; ARABIC; TRANSLITERATED_ENGLISH; TRANSLITERATED_ARABIC]
  /\ languages (toggleLanguage COPTIC (toggleLanguage COPTIC initialSettings))
     = [ENGLISH; ARABIC; TRANSLITERATED_ENGLISH; TRANSLITERATED_ARABIC; COPTIC].
Proof.
  assert (NoDup (languages initialSettings)) as Hnd.
  { simpl.
    repeat (apply NoDup_cons; split;
            [rewrite ?elem_of_cons, elem_of_nil; by intros [?|[?|[?|[?|?]]]]
            || by intros [?|[?|[?|?]]] || by intros [?|[?|?]] || by intros [?|?]
            || by intros ?|]).
    apply NoDup_nil_2. }
  assert (languages initialSettings <> []) as Hne by done.
  destruct (toggleLanguage_twice COPTIC initialSettings Hnd Hne) as (_ & _ & H & _).
  destruct (H [ENGLISH] [ARABIC; TRANSLITERATED_ENGLISH; TRANSLITERATED_ARABIC]
              eq_refl ltac:(discriminate)) as [H1 H2].
  split; [exact (f_equal languages H1)|exact (f_equal languages H2)].
Defined.

(** * The reader *)

Section ReaderFacts.

Local Open Scope Z_scope.

Lemma findIndex_from_first {A} (f : A -> bool) pre x post i :
  Forall (fun y => f y = false) pre -> f x = true ->
  findIndex_from f (pre ++ x :: post) i = i + Z.of_nat (length pre).
Proof.
  intros H Hx. revert i. induction H as [|y pre Hy _ IH]; intros i; simpl.
  - rewrite Hx. lia.
  - rewrite Hy, IH. lia.
Qed.

Lemma findIndex_from_none {A} (f : A -> bool) l i :
  Forall (fun y => f y = false) l -> findIndex_from f l i = -1.
Proof.
  intros H. revert i. induction H as [|y l Hy _ IH]; intros i; simpl; [done|].
  by rewrite Hy.
Qed.

(** A list cut at its first element that passes [f]. *)
Lemma first_split {A} (f : A -> bool) l :
  Forall (fun y => f y = false) l
  \/ exists pre x post, l = pre ++ x :: post /\ Forall (fun y => f y = false) pre
                        /\ f x = true.
Proof.
  induction l as [|y l IH]; [left; constructor|].
  destruct (f y) eqn:E.
  - right. exists [], y, l. repeat split; [constructor|done].
  - destruct IH as [IH|(pre & x & post & -> & Hpre & Hx)].
    + left. by constructor.
    + right. exists (y :: pre), x, post. repeat split; [by constructor|done].
Qed.

Lemma flatten_app l k : flatten (l ++ k) = flatten l ++ flatten k.
Proof. unfold flatten. apply flat_map_app. Qed.

Lemma flatten_ids t sections :
  Forall (fun s => eqb (sec_id s) t = false) sections ->
  Forall (fun p => eqb (fp_sectionId p) t = false) (flatten sections).
Proof.
  unfold flatten. induction 1 as [|s l Hs _ IH]; simpl; [constructor|].
  apply Forall_app. split; [|done].
  induction (sec_parts s) as [|p ps IHp]; simpl; by constructor.
Qed.

Lemma navigate_target b pre sec post p ps rs :
  item_sections b = Some (pre ++ sec :: post) ->
  sec_id sec <> [] ->
  Forall (fun s => sec_id s <> sec_id sec) pre ->
  sec_parts sec = p :: ps ->
  navigate (Some b) (Some (sec_id sec)) rs
  = (mkReader (Z.of_nat (length (flatten pre))) (Some (item_id b)), true)
  /\ allParts (Some b) !! length (flatten pre) = Some (mkFlat p (sec_title sec) (sec_id sec))
  /\ safeIndex (Z.of_nat (length (flatten pre))) (allParts (Some b))
     = Z.of_nat (length (flatten pre)).
Proof.
  intros Hb Hid Hpre Hp.
  assert (allParts (Some b)
          = flatten pre ++ mkFlat p (sec_title sec) (sec_id sec)
              :: (map (fun part => mkFlat part (sec_title sec) (sec_id sec)) ps
                  ++ flatten post)) as Hall.
  { unfold allParts. rewrite Hb, flatten_app. f_equal.
    unfold flatten at 1. cbn [flat_map]. by rewrite Hp. }
  split; [|split].
  - unfold navigate. rewrite Hall.
    rewrite length_app. cbn [length]. rewrite Nat.add_succ_r. cbn [Nat.eqb].
    destruct (sec_id sec) as [|c r] eqn:E; [done|]. cbn [truthy].
    unfold findIndex. rewrite findIndex_from_first.
    + rewrite Z.add_0_l.
      destruct (Z.eqb_spec (Z.of_nat (length (flatten pre))) (-1)) as [H|H]; [lia|].
      done.
    + apply flatten_ids. eapply Forall_impl; [exact Hpre|].
      intros s Hs. simpl in Hs. apply not_true_iff_false. by rewrite eqb_eq.
    + cbn [fp_sectionId]. apply eqb_refl.
  - rewrite Hall. by apply list_lookup_middle.
  - unfold safeIndex. rewrite Hall, length_app. cbn [length].
    destruct (Z.ltb_spec (Z.of_nat (length (flatten pre)))
                (Z.of_nat (length (flatten pre) + S (length (map (fun part => mkFlat part (sec_title sec) (sec_id sec)) ps ++ flatten post)))));
      [done|lia].
Qed.

Lemma click_in_bounds all i c :
  0 <= i < Z.of_nat (length all) -> 0 <= click all i c < Z.of_nat (length all).
Proof. destruct c; simpl; lia. Qed.

Lemma clicks_in_bounds all clicks : forall i,
  0 <= i < Z.of_nat (length all) ->
  0 <= fold_left (click all) clicks i < Z.of_nat (length all).
Proof.
  induction clicks as [|c clicks IH]; intros i H; simpl; [done|].
  by apply IH, click_in_bounds.
Qed.

End ReaderFacts.

Lemma navigate_missing b t rs :
  Forall (fun s => sec_id s <> t) (default [] (item_sections b)) ->
  navigate (Some b) (Some t) rs
  = (if (length (allParts (Some b)) =? 0)%nat || same_id (lastBookIdRef rs) (item_id b)
     then rs else mkReader 0 (Some (item_id b)), false).
Proof.
  intros H. unfold navigate.
  destruct (length (allParts (Some b)) =? 0)%nat eqn:E; [done|]. cbn [orb].
  assert (findIndex (fun p => eqb (fp_sectionId p) t) (allParts (Some b)) = (-1)%Z)
    as ->.
  { apply findIndex_from_none. unfold allParts.
    destruct (item_sections b) as [ss|]; [|constructor]. simpl in H.
    apply flatten_ids. eapply Forall_impl; [exact H|]. intros s Hs. simpl in Hs.
    apply not_true_iff_false. by rewrite eqb_eq. }
  cbn [Z.eqb negb]. by destruct (truthy t), (same_id (lastBookIdRef rs) (item_id b)).
Qed.

(** X16.  A click on a section in the side bar selects the identifier of
    its book and the identifier of the section.  The reader is then handed
    the first book of the library with that identifier, which is the book
    of the section when no other book shares its identifier.  When the book
    handed over has a section with the identifier chosen, the reader moves
    to the first part of the first such section, which exists since every
    section has a part and an identifier that is not empty, and
    [onTargetReached] is called; when it has none, [onTargetReached] is not
    called and the reader shows the first part of the book handed over, or
    stays where it is if that book was shown already.  The second case
    occurs: two books of the same title in categories of the same title
    share their identifier. *)
Theorem parsed_sections_reachable :
  (forall text, exists lib,
     Counted.parseTextToLibrary text = Ok lib
     /\ forall b sec sel rs,
          b ∈ books_of_library lib -> sec ∈ default [] (item_sections b) ->
          exists shown,
            selectedBook lib (onSelectSection (item_id b) (sec_id sec) sel) = Some shown
            /\ head (List.filter (fun x => eqb (item_id x) (item_id b))
                       (books_of_library lib)) = Some shown
            /\ ((forall x, x ∈ books_of_library lib -> item_id x = item_id b -> x = b) ->
                shown = b)
            /\ (shown = b \/ (exists s, s ∈ default [] (item_sections shown)
                                       /\ sec_id s = sec_id sec) ->
                exists pre sec' post p ps,
                  item_sections shown = Some (pre ++ sec' :: post)
                  /\ sec_id sec' = sec_id sec
                  /\ Forall (fun s => sec_id s <> sec_id sec) pre
                  /\ sec_parts sec' = p :: ps
                  /\ showSelection lib (onSelectSection (item_id b) (sec_id sec) sel) rs
                     = (mkReader (Z.of_nat (length (flatten pre))) (Some (item_id b)),
                        true)
                  /\ allParts (Some shown) !! length (flatten pre)
                     = Some (mkFlat p (sec_title sec') (sec_id sec)))
            /\ (Forall (fun s => sec_id s <> sec_id sec)
                  (default [] (item_sections shown)) ->
                showSelection lib (onSelectSection (item_id b) (sec_id sec) sel) rs
                = (if (length (allParts (Some shown)) =? 0)%nat
                      || same_id (lastBookIdRef rs) (item_id b)
                   then rs else mkReader 0 (Some (item_id b)), false)))
  /\ exists lib b1 b2 s1 s2,
       Counted.parseTextToLibrary (js "# C
## B
### S
# C
## B
### T") = Ok lib
       /\ books_of_library lib = [b1; b2]
       /\ item_sections b1 = Some [s1] /\ item_sections b2 = Some [s2]
       /\ sec_title s1 = js "S" /\ sec_title s2 = js "T"
       /\ forall sel rs,
            selectedBook lib (onSelectSection (item_id b2) (sec_id s2) sel) = Some b1
            /\ snd (showSelection lib (onSelectSection (item_id b2) (sec_id s2) sel) rs)
               = false.
Proof.
  split.
  - intros text.
    destruct (reify_library_ok (CountedPure.run (split_nl text) init)) as [lib Hlib].
    { apply CountedFacts.run_valid, valid_init. }
    assert (Counted.parseTextToLibrary text = Ok lib) as Hparse
      by by rewrite Counted_parse_run.
    exists lib. split; [done|]. intros b sec sel rs Hb Hsec.
    unfold showSelection, selectedBook, onSelectSection.
    cbn [selectedBookId targetSectionId].
    assert (findBook lib (item_id b)
            = head (List.filter (fun x => eqb (item_id x) (item_id b))
                      (books_of_library lib))) as Hfind.
    { rewrite findBook_head_filter. f_equal. apply filter_library.
      by apply (reify_library_layers (CountedPure.run (split_nl text) init)). }
    assert (In b (List.filter (fun x => eqb (item_id x) (item_id b))
                    (books_of_library lib))) as Hin.
    { apply filter_In. split; [by apply list_elem_of_In|apply eqb_refl]. }
    destruct (List.filter _ _) as [|shown l] eqn:E; [done|].
    assert (In shown (List.filter (fun x => eqb (item_id x) (item_id b))
                        (books_of_library lib))) as Hin' by (rewrite E; by left).
    apply filter_In in Hin' as [Hs1 Hs2]. apply eqb_eq in Hs2.
    apply list_elem_of_In in Hs1.
    exists shown. rewrite Hfind. split; [done|]. split; [done|].
    assert ((exists s, s ∈ default [] (item_sections shown) /\ sec_id s = sec_id sec) ->
            exists pre sec' post p ps,
              item_sections shown = Some (pre ++ sec' :: post)
              /\ sec_id sec' = sec_id sec
              /\ Forall (fun s => sec_id s <> sec_id sec) pre
              /\ sec_parts sec' = p :: ps
              /\ navigate (Some shown) (Some (sec_id sec)) rs
                 = (mkReader (Z.of_nat (length (flatten pre))) (Some (item_id b)), true)
              /\ allParts (Some shown) !! length (flatten pre)
                 = Some (mkFlat p (sec_title sec') (sec_id sec))) as Hreach.
    { intros (s & Hs & Hsid).
      destruct (item_sections shown) as [sections|] eqn:Hss;
        [|by apply elem_of_nil in Hs].
      simpl in Hs.
      destruct (first_split (fun s => eqb (sec_id s) (sec_id sec)) sections)
        as [Hnone|(pre & sec' & post & -> & Hpre & Hsec')].
      { rewrite Forall_forall in Hnone. specialize (Hnone s Hs). simpl in Hnone.
        by rewrite Hsid, eqb_refl in Hnone. }
      apply eqb_eq in Hsec'.
      assert (sec' ∈ default [] (item_sections shown)) as Hin'.
      { rewrite Hss. simpl. apply elem_of_app. right. by left. }
      assert (sec_parts sec' <> []) as Hparts.
      { destruct (reify_library_books _ _ _ Hlib Hs1) as [r Hr].
        assert (populated (CountedPure.run (split_nl text) init)) as Hpop
          by (apply CountedPopulated.run_populated; constructor).
        pose proof (reify_book_populated _ _ _ Hpop Hr) as HF.
        destruct (reify_book_layers _ _ _ Hr) as [_ Hch].
        destruct shown as [bid bt bty bch bss]. simpl in *. subst bch bss.
        simpl in HF. rewrite app_nil_r in HF. rewrite Forall_forall in HF.
        by apply HF. }
      assert (sec_id sec' <> []) as Hid.
      { rewrite (parse_section_ids text lib shown sec' Hparse Hs1 Hin'). done. }
      destruct (sec_parts sec') as [|p ps] eqn:Hp; [done|].
      assert (Forall (fun s => sec_id s <> sec_id sec') pre) as Hpre'.
      { eapply Forall_impl; [exact Hpre|]. intros s' Hs'. simpl in Hs'.
        rewrite Hsec'. intros E'. apply eqb_eq in E'. congruence. }
      destruct (navigate_target shown pre sec' post p ps rs Hss Hid Hpre' Hp)
        as (Hn & Ha & _).
      exists pre, sec', post, p, ps. rewrite <- Hsec', <- Hs2.
      by repeat split. }
    split; [|split].
    + intros Honly. by apply Honly.
    + intros [->|H]; [|by apply Hreach]. apply Hreach. by exists sec.
    + intros H. rewrite <- Hs2. by apply navigate_missing.
  - do 5 eexists. split; [vm_compute; reflexivity|].
    split; [reflexivity|]. split; [reflexivity|]. split; [reflexivity|].
    split; [reflexivity|]. split; [reflexivity|]. intros sel rs.
    split; [vm_compute; reflexivity|].
    unfold showSelection, selectedBook, onSelectSection.
    cbn [selectedBookId targetSectionId].
    match goal with
    | |- snd (navigate ?o (Some ?t) rs) = false =>
        let r := eval vm_compute in o in
        change o with r
    end.
    rewrite navigate_missing; [done|]. simpl.
    repeat constructor. vm_compute. discriminate.
Qed.

(** X17.  Clicks on the two halves of the page keep the index of the part
    shown within the parts of the book, stopping at the first and at the
    last. *)
Theorem clicks_stay_in_bounds (all : list FlatPart) (clicks : list Click) (i : Z)
    (H : (0 <= i < Z.of_nat (length all))%Z) :
  (0 <= fold_left (click all) clicks i < Z.of_nat (length all))%Z
  /\ safeIndex (fold_left (click all) clicks i) all = fold_left (click all) clicks i
  /\ is_Some (all !! Z.to_nat (fold_left (click all) clicks i))
  /\ click all 0 ClickBack = 0%Z
  /\ click all (Z.of_nat (length all) - 1) ClickForward = (Z.of_nat (length all) - 1)%Z
  /\ ((i < Z.of_nat (length all) - 1)%Z ->
      click all (click all i ClickForward) ClickBack = i).
Proof.
  pose proof (clicks_in_bounds all clicks i H) as Hj.
  split; [done|]. split; [|split; [|split; [|split]]].
  - unfold safeIndex. destruct (Z.ltb_spec (fold_left (click all) clicks i)
                                  (Z.of_nat (length all))); [done|lia].
  - apply lookup_lt_is_Some_2. lia.
  - simpl. lia.
  - simpl. lia.
  - intros Hi. simpl. lia.
Qed.

Lemma clicks_stay_in_bounds_witness :
  fold_left
    (click [mkFlat (mkPart (js "p1") prayer []) (js "S") (js "s");
            mkFlat (mkPart (js "p2") prayer []) (js "S") (js "s")])
    [ClickForward; ClickForward; ClickBack; ClickBack; ClickBack; ClickForward] 0%Z
  = 1%Z.
Proof.
  assert (0 <= 0 < Z.of_nat (length
            [mkFlat (mkPart (js "p1") prayer []) (js "S") (js "s");
             mkFlat (mkPart (js "p2") prayer []) (js "S") (js "s")]))%Z as H
    by (simpl; lia).
  pose proof (clicks_stay_in_bounds _
                [ClickForward; ClickForward; ClickBack; ClickBack; ClickBack;
                 ClickForward] 0%Z H) as [_ _].
  reflexivity.
Defined.

(** ** The languages shown and the counter of parts *)

Lemma elem_of_list_filter {A} (f : A -> bool) l x :
  x ∈ List.filter f l <-> x ∈ l /\ f x = true.
Proof. rewrite !list_elem_of_In. apply filter_In. Qed.

Lemma sublist_list_filter {A} (f : A -> bool) l : List.filter f l `sublist_of` l.
Proof.
  induction l as [|x l IH]; simpl; [constructor|].
  destruct (f x); by constructor.
Qed.

Lemma includes_perm l ls1 ls2 : ls1 ≡ₚ ls2 -> includes l ls1 = includes l ls2.
Proof.
  intros H. destruct (includes l ls2) eqn:E.
  - apply includes_spec. rewrite H. by apply includes_spec.
  - apply not_true_iff_false. rewrite includes_spec, H, <- includes_spec. congruence.
Qed.

Lemma hasText_ok ps : Forall para_ok ps -> hasText (Some ps) = negb (isNull (head ps)).
Proof.
  intros H. destruct H as [|p ps [Hp Ht] _]; [done|]. simpl.
  rewrite Ht. by destruct p.
Qed.

Lemma content_ok_hasText l po :
  content_ok (part_content po) ->
  hasText (content_get l (part_content po)) = true <-> paragraphs l po <> [].
Proof.
  intros [_ H]. unfold paragraphs.
  destruct (content_get l (part_content po)) as [ps|] eqn:E; simpl; [|done].
  apply content_get_Some in E. rewrite Forall_forall in H. specialize (H _ E).
  simpl in H. change (hasText (Some ps) = true <-> ps <> []).
  rewrite (hasText_ok ps H). by destruct ps.
Qed.

(** X20.  The languages shown for a part are those of the tier, in the order
    of the tier, that are selected in the settings and have a paragraph that
    is not blank; the order in which languages were selected plays no part.
    For a part of a parsed library, a language is shown exactly when it is
    in the tier, selected, and has at least one paragraph: a language block
    of blank lines is never shown. *)
Theorem active_languages (text : jsstring) :
  (forall settings current tier,
     getActiveLangsForTier settings current tier `sublist_of` tier)
  /\ (forall s1 s2 current tier,
        languages s1 ≡ₚ languages s2 ->
        getActiveLangsForTier s1 current tier = getActiveLangsForTier s2 current tier)
  /\ exists lib,
       Counted.parseTextToLibrary text = Ok lib
       /\ Forall (fun sec =>
                    Forall (fun po =>
                              forall settings tier l,
                                l ∈ getActiveLangsForTier settings
                                      (Some (mkFlat po (sec_title sec) (sec_id sec)))
                                      tier
                                <-> l ∈ tier /\ l ∈ languages settings
                                    /\ paragraphs l po <> [])
                      (sec_parts sec))
            (sections_of_library lib).
Proof.
  split; [|split].
  - intros settings [part|] tier; unfold getActiveLangsForTier.
    + etransitivity; apply sublist_list_filter.
    + apply sublist_nil_l.
  - intros s1 s2 current tier H. unfold getActiveLangsForTier.
    assert (List.filter (fun l => includes l (languages s1)) tier
            = List.filter (fun l => includes l (languages s2)) tier) as ->; [|done].
    apply List.filter_ext. intros l. by apply includes_perm.
  - rewrite Counted_parse_run.
    destruct (reify_library_ok (CountedPure.run (split_nl text) init)) as [lib Hlib].
    { apply CountedFacts.run_valid, valid_init. }
    exists lib. split; [done|].
    apply (reify_library_sections _ _
             (fun sec => Forall (fun po => content_ok (part_content po))
                           (sec_parts sec))) in Hlib.
    + eapply Forall_impl; [exact Hlib|]. intros sec Hsec.
      eapply Forall_impl; [exact Hsec|]. intros po Hpo settings tier l.
      unfold getActiveLangsForTier. cbn [fp_part].
      rewrite !elem_of_list_filter, includes_spec, (content_ok_hasText l po Hpo).
      tauto.
    + intros s sec. apply reify_section_parts.
      apply CountedParagraphs.run_contents. constructor.
Qed.

Section CounterFacts.

Local Open Scope Z_scope.

Lemma filter_flatten_other sid sections :
  Forall (fun s => sec_id s <> sid) sections ->
  List.filter (fun p => eqb (fp_sectionId p) sid) (flatten sections) = [].
Proof.
  intros H. apply filter_none. apply (flatten_ids sid).
  eapply Forall_impl; [exact H|]. intros s Hs. simpl in Hs.
  apply not_true_iff_false. by rewrite eqb_eq.
Qed.

Lemma filter_flatten_one sec :
  List.filter (fun p => eqb (fp_sectionId p) (sec_id sec)) (flatten [sec])
  = map (fun part => mkFlat part (sec_title sec) (sec_id sec)) (sec_parts sec).
Proof.
  unfold flatten. cbn [flat_map]. rewrite app_nil_r.
  induction (sec_parts sec) as [|p ps IH]; simpl; [done|].
  by rewrite eqb_refl, IH.
Qed.

Lemma findIndex_from_NoDup {A B} (g : A -> B) (f : A -> bool) (l : list A) k x :
  NoDup (g <$> l) -> l !! k = Some x ->
  (forall y, f y = true <-> g y = g x) ->
  forall i, findIndex_from f l i = i + Z.of_nat k.
Proof.
  intros Hnd Hk Hf i.
  pose proof (take_drop_middle l k x Hk) as E. rewrite <- E.
  rewrite findIndex_from_first.
  - rewrite length_take. apply lookup_lt_Some in Hk. lia.
  - apply Forall_forall. intros y Hy. apply not_true_iff_false. rewrite Hf.
    intros Hg. rewrite <- E, fmap_app, fmap_cons in Hnd.
    apply NoDup_app in Hnd as (_ & Hnd & _). apply (Hnd (g y)).
    + by apply list_elem_of_fmap_2.
    + rewrite Hg. by left.
  - by apply Hf.
Qed.

Lemma section_counter b pre sec post k p :
  item_sections b = Some (pre ++ sec :: post) ->
  NoDup (sec_id <$> pre ++ sec :: post) ->
  NoDup (part_id <$> sec_parts sec) ->
  sec_parts sec !! k = Some p ->
  safeCurrentPart (Z.of_nat (length (flatten pre) + k)) (allParts (Some b))
  = Some (mkFlat p (sec_title sec) (sec_id sec))
  /\ sectionStats (allParts (Some b)) (Some (mkFlat p (sec_title sec) (sec_id sec)))
     = (Z.of_nat k + 1, Z.of_nat (length (sec_parts sec))).
Proof.
  intros Hb Hsec Hparts Hk.
  assert (allParts (Some b) = flatten pre ++ flatten [sec] ++ flatten post) as Hall.
  { unfold allParts. rewrite Hb. change (sec :: post) with ([sec] ++ post).
    by rewrite !flatten_app. }
  assert (flatten [sec]
          = map (fun part => mkFlat part (sec_title sec) (sec_id sec)) (sec_parts sec))
    as Hone.
  { unfold flatten. cbn [flat_map]. by rewrite app_nil_r. }
  assert (flatten [sec] !! k = Some (mkFlat p (sec_title sec) (sec_id sec))) as Hk'.
  { rewrite Hone. change (map ?f ?l) with (f <$> l). by rewrite list_lookup_fmap, Hk. }
  rewrite fmap_app, fmap_cons in Hsec.
  apply NoDup_app in Hsec as (_ & Hpre & Hpost).
  apply NoDup_cons in Hpost as [Hpost _].
  split.
  - unfold safeCurrentPart, safeIndex, at_index. rewrite Hall, !length_app.
    apply lookup_lt_Some in Hk' as Hlt.
    destruct (Z.ltb_spec (Z.of_nat (length (flatten pre) + k))
                (Z.of_nat (length (flatten pre)
                           + (length (flatten [sec]) + length (flatten post)))));
      [|lia].
    destruct (Z.ltb_spec (Z.of_nat (length (flatten pre) + k)) 0); [lia|].
    rewrite Nat2Z.id, lookup_app_r by lia.
    replace (length (flatten pre) + k - length (flatten pre))%nat with k by lia.
    by rewrite lookup_app_l.
  - unfold sectionStats. rewrite Hall, !length_app.
    apply lookup_lt_Some in Hk' as Hlt.
    destruct (Nat.eqb_spec (length (flatten pre)
                            + (length (flatten [sec]) + length (flatten post))) 0);
      [lia|].
    cbn [fp_sectionId fp_part]. rewrite !List.filter_app.
    rewrite filter_flatten_other, filter_flatten_one, filter_flatten_other.
    + rewrite app_nil_r. cbn [app]. rewrite length_map. f_equal.
      unfold findIndex.
      rewrite (findIndex_from_NoDup (fun fp => part_id (fp_part fp)) _ _ k
                 (mkFlat p (sec_title sec) (sec_id sec))).
      * lia.
      * change (map ?f ?l) with (f <$> l). rewrite <- list_fmap_compose.
        exact Hparts.
      * by rewrite <- Hone.
      * intros y. cbn [fp_part]. apply eqb_eq.
    + apply Forall_forall. intros s Hs Heq. apply Hpost.
      rewrite <- Heq. by apply list_elem_of_fmap_2.
    + apply Forall_forall. intros s Hs Heq. apply (Hpre (sec_id s)).
      * by apply list_elem_of_fmap_2.
      * rewrite Heq. by left.
Qed.

End CounterFacts.

Lemma elem_of_flat_map_2 {A B} (f : A -> list B) l x y :
  x ∈ l -> y ∈ f x -> y ∈ flat_map f l.
Proof.
  intros Hx Hy. apply list_elem_of_In, in_flat_map. exists x.
  by rewrite <- !list_elem_of_In.
Qed.

Lemma book_sections_in_library lib b sec :
  b ∈ books_of_library lib -> sec ∈ default [] (item_sections b) ->
  sec ∈ sections_of_library lib.
Proof.
  unfold books_of_library, sections_of_library. intros Hb Hsec.
  apply elem_of_flat_map in Hb as (c & Hc & Hb).
  apply (elem_of_flat_map_2 _ _ c); [done|].
  destruct c as [cid ct cty [ch|] css]; simpl in *; [|by apply elem_of_nil in Hb].
  apply elem_of_app. right. apply (elem_of_flat_map_2 _ _ b); [done|].
  destruct b as [bid bt bty bch bss]. simpl in *. apply elem_of_app. by left.
Qed.

(** X21.  In a book of a parsed library whose sections have different
    identifiers, the counter under the page shows, for the part number k of
    a section of n parts, k and n. *)
Theorem section_counter_shows_position (text : jsstring) (lib : list LibraryItem)
    (b : LibraryItem) (pre post : list LiturgySection) (sec : LiturgySection)
    (k : nat) (p : LiturgicalPart)
    (Hparse : Counted.parseTextToLibrary text = Ok lib)
    (Hb : b ∈ books_of_library lib)
    (Hsections : item_sections b = Some (pre ++ sec :: post))
    (Hids : NoDup (sec_id <$> pre ++ sec :: post))
    (Hk : sec_parts sec !! k = Some p) :
  safeCurrentPart (Z.of_nat (length (flatten pre) + k)) (allParts (Some b))
  = Some (mkFlat p (sec_title sec) (sec_id sec))
  /\ sectionStats (allParts (Some b))
       (safeCurrentPart (Z.of_nat (length (flatten pre) + k)) (allParts (Some b)))
     = (Z.of_nat k + 1, Z.of_nat (length (sec_parts sec)))%Z.
Proof.
  rewrite Counted_parse_run in Hparse.
  assert (sec ∈ sections_of_library lib) as Hsec.
  { apply (book_sections_in_library lib b); [done|]. rewrite Hsections. simpl.
    apply elem_of_app. right. by left. }
  pose proof (run_sections_part_ids text lib Hparse) as Hparts.
  rewrite Forall_forall in Hparts. specialize (Hparts sec Hsec).
  apply part_ids_NoDup in Hparts.
  destruct (section_counter b pre sec post k p Hsections Hids Hparts Hk) as [H1 H2].
  by rewrite H1.
Qed.

Lemma section_counter_shows_position_witness :
  safeCurrentPart 2 (allParts (Some example_book))
  = Some (mkFlat (example_part "part-sec-b-t-1" "C") (js "T") (js "sec-b-t"))
  /\ sectionStats (allParts (Some example_book))
       (safeCurrentPart 2 (allParts (Some example_book)))
     = (1, 1)%Z.
Proof.
  assert (Counted.parseTextToLibrary (js "# C
## B
### S
[EN]
A
---
[EN]
B
### T
[EN]
C") = Ok [mkItem (js "cat-c") (js "C") category (Some [example_book]) None]) as Hparse
    by (vm_compute; reflexivity).
  assert (example_book
          ∈ books_of_library
              [mkItem (js "cat-c") (js "C") category (Some [example_book]) None])
    as Hb by (cbn; left).
  assert (NoDup (sec_id <$> [example_first] ++ [example_second])) as Hids.
  { cbn. apply NoDup_cons. split.
    - rewrite elem_of_cons, elem_of_nil. intros [H|[]]. vm_compute in H. discriminate H.
    - apply NoDup_singleton. }
  exact (section_counter_shows_position _ _ example_book [example_first] []
           example_second 0 (example_part "part-sec-b-t-1" "C") Hparse Hb eq_refl
           Hids eq_refl).
Defined.

(** * The cache *)

Section CacheFacts.

Variable stringify : list LibraryItem -> jsstring.
Variable fits : Storage -> jsstring -> jsstring -> bool.

Lemma getItem_setItem k v s : getItem k (setItem k v s) = Some v.
Proof. unfold getItem, setItem. by rewrite eqb_refl. Qed.

Lemma getItem_setItem_ne k k' v s :
  eqb k' k = false -> getItem k' (setItem k v s) = getItem k' s.
Proof. unfold getItem, setItem. by intros ->. Qed.

Lemma opt_or_Some v : opt_or (Some v) [] = v.
Proof. simpl. apply or_else_nil. Qed.

Lemma saveLibrary_returned data rawText gid s s' :
  saveLibrary stringify fits data rawText gid s = Returned s' ->
  getItem storageKey s' = Some (stringify data)
  /\ getRawText s' = match rawText with Some t => t | None => getRawText s end
  /\ getGoogleDocId s' = match gid with Some d => d | None => getGoogleDocId s end.
Proof.
  unfold saveLibrary, write, getRawText, getGoogleDocId.
  destruct (fits s storageKey (stringify data)); [|done].
  set (s1 := setItem storageKey (stringify data) s).
  assert (getItem storageKey s1 = Some (stringify data)
          /\ getItem rawTextKey s1 = getItem rawTextKey s
          /\ getItem googleDocIdKey s1 = getItem googleDocIdKey s) as (A1 & A2 & A3).
  { unfold s1. rewrite getItem_setItem. by rewrite !getItem_setItem_ne. }
  clearbody s1.
  destruct rawText as [t|].
  - destruct (fits s1 rawTextKey t); [|done].
    destruct gid as [d|].
    + destruct (fits _ googleDocIdKey d); [|done]. intros [= <-].
      rewrite getItem_setItem, opt_or_Some.
      rewrite !getItem_setItem_ne by done.
      by rewrite getItem_setItem, opt_or_Some.
    + intros [= <-]. rewrite getItem_setItem, opt_or_Some.
      rewrite !getItem_setItem_ne by done. by rewrite A3.
  - destruct gid as [d|].
    + destruct (fits _ googleDocIdKey d); [|done]. intros [= <-].
      rewrite getItem_setItem, opt_or_Some.
      rewrite !getItem_setItem_ne by done. by rewrite A2.
    + intros [= <-]. by rewrite A2, A3.
Qed.

Lemma saveLibrary_other_keys data rawText gid s k :
  eqb k storageKey = false -> eqb k rawTextKey = false ->
  eqb k googleDocIdKey = false ->
  getItem k (storage_of (saveLibrary stringify fits data rawText gid s)) = getItem k s.
Proof.
  intros K1 K2 K3. unfold saveLibrary, write.
  destruct rawText as [t|], gid as [d|];
    repeat match goal with
           | |- context [fits ?a ?b ?c] => destruct (fits a b c)
           end;
    cbn [storage_of]; by rewrite ?getItem_setItem_ne.
Qed.

End CacheFacts.

(** X18.  When [saveLibrary] returns, the cache holds the library written
    out, [getRawText] gives the text saved and [getGoogleDocId] the
    identifier saved, the empty string included; an argument left out leaves
    what was stored.  Returned or not, it touches no key but its three. *)
Theorem cache_round_trip (stringify : list LibraryItem -> jsstring)
    (fits : Storage -> jsstring -> jsstring -> bool)
    (data : list LibraryItem) (rawText gid : option jsstring) (s s' : Storage)
    (H : saveLibrary stringify fits data rawText gid s = Returned s') :
  getItem storageKey s' = Some (stringify data)
  /\ getRawText s' = match rawText with Some t => t | None => getRawText s end
  /\ getGoogleDocId s' = match gid with Some d => d | None => getGoogleDocId s end
  /\ forall k,
       eqb k storageKey = false -> eqb k rawTextKey = false ->
       eqb k googleDocIdKey = false ->
       getItem k s' = getItem k s.
Proof.
  destruct (saveLibrary_returned _ _ _ _ _ _ _ H) as (H1 & H2 & H3).
  repeat split; [done..|]. intros k K1 K2 K3.
  pose proof (saveLibrary_other_keys stringify fits data rawText gid s k K1 K2 K3) as E.
  by rewrite H in E.
Qed.

Lemma cache_round_trip_witness :
  getRawText (setItem googleDocIdKey (js "doc")
                (setItem rawTextKey [] (setItem storageKey (js "[]") (fun _ => None))))
  = [].
Proof.
  assert (saveLibrary (fun _ => js "[]") (fun _ _ _ => true) [] (Some [])
            (Some (js "doc")) (fun _ => None)
          = Returned (setItem googleDocIdKey (js "doc")
                        (setItem rawTextKey []
                           (setItem storageKey (js "[]") (fun _ => None))))) as H
    by reflexivity.
  exact (proj1 (proj2 (cache_round_trip _ _ _ _ _ _ _ H))).
Defined.

(** X19.  [handleSaveEditor] raises its alert exactly when the browser
    refuses one of the three writes, whatever the text in the editor: the
    parser never throws.  When it raises none, the library shown is the one
    parsed from the text, the editor is closed, and the cache gives back the
    text and the document identifier. *)
Theorem save_editor (stringify : list LibraryItem -> jsstring)
    (fits : Storage -> jsstring -> jsstring -> bool)
    (app : EditorState) (s : Storage) :
  exists lib,
    Counted.parseTextToLibrary (editorContent app) = Ok lib
    /\ match saveLibrary stringify fits lib (Some (editorContent app))
               (Some (googleDocId app)) s with
       | Returned s' =>
           handleSaveEditor stringify fits app s
           = (mkEditor lib false (editorContent app) (googleDocId app), s', false)
           /\ getRawText s' = editorContent app
           /\ getGoogleDocId s' = googleDocId app
           /\ getItem storageKey s' = Some (stringify lib)
       | QuotaExceeded s' =>
           handleSaveEditor stringify fits app s = (app, s', true)
       end.
Proof.
  destruct (reify_library_ok (CountedPure.run (split_nl (editorContent app)) init))
    as [lib Hlib].
  { apply CountedFacts.run_valid, valid_init. }
  assert (Counted.parseTextToLibrary (editorContent app) = Ok lib) as Hparse
    by by rewrite Counted_parse_run.
  exists lib. split; [done|]. unfold handleSaveEditor. rewrite Hparse.
  destruct (saveLibrary _ _ lib _ _ s) as [s'|s'] eqn:E; [|done].
  destruct (saveLibrary_returned _ _ _ _ _ _ _ E) as (H1 & H2 & H3). done.
Qed.
